(** * A-Tune optimizer worker: knob space, warm start, dispatch, ranking

    Shallow embedding of [analysis/optimizer/optimizer.py] (class
    [Optimizer]) and the properties its specification states about it.

    Modelling conventions.
    - A Python object is a [value]: [None], an [int] (unbounded, [Z]), a
      [float], a [str] or a [list].  Booleans, tuples and nested dicts do
      not occur in a decoded knob declaration and are left out.
    - A [float] is a rational, an infinity or a NaN ([pyfloat]): the
      order, the equality and the sum are the exact ones, and a result
      beyond the range of binary64 is an infinity (or an [OverflowError]
      where Python raises one); the rounding of the mantissa is not
      represented.  The statements about knobs, vectors and messages do
      not depend on it; the ones about feature importance read the
      magnitude of a coefficient as an exact rational and keep its sign
      bit.
    - A [str] is a string of ASCII characters.
    - A knob descriptor is a Python [dict] with string keys: a
      [gmap string value].  A missing key raises [KeyError] as in Python.
    - The worker mutates its knob dicts and its [ref] list in place; the
      functions below thread a [world] holding both, and a raised
      exception keeps every write made before it. *)

From Stdlib Require Import ZArith QArith Qround Qabs Lqa Ascii String List Lia Bool Sorted Permutation.
From stdpp Require Import base option list strings pretty gmap fin_maps.
Import ListNotations.
Set Warnings "-register-all".

Local Open Scope string_scope.
Local Open Scope list_scope.
Local Open Scope Z_scope.

(** ** Python values *)

Inductive pyfloat : Type :=
| FFin (q : Q)
| FInf (negative : bool)
| FNan.

Inductive value : Type :=
| VNone
| VInt (z : Z)
| VFloat (f : pyfloat)
| VStr (s : string)
| VList (l : list value).

(** A knob descriptor, [p_nob] in the source. *)
Abbreviation knob := (gmap string value).

(** ** Exceptions

    [ValueError] keeps the format string of the source and the values
    handed to [format]; the other classes are the ones the interpreter
    and the collaborators raise.  [OtherError] stands for any further
    class under [Exception] that derives neither from [ValueError] nor
    from [RuntimeError], as none of the named ones does. *)

Inductive exn : Type :=
| ValueError (fmt : string) (args : list value)
| RuntimeError (msg : string)
| TypeError
| KeyError (key : string)
| IndexError
| AttributeError
| OverflowError
| UnboundLocalError (var : string)
| OtherError (cls : string).

Inductive result (A : Type) : Type :=
| Ok (a : A)
| Raise (e : exn).
Arguments Ok {A} a.
Arguments Raise {A} e.

Definition rbind {A B : Type} (r : result A) (f : A -> result B) : result B :=
  match r with
  | Ok a => f a
  | Raise e => Raise e
  end.

(** ** Floats *)

Definition f_eqb (a b : pyfloat) : bool :=
  match a, b with
  | FFin x, FFin y => Qeq_bool x y
  | FInf n, FInf m => Bool.eqb n m
  | _, _ => false
  end.

Definition f_ltb (a b : pyfloat) : bool :=
  match a, b with
  | FFin x, FFin y => match Qcompare x y with Lt => true | _ => false end
  | FFin _, FInf n => negb n
  | FInf n, FFin _ => n
  | FInf n, FInf m => n && negb m
  | _, _ => false
  end.

(** The least magnitude that binary64 rounds to an infinity: halfway
    between the largest finite number and [2^1024]. *)
Definition overflow_threshold : Q := inject_Z (2 ^ 1024 - 2 ^ 970).

Definition overflows (q : Q) : bool := Qle_bool overflow_threshold (Qabs q).

Definition is_negative (q : Q) : bool :=
  match Qcompare q 0 with Lt => true | _ => false end.

(** The float a computation with the exact result [q] returns. *)
Definition saturate (q : Q) : pyfloat :=
  if overflows q then FInf (is_negative q) else FFin q.

Definition f_add (a b : pyfloat) : pyfloat :=
  match a, b with
  | FNan, _ | _, FNan => FNan
  | FFin x, FFin y => saturate (Qred (x + y))
  | FFin _, FInf n | FInf n, FFin _ => FInf n
  | FInf n, FInf m => if Bool.eqb n m then FInf n else FNan
  end.

(** An [int] as a number among the floats, for the comparisons between
    the two, which Python makes exactly. *)
Definition f_of_Z (z : Z) : pyfloat := FFin (inject_Z z).

(** [float(z)] for an [int]. *)
Definition float_of_int (z : Z) : option pyfloat :=
  if overflows (inject_Z z) then None else Some (f_of_Z z).

(** [int(f)]: truncation towards zero. *)
Definition f_trunc (f : pyfloat) : result Z :=
  match f with
  | FFin q => Ok (Z.quot (Qnum q) (Zpos (Qden q)))
  | FInf _ => Raise OverflowError
  | FNan => Raise (ValueError "cannot convert float NaN to integer" [])
  end.

(** ** Strings *)

(** The whitespace [int] and [float] skip around an ASCII text: tab to
    carriage return, and the space. *)
Definition is_space (c : ascii) : bool :=
  let n := nat_of_ascii c in
  ((9 <=? n)%nat && (n <=? 13)%nat) || (n =? 32)%nat.

Definition is_digit (c : ascii) : bool :=
  let n := nat_of_ascii c in (48 <=? n)%nat && (n <=? 57)%nat.

Definition digit_val (c : ascii) : Z := Z.of_nat (nat_of_ascii c) - 48.

Fixpoint lstrip (l : list ascii) : list ascii :=
  match l with
  | c :: l' => if is_space c then lstrip l' else l
  | [] => []
  end.

Definition strip (l : list ascii) : list ascii := rev (lstrip (rev (lstrip l))).

Definition chars (s : string) : list ascii := list_ascii_of_string s.

(** A digit part [digit (["_"] digit)*]: the digits read so far as a
    number and their count, or [None] when [l] is not a digit part.
    [after_digit] tells whether an underscore may come next. *)
Fixpoint digitpart (l : list ascii) (after_digit : bool) (acc : Z) (n : nat)
  : option (Z * nat) :=
  match l with
  | [] => if after_digit then Some (acc, n) else None
  | c :: l' =>
      if is_digit c then digitpart l' true (10 * acc + digit_val c) (S n)
      else if Ascii.eqb c "_" then
        if after_digit then digitpart l' false acc n else None
      else None
  end.

Definition unsigned (l : list ascii) : bool * list ascii :=
  match l with
  | c :: l' =>
      if Ascii.eqb c "-" then (true, l')
      else if Ascii.eqb c "+" then (false, l')
      else (false, l)
  | [] => (false, [])
  end.

(** The integer a decimal literal denotes, with its number of digits. *)
Definition int_literal (s : string) : option (Z * nat) :=
  let (neg, body) := unsigned (strip (chars s)) in
  match digitpart body false 0 0 with
  | Some (z, n) => Some (if neg then - z else z, n)
  | None => None
  end.

(** The interpreter's default limit on the digits of a literal that
    [int] converts. *)
Definition max_str_digits : Z := 4300.

(** [int(s)] for a [str], base 10: the value, when [int] returns one. *)
Definition int_of_string (s : string) : option Z :=
  match int_literal s with
  | Some (z, n) => if Z.of_nat n <=? max_str_digits then Some z else None
  | None => None
  end.

(** The part of [l] up to the first character satisfying [p], and the
    rest from that character on. *)
Fixpoint break_at (p : ascii -> bool) (l : list ascii) : list ascii * list ascii :=
  match l with
  | [] => ([], [])
  | c :: l' =>
      if p c then ([], l)
      else let (a, b) := break_at p l' in (c :: a, b)
  end.

Definition lower (c : ascii) : ascii :=
  let n := nat_of_ascii c in
  if ((65 <=? n)%nat && (n <=? 90)%nat)%bool then ascii_of_nat (n + 32) else c.

Definition pow10 (e : Z) : Q :=
  if (0 <=? e)%Z then inject_Z (10 ^ e) else 1 / inject_Z (10 ^ (- e)).

(** The mantissa [digits ["." [digits]] | "." digits] as a rational. *)
Definition mantissa (l : list ascii) : option Q :=
  let (ip, rest) := break_at (fun c => Ascii.eqb c ".") l in
  match rest with
  | [] =>
      match digitpart ip false 0 0 with
      | Some (z, _) => Some (inject_Z z)
      | None => None
      end
  | _ :: fp =>
      match ip, fp with
      | [], [] => None
      | _, _ =>
          match (if ip is [] then Some (0, 0%nat) else digitpart ip false 0 0),
                (if fp is [] then Some (0, 0%nat) else digitpart fp false 0 0) with
          | Some (i, _), Some (f, n) =>
              Some (inject_Z i + inject_Z f * pow10 (- Z.of_nat n))%Q
          | _, _ => None
          end
      end
  end.

(** [float(s)] for a [str]. *)
Definition float_of_string (s : string) : option pyfloat :=
  let (neg, body) := unsigned (strip (chars s)) in
  let word := string_of_list_ascii (map lower body) in
  if (String.eqb word "inf" || String.eqb word "infinity")%bool then Some (FInf neg)
  else if String.eqb word "nan" then Some FNan
  else
    let (m, rest) := break_at (fun c => Ascii.eqb (lower c) "e") body in
    match mantissa m with
    | None => None
    | Some q =>
        let signed (x : Q) := if neg then (- x)%Q else x in
        match rest with
        | [] => Some (saturate (Qred (signed q)))
        | _ :: ex =>
            let (eneg, edigits) := unsigned ex in
            match digitpart edigits false 0 0 with
            | Some (e, _) =>
                Some (saturate (Qred (signed (q * pow10 (if eneg then - e else e))%Q)))
            | None => None
            end
        end
    end.

(** [s.split(sep)] for a one-character separator. *)
Fixpoint split_on (sep : ascii) (l : list ascii) (cur : list ascii) : list string :=
  match l with
  | [] => [string_of_list_ascii (rev cur)]
  | c :: l' =>
      if Ascii.eqb c sep then string_of_list_ascii (rev cur) :: split_on sep l' []
      else split_on sep l' (c :: cur)
  end.

Definition split (s : string) (sep : ascii) : list string := split_on sep (chars s) [].

(** ** Operators of the language *)

(** [a == b] *)
Fixpoint py_eq (a b : value) : bool :=
  match a, b with
  | VNone, VNone => true
  | VInt x, VInt y => Z.eqb x y
  | VInt x, VFloat y => f_eqb (f_of_Z x) y
  | VFloat x, VInt y => f_eqb x (f_of_Z y)
  | VFloat x, VFloat y => f_eqb x y
  | VStr x, VStr y => String.eqb x y
  | VList xs, VList ys =>
      (fix all2 (xs ys : list value) : bool :=
         match xs, ys with
         | [], [] => true
         | x :: xs', y :: ys' => py_eq x y && all2 xs' ys'
         | _, _ => false
         end) xs ys
  | _, _ => false
  end.

Definition str_ltb (a b : string) : bool :=
  match String.compare a b with Lt => true | _ => false end.

(** [a < b]; [TypeError] between unordered types. *)
Fixpoint py_lt (a b : value) : result bool :=
  match a, b with
  | VInt x, VInt y => Ok (Z.ltb x y)
  | VInt x, VFloat y => Ok (f_ltb (f_of_Z x) y)
  | VFloat x, VInt y => Ok (f_ltb x (f_of_Z y))
  | VFloat x, VFloat y => Ok (f_ltb x y)
  | VStr x, VStr y => Ok (str_ltb x y)
  | VList xs, VList ys =>
      (fix lex (xs ys : list value) : result bool :=
         match xs, ys with
         | [], [] => Ok false
         | [], _ :: _ => Ok true
         | _ :: _, [] => Ok false
         | x :: xs', y :: ys' => if py_eq x y then lex xs' ys' else py_lt x y
         end) xs ys
  | _, _ => Raise TypeError
  end.

(** [a > b] is [b < a]; [a <= b] is [a < b or a == b] on the types above. *)
Definition py_gt (a b : value) : result bool := py_lt b a.

Definition py_le (a b : value) : result bool :=
  rbind (py_lt a b) (fun lt => Ok (lt || py_eq a b)).

(** The [ValueError] of [int(s)] for a text it refuses: the literal is
    malformed, or it has more digits than the limit. *)
Definition int_error (s : string) : exn :=
  match int_literal s with
  | Some (_, n) =>
      ValueError "Exceeds the limit ({} digits) for integer string conversion: value has {} digits; use sys.set_int_max_str_digits() to increase the limit"
        [VInt max_str_digits; VInt (Z.of_nat n)]
  | None => ValueError "invalid literal for int() with base 10: {}" [VStr s]
  end.

(** [int(v)] *)
Definition py_int (v : value) : result Z :=
  match v with
  | VInt z => Ok z
  | VFloat f => f_trunc f
  | VStr s =>
      match int_of_string s with
      | Some z => Ok z
      | None => Raise (int_error s)
      end
  | _ => Raise TypeError
  end.

(** [float(v)] *)
Definition py_float (v : value) : result pyfloat :=
  match v with
  | VInt z =>
      match float_of_int z with
      | Some f => Ok f
      | None => Raise OverflowError
      end
  | VFloat f => Ok f
  | VStr s =>
      match float_of_string s with
      | Some f => Ok f
      | None => Raise (ValueError "could not convert string to float: {}" [v])
      end
  | _ => Raise TypeError
  end.

(** [a + b] on numbers, strings and lists. *)
Definition py_add (a b : value) : result value :=
  match a, b with
  | VInt x, VInt y => Ok (VInt (x + y))
  | VInt x, VFloat y =>
      match float_of_int x with
      | Some fx => Ok (VFloat (f_add fx y))
      | None => Raise OverflowError
      end
  | VFloat x, VInt y =>
      match float_of_int y with
      | Some fy => Ok (VFloat (f_add x fy))
      | None => Raise OverflowError
      end
  | VFloat x, VFloat y => Ok (VFloat (f_add x y))
  | VStr x, VStr y => Ok (VStr (x ++ y))
  | VList x, VList y => Ok (VList (x ++ y))
  | _, _ => Raise TypeError
  end.

(** [iter(v)]: the elements a [for] loop, [enumerate], [set] or [list]
    goes through. *)
Definition py_iter (v : value) : result (list value) :=
  match v with
  | VList l => Ok l
  | VStr s => Ok (map (fun c => VStr (String c EmptyString)) (chars s))
  | _ => Raise TypeError
  end.

(** [len(v)] *)
Definition py_len (v : value) : result nat :=
  rbind (py_iter v) (fun l => Ok (length l)).

(** [v[i]] for [0 <= i]. *)
Definition py_getitem (v : value) (i : nat) : result value :=
  rbind (py_iter v) (fun l =>
    match l !! i with
    | Some x => Ok x
    | None => Raise IndexError
    end).

(** [v[i] = x] for [0 <= i]: the updated object. *)
Definition py_setitem (v : value) (i : nat) (x : value) : result value :=
  match v with
  | VList l => if (i <? length l)%nat then Ok (VList (<[i := x]> l)) else Raise IndexError
  | _ => Raise TypeError
  end.

(** [x in l] *)
Definition py_in (x : value) (l : list value) : bool := existsb (py_eq x) l.

(** [hash(v)] succeeds on every value but a list. *)
Definition hashable (v : value) : bool :=
  match v with VList _ => false | _ => true end.

(** ** Dictionaries with arbitrary hashable keys

    [params] in [run] is keyed by [knob['name']], whatever object that
    is: an association list in insertion order, looked up with [==]. *)

Definition pydict := list (value * value).

Fixpoint dict_set (d : pydict) (k v : value) : pydict :=
  match d with
  | [] => [(k, v)]
  | (k', v') :: d' => if py_eq k' k then (k', v) :: d' else (k', v') :: dict_set d' k v
  end.

(** ** Search dimensions: what [build_space] appends per knob *)

Inductive dimension : Type :=
| DItems (items : list value)      (* the list [handle_discrete_data] returns *)
| DInterval (low high : value).    (* the tuple [(r_range[0], r_range[1])] *)

(** ** Messages on the channel and calls to collaborators *)

Inductive field : Type :=
| FParams (p : pydict)
| FRank (r : string)
| FBool (b : bool).

Inductive message : Type :=
| MDict (d : gmap string field)    (* a dict, pickled when it is sent *)
| MExn (e : exn)                   (* [send(value_error)], [send(runtime_error)] *)
| MUnexpected (e : exn).           (* [send(Exception("Unexpected Error:", repr(e)))] *)

Inductive event : Type :=
| Send (m : message)
| Recv (reply : string)
| CallDummyMinimize (space : list dimension) (n_calls : Z)
| CallGpMinimize (space : list dimension) (n_calls n_random_starts : Z)
    (x0 : list value) (y0 : option (list pyfloat))
| CallABTest (split_count : Z)
| CallLHS (max_eval split_count : Z)
| CallTPE (max_eval : Z)
| CallRank (options : list (list value)) (performance : list pyfloat) (labels : list value).

(** ** The worker's state

    The attributes of [self] that the methods read and write, the local
    variables of [run] that [objective] closes over, and the history of
    what the worker did to the outside. *)

Record world : Type := World {
  knobs : list knob;                  (* self.knobs *)
  ref : list value;                   (* self.ref *)
  n_random_starts : Z;                (* self._n_random_starts *)
  params : pydict;                    (* run: params *)
  options : list (list value);        (* run: options *)
  performance : list pyfloat;         (* run: performance *)
  trace : list event
}.

Definition M (A : Type) : Type := world -> result A * world.

Definition ret {A : Type} (a : A) : M A := fun w => (Ok a, w).

Definition raise {A : Type} (e : exn) : M A := fun w => (Raise e, w).

Definition bind {A B : Type} (c : M A) (f : A -> M B) : M B :=
  fun w =>
    match c w with
    | (Ok a, w') => f a w'
    | (Raise e, w') => (Raise e, w')
    end.

Definition lift {A : Type} (r : result A) : M A := fun w => (r, w).

#[global] Instance M_bind : MBind M := fun A B f c => bind c f.
#[global] Instance M_ret : MRet M := fun A a => ret a.

(** [try: c except ValueError: handler] *)
Definition except_value_error {A : Type} (c : M A) (handler : M A) : M A :=
  fun w =>
    match c w with
    | (Raise (ValueError _ _), w') => handler w'
    | r => r
    end.

(** A [for] loop over [l] that carries the loop's local variables. *)
Fixpoint for_each {A S : Type} (l : list A) (body : S -> A -> M S) (locals : S) : M S :=
  match l with
  | [] => ret locals
  | a :: l' => s ← body locals a; for_each l' body s
  end.

(** [enumerate(l)] *)
Definition enumerate {A : Type} (l : list A) : list (nat * A) :=
  zip (seq 0 (length l)) l.

Definition get_world : M world := fun w => (Ok w, w).

(** [self.knobs[i][key]] *)
Definition get_field (i : nat) (key : string) : M value :=
  fun w =>
    match knobs w !! i with
    | None => (Raise IndexError, w)
    | Some p =>
        match p !! key with
        | Some v => (Ok v, w)
        | None => (Raise (KeyError key), w)
        end
    end.

(** [key in self.knobs[i].keys()] *)
Definition has_field (i : nat) (key : string) : M bool :=
  fun w =>
    match knobs w !! i with
    | None => (Raise IndexError, w)
    | Some p => (Ok (bool_decide (is_Some (p !! key))), w)
    end.

(** A write through an alias of the object stored at
    [self.knobs[i][key]]: the dict now holds the updated object. *)
Definition set_field (i : nat) (key : string) (v : value) : M unit :=
  fun w =>
    (Ok tt,
     World (alter (<[key := v]>) i (knobs w)) (ref w) (n_random_starts w)
           (params w) (options w) (performance w) (trace w)).

(** [self.ref.append(v)] *)
Definition ref_append (v : value) : M unit :=
  fun w =>
    (Ok tt,
     World (knobs w) (ref w ++ [v]) (n_random_starts w)
           (params w) (options w) (performance w) (trace w)).

Definition log (e : event) : M unit :=
  fun w =>
    (Ok tt,
     World (knobs w) (ref w) (n_random_starts w)
           (params w) (options w) (performance w) (trace w ++ [e])).

(** ** Library calls of [handle_discrete_data] *)

Definition is_none (v : value) : bool :=
  match v with VNone => true | _ => false end.

Definition as_number (v : value) : result pyfloat :=
  match v with
  | VInt z => Ok (f_of_Z z)
  | VFloat f => Ok f
  | _ => Raise TypeError
  end.

Definition is_int (v : value) : bool :=
  match v with VInt _ => true | _ => false end.

(** An [int] that numpy holds as an int64. *)
Definition fits_int64 (v : value) : bool :=
  match v with
  | VInt z => (- 2 ^ 63 <=? z) && (z <? 2 ^ 63)
  | _ => false
  end.

(** [list(np.arange(start, stop, step=step))].  A [stop] of [None]
    makes [start] the stop and 0 the start; a [step] of [None] is 1.  The
    values are [start + k * step] for [0 <= k < ceil((stop - start) / step)].
    They are integers when the three arguments are [int]s within int64;
    otherwise numpy computes in float64, and the values are floats.
    numpy refuses arguments that are not numbers, a length it cannot
    compute and a zero step.

    numpy computes the length, and the float grid, in binary64: the
    values given here are the exact ones, which the integer grid has
    while [|stop - start| < 2^53]. *)
Definition np_arange (start stop step : value) : result (list value) :=
  let '(start, stop) := if is_none stop then (VInt 0, start) else (start, stop) in
  let step := if is_none step then VInt 1 else step in
  rbind (as_number start) (fun a =>
  rbind (as_number stop) (fun b =>
  rbind (as_number step) (fun s =>
    match a, b, s with
    | FFin qa, FFin qb, FFin qs =>
        if Qeq_bool qs 0 then Raise (OtherError "ZeroDivisionError")
        else
          let n := Z.to_nat (Qceiling ((qb - qa) / qs)) in
          let at_ (k : nat) : Q := Qred (qa + inject_Z (Z.of_nat k) * qs) in
          if fits_int64 start && fits_int64 stop && fits_int64 step
          then Ok (map (fun k => VInt (Qfloor (at_ k))) (seq 0 n))
          else Ok (map (fun k => VFloat (saturate (at_ k))) (seq 0 n))
    | _, _, _ => Raise (ValueError "arange: cannot compute length" [])
    end))).

(** [list(set(l))]: one element per class of [==], unhashable elements
    refused.  Python leaves the order of a set open; the first
    occurrences are kept here in their order, and nothing below depends
    on it. *)
Fixpoint dedup (l : list value) (seen : list value) : list value :=
  match l with
  | [] => []
  | x :: l' => if py_in x seen then dedup l' seen else x :: dedup l' (x :: seen)
  end.

Definition list_of_set (v : value) : result (list value) :=
  rbind (py_iter v) (fun l =>
    if forallb hashable l then Ok (dedup l []) else Raise TypeError).

(** [items.extend(more)] *)
Definition py_extend (items : value) (more : list value) : result value :=
  match items with
  | VList l => Ok (VList (l ++ more))
  | _ => Raise AttributeError
  end.

(** ** [Optimizer.handle_discrete_data]

    The three branches on [p_nob['dtype']], for the knob at position [i]
    of [self.knobs]. *)

(** [range(0, length, 2)] *)
Definition even_indices (length : nat) : list nat :=
  map (fun k => 2 * k)%nat (seq 0 (Nat.div (length + 1) 2)).

(** One round of
    [items.extend(list(np.arange(r_range[j], r_range[j + 1] (+ 1), step=step)))].
    The attribute [items.extend] is looked up before the argument is
    evaluated.  When [aliased], [items] is the list held by
    [p_nob['items']] and the dict sees it grow. *)
Definition extend_from_pair (i : nat) (aliased plus_one : bool) (r_range step : value)
    (items : value) (j : nat) : M value :=
  _ ← lift (py_extend items []);
  low ← lift (py_getitem r_range j);
  high ← lift (py_getitem r_range (j + 1));
  stop ← lift (if plus_one then py_add high (VInt 1) else Ok high);
  more ← lift (np_arange low stop step);
  items' ← lift (py_extend items more);
  (if aliased then set_field i "items" items' else ret tt);;
  ret items'.

(** The lines shared by the [int] and the [float] branch:
[[
  items = p_nob['items']
  if items is None: items = []
  r_range = p_nob['range']
  step = default
  if 'step' in p_nob.keys(): step = default if <p_nob['step'] too small> else p_nob['step']
  if r_range is not None:
      length = len(r_range) if len(r_range) % 2 == 0 else len(r_range) - 1
      for i in range(0, length, 2): items.extend(...)
  items = list(set(items))
]] *)
Definition candidate_items (i : nat) (default_step : value)
    (too_small : value -> result bool) (plus_one : bool) : M (list value) :=
  items0 ← get_field i "items";
  let aliased := negb (is_none items0) in
  let items := if is_none items0 then VList [] else items0 in
  r_range ← get_field i "range";
  has_step ← has_field i "step";
  step ← (if has_step : bool then
            s ← get_field i "step";
            small ← lift (too_small s);
            if small : bool then ret default_step else get_field i "step"
          else ret default_step);
  items ← (if is_none r_range then ret items
           else
             n ← lift (py_len r_range);
             let length := if (n mod 2 =? 0)%nat then n else (n - 1)%nat in
             for_each (even_indices length)
               (extend_from_pair i aliased plus_one r_range step) items);
  lift (list_of_set items).

(** [if p_nob['dtype'] == 'int': ...] *)
Definition handle_discrete_int (i : nat) : M (list value) :=
  items ← candidate_items i (VInt 1) (fun s => py_lt s (VInt 1)) true;
  ref_value ← except_value_error
    (r ← get_field i "ref"; lift (py_int r))
    (name ← get_field i "name";
     raise (ValueError "the ref value of {} is not an integer value" [name]));
  let items := if py_in (VInt ref_value) items then items else items ++ [VInt ref_value] in
  ref_append (VInt ref_value);;
  ret items.

(** [if p_nob['dtype'] == 'float': ...] *)
Definition handle_discrete_float (i : nat) : M (list value) :=
  items ← candidate_items i (VFloat (FFin (1 # 10))) (fun s => py_le s (VInt 0)) false;
  ref_value ← except_value_error
    (r ← get_field i "ref"; lift (py_float r))
    (name ← get_field i "name";
     raise (ValueError "the ref value of {} is not a float value" [name]));
  let items := if py_in (VFloat ref_value) items then items else items ++ [VFloat ref_value] in
  ref_append (VFloat ref_value);;
  ret items.

(** [if p_nob['dtype'] == 'string': ...] *)
Definition handle_discrete_string (i : nat) : M (list value) :=
  items ← get_field i "options";
  w ← get_world;
  let length0 := length (ref w) in
  elements ← lift (py_iter items);
  keys ← for_each (enumerate elements)
    (fun keys '(key, value) =>
       r ← get_field i "ref";
       (if py_eq r value then ref_append (VInt (Z.of_nat key)) else ret tt);;
       ret (keys ++ [VInt (Z.of_nat key)]))
    [];
  w' ← get_world;
  if (length (ref w') =? length0)%nat
  then name ← get_field i "name";
       raise (ValueError "the ref value of {} is out of range" [name])
  else ret keys.

Definition handle_discrete_data (i : nat) : M (list value) :=
  dtype ← get_field i "dtype";
  if py_eq dtype (VStr "int") then handle_discrete_int i
  else if py_eq dtype (VStr "float") then handle_discrete_float i
  else if py_eq dtype (VStr "string") then handle_discrete_string i
  else name ← get_field i "name";
       raise (ValueError "the dtype of {} is not supported" [name]).

(** ** [Optimizer.build_space] *)

(** The body of a [try] in the continuous branch:
[[
  ref_value = conv(p_nob['ref'])
  r_range[0] = conv(r_range[0])
  r_range[1] = conv(r_range[1])
]]
    [r_range] is the list held by [p_nob['range']]: both writes land in
    the knob. *)
Definition coerce_bounds (i : nat) (conv : value -> result value) (r_range : value)
  : M value :=
  r ← get_field i "ref";
  ref_value ← lift (conv r);
  x0 ← lift (py_getitem r_range 0);
  c0 ← lift (conv x0);
  r_range1 ← lift (py_setitem r_range 0 c0);
  set_field i "range" r_range1;;
  x1 ← lift (py_getitem r_range1 1);
  c1 ← lift (conv x1);
  r_range2 ← lift (py_setitem r_range1 1 c1);
  set_field i "range" r_range2;;
  ret ref_value.

Definition conv_int (v : value) : result value := rbind (py_int v) (fun z => Ok (VInt z)).
Definition conv_float (v : value) : result value := rbind (py_float v) (fun f => Ok (VFloat f)).

(** The branch [elif p_nob['type'] == 'continuous'].  [ref_value] is the
    local variable of [build_space]: it is assigned only under dtype
    [int] or [float], and keeps whatever an earlier knob left in it
    otherwise ([None]: never assigned). *)
Definition continuous_dimension (i : nat) (ref_value : option value)
  : M (dimension * option value) :=
  r_range ← get_field i "range";
  wrong ← (if is_none r_range then ret true
           else n ← lift (py_len r_range); ret (negb (n =? 2)%nat));
  if wrong : bool
  then name ← get_field i "name";
       raise (ValueError "the item of the scope value of {} must be 2" [name])
  else
    dtype ← get_field i "dtype";
    ref_value ←
      (if py_eq dtype (VStr "int") then
         except_value_error
           (v ← coerce_bounds i conv_int r_range; ret (Some v))
           (name ← get_field i "name";
            raise (ValueError "the ref value of {} is not an integer value" [name]))
       else if py_eq dtype (VStr "float") then
         except_value_error
           (v ← coerce_bounds i conv_float r_range; ret (Some v))
           (name ← get_field i "name";
            raise (ValueError "the ref value of {} is not an integer value" [name]))
       else ret ref_value);
    rv ← match ref_value with
         | Some v => ret v
         | None => raise (UnboundLocalError "ref_value")
         end;
    r_range ← get_field i "range";
    low ← lift (py_getitem r_range 0);
    below ← lift (py_lt rv low);
    outside ← (if below : bool then ret true
               else high ← lift (py_getitem r_range 1); lift (py_gt rv high));
    if outside : bool
    then name ← get_field i "name";
         raise (ValueError "the ref value of {} is out of range" [name])
    else
      ref_append rv;;
      low ← lift (py_getitem r_range 0);
      high ← lift (py_getitem r_range 1);
      ret (DInterval low high, Some rv).

(** One round of [for p_nob in self.knobs]; the loop's locals are
    [objective_params_list] and [ref_value]. *)
Definition build_knob (locals : list dimension * option value) (i : nat)
  : M (list dimension * option value) :=
  let '(objective_params_list, ref_value) := locals in
  type ← get_field i "type";
  if py_eq type (VStr "discrete") then
    items ← handle_discrete_data i;
    ret (objective_params_list ++ [DItems items], ref_value)
  else if py_eq type (VStr "continuous") then
    '(dim, ref_value) ← continuous_dimension i ref_value;
    ret (objective_params_list ++ [dim], ref_value)
  else
    name ← get_field i "name";
    raise (ValueError "the type of {} is not supported" [name]).

Definition build_space : M (list dimension) :=
  w ← get_world;
  '(objective_params_list, _) ← for_each (seq 0 (length (knobs w))) build_knob ([], None);
  ret objective_params_list.

(** ** Construction

    [__init__] stores its arguments; [max_eval] goes through [int],
    [n_random_starts] defaults to 20, [split_count] is the constant 5
    and [ref] starts empty.  The attributes that no method writes are
    kept apart from the [world]. *)

Record settings : Type := Settings {
  engine : string;                      (* self.engine *)
  max_eval : Z;                         (* self.max_eval *)
  split_count : Z;                      (* self.split_count *)
  x0 : option (list (list string));     (* self.x0: per trial, its name=value tokens *)
  y0 : option (list value)              (* self.y0 *)
}.

Definition init_world (params : list knob) (n_random_starts : option Z) : world :=
  World params [] (default 20 n_random_starts) [] [] [] [].

Definition init_settings (engine : string) (max_eval : Z)
    (x0 : option (list (list string))) (y0 : option (list value)) : settings :=
  Settings engine max_eval 5 x0 y0.

(** ** [Optimizer._get_intvalue_from_knobs] *)

(** [name in kv.keys()] and [kv[name]] for a dict with [str] keys: a key
    of another type is never found, an unhashable one is refused. *)
Definition kv_lookup (kv : gmap string string) (name : value) : result (option string) :=
  match name with
  | VStr s => Ok (kv !! s)
  | VList _ => Raise TypeError
  | _ => Ok None
  end.

(** One round of [for p_nob in self.knobs], with [x_each] as the local. *)
Definition intvalue_of_knob (kv : gmap string string) (x_each : list value) (i : nat)
  : M (list value) :=
  name ← get_field i "name";
  found ← lift (kv_lookup kv name);
  match found with
  | None => raise (ValueError "the param {} is not in the x0 ref" [name])
  | Some text =>
      dtype ← get_field i "dtype";
      if negb (py_eq dtype (VStr "string")) then
        z ← lift (py_int (VStr text));
        ret (x_each ++ [VInt z])
      else
        options ← get_field i "options";
        elements ← lift (py_iter options);
        for_each (enumerate elements)
          (fun x_each '(key, value) =>
             if negb (py_eq value (VStr text)) then ret x_each
             else ret (x_each ++ [VInt (Z.of_nat key)]))
          x_each
  end.

Definition _get_intvalue_from_knobs (kv : gmap string string) : M (list value) :=
  w ← get_world;
  for_each (seq 0 (length (knobs w))) (intvalue_of_knob kv) [].

(** ** [Optimizer.transfer] *)

(** The loop [for i, val in enumerate(xValue)] filling [kv]. *)
Definition read_token (kv : gmap string string) (val : string) : M (gmap string string) :=
  match split val "=" with
  | [name; text] => ret (<[name := text]> kv)
  | parts => raise (ValueError "the param format of {} is not correct"
                      [VList (map VStr parts)])
  end.

(** One round of [for xValue in self.x0], with [list_ref_x] as the local. *)
Definition transfer_entry (list_ref_x : list (list value)) (xValue : list string)
  : M (list (list value)) :=
  w ← get_world;
  if negb (length xValue =? length (knobs w))%nat
  then raise (ValueError "x0 is not the same length with knobs" [])
  else
    kv ← for_each xValue read_token ∅;
    ref_x ← _get_intvalue_from_knobs kv;
    if negb (length ref_x =? length (knobs w))%nat
    then raise (ValueError "tuning parameter is not the same length with knobs" [])
    else ret (list_ref_x ++ [ref_x]).

(** [[float(y) for y in self.y0]] *)
Fixpoint floats_of (ys : list value) : result (list pyfloat) :=
  match ys with
  | [] => Ok []
  | y :: ys' =>
      rbind (py_float y) (fun f => rbind (floats_of ys') (fun fs => Ok (f :: fs)))
  end.

Definition transfer (cfg : settings) : M (list (list value) * list pyfloat) :=
  match x0 cfg, y0 cfg with
  | Some xs, Some ys =>
      list_ref_x ← for_each xs transfer_entry [];
      list_ref_y ← lift (floats_of ys);
      ret (list_ref_x, list_ref_y)
  | _, _ => ret ([], [])
  end.

(** ** Collaborators

    The search engines, the benchmarking harness and the feature selector
    are outside the repository.  An engine is given by what it does with
    the objective: evaluate a vector and go on from the cost it gets
    back, or stop with its best vector [ret.x], or raise.  It lets an
    exception of the objective through.  A collaborator that talks to the
    channel itself is given by what it sends and what it does with the
    replies.  The harness answers every request; its reply may depend on
    everything exchanged so far. *)

Inductive engine_script : Type :=
| Evaluate (var : list value) (next : pyfloat -> engine_script)
| Finish (x : list value)
| Abort (e : exn).

Inductive channel_script (R : Type) : Type :=
| Sends (m : message) (next : channel_script R)
| Receives (next : string -> channel_script R)
| Returns (r : R)
| Fails (e : exn).
Arguments Sends {R} m next.
Arguments Receives {R} next.
Arguments Returns {R} r.
Arguments Fails {R} e.

Record collaborators : Type := Collaborators {
  harness : list event -> string;
  dummy_minimize : list dimension -> Z -> engine_script;
  gp_minimize : list dimension -> Z -> Z -> list value -> option (list pyfloat)
                -> engine_script;
  (* ABtestTuningManager(knobs, child_conn, split_count) *)
  do_abtest_tuning_abtest : list knob -> Z
                            -> channel_script (list (list value) * list pyfloat);
  abtest_get_best_params : list event -> result pydict;
  get_options_index : list knob -> list (list value) -> result (list (list value));
  (* KnobSamplingManager(knobs, child_conn, max_eval, split_count) *)
  get_knob_samples : list knob -> Z -> Z -> result (list (list value));
  do_knob_sampling_test : list knob -> Z -> Z -> list (list value)
                          -> channel_script (list pyfloat);
  lhs_get_best_params : list knob -> list (list value) -> list pyfloat -> result pydict;
  (* TPEOptimizer(knobs, child_conn, max_eval) *)
  tpe_minimize_tuning : list knob -> Z -> channel_script pydict;
  (* WeightedEnsembleFeatureSelector() *)
  get_ensemble_feature_importance : list (list value) -> list pyfloat -> list value
                                    -> result string
}.

(** ** The channel *)

Definition send (m : message) : M unit := log (Send m).

Definition recv (env : collaborators) : M string :=
  w ← get_world;
  let reply := harness env (trace w) in
  log (Recv reply);;
  ret reply.

Fixpoint run_channel {R : Type} (env : collaborators) (s : channel_script R) : M R :=
  match s with
  | Sends m next => send m;; run_channel env next
  | Receives next => reply ← recv env; run_channel env (next reply)
  | Returns r => ret r
  | Fails e => raise e
  end.

(** ** [objective], the closure inside [run] *)

Definition set_params (p : pydict) : M unit :=
  fun w =>
    (Ok tt,
     World (knobs w) (ref w) (n_random_starts w) p (options w) (performance w) (trace w)).

Definition set_options (o : list (list value)) : M unit :=
  fun w =>
    (Ok tt,
     World (knobs w) (ref w) (n_random_starts w) (params w) o (performance w) (trace w)).

Definition set_performance (p : list pyfloat) : M unit :=
  fun w =>
    (Ok tt,
     World (knobs w) (ref w) (n_random_starts w) (params w) (options w) p (trace w)).

Definition set_n_random_starts (n : Z) : M unit :=
  fun w =>
    (Ok tt,
     World (knobs w) (ref w) n (params w) (options w) (performance w) (trace w)).

(** [c[idx]] with an index computed at run time: integers only, negative
    ones counted from the end. *)
Definition py_index (c idx : value) : result value :=
  match idx with
  | VInt z =>
      rbind (py_iter c) (fun l =>
        let n := Z.of_nat (length l) in
        let k := if z <? 0 then z + n else z in
        if (0 <=? k) && (k <? n)
        then match l !! Z.to_nat k with
             | Some x => Ok x
             | None => Raise IndexError
             end
        else Raise IndexError)
  | _ => Raise TypeError
  end.

(** [vec[i]] for the vector an engine hands over. *)
Definition component (vec : list value) (i : nat) : M value :=
  match vec !! i with
  | Some x => ret x
  | None => raise IndexError
  end.

(** The statement
[[
  if knob['dtype'] == 'string': params[knob['name']] = knob['options'][<vec>[i]]
  else:                         params[knob['name']] = <vec>[i]
]]
    of [objective] and of the end of [run]; [vec_i] evaluates [<vec>[i]]. *)
Definition assign_param (i : nat) (vec_i : M value) : M unit :=
  dtype ← get_field i "dtype";
  v ← (if py_eq dtype (VStr "string")
       then options ← get_field i "options";
            idx ← vec_i;
            lift (py_index options idx)
       else vec_i);
  name ← get_field i "name";
  if hashable name
  then w ← get_world; set_params (dict_set (params w) name v)
  else raise TypeError.

(** [for value in eval_list: num = float(value); x_num = x_num + num] *)
Fixpoint sum_measurements (eval_list : list string) (x_num : pyfloat) : result pyfloat :=
  match eval_list with
  | [] => Ok x_num
  | value :: rest =>
      rbind (py_float (VStr value)) (fun num => sum_measurements rest (f_add x_num num))
  end.

(** The first half of [objective]: name the vector's components, send
    the request, wait for the reply. *)
Definition exchange (env : collaborators) (var : list value) : M string :=
  w ← get_world;
  for_each (seq 0 (length (knobs w)))
    (fun _ i => assign_param i (component var i)) tt;;
  w ← get_world;
  send (MDict {[ "param" := FParams (params w) ]});;
  recv env.

Definition objective (env : collaborators) (var : list value) : M pyfloat :=
  result ← exchange env var;
  x_num ← lift (sum_measurements (split result ",") (FFin 0));
  w ← get_world;
  set_options (options w ++ [var]);;
  set_performance (performance w ++ [x_num]);;
  ret x_num.

Fixpoint run_engine (env : collaborators) (s : engine_script) : M (list value) :=
  match s with
  | Evaluate var next => cost ← objective env var; run_engine env (next cost)
  | Finish x => ret x
  | Abort e => raise e
  end.

(** ** [Optimizer.run] *)

(** From [params_space = self.build_space()] to the line that sets
    [self._n_random_starts]: the space, [ref_x] and [ref_y]. *)
Definition prepare (cfg : settings)
  : M (list dimension * list value * option (list pyfloat)) :=
  params_space ← build_space;
  '(ref_x, ref_y) ← transfer cfg;
  w ← get_world;
  let '(ref_x, ref_y) :=
    if (length ref_x =? 0)%nat then (ref w, None)
    else (map VList ref_x, Some ref_y) in
  first ← lift (py_getitem (VList ref_x) 0);
  let ref_x := match first with VList _ => ref_x | _ => [VList ref_x] end in
  first ← lift (py_getitem (VList ref_x) 0);
  match first with
  | VList _ =>
      set_n_random_starts
        (if n_random_starts w <=? Z.of_nat (length ref_x) then 0
         else n_random_starts w - Z.of_nat (length ref_x) + 1)
  | _ => ret tt
  end;;
  ret (params_space, ref_x, ref_y).

(** How the [try] block ends when nothing is raised: it falls through to
    the code after it, with [ret] assigned or not, or it returns from
    [run] in the [tpe] branch. *)
Inductive searched : Type :=
| FellThrough (ret_x : option (list value))
| ReturnedEarly (best_params : pydict).

Definition dispatch (env : collaborators) (cfg : settings)
    (params_space : list dimension) (ref_x : list value) (ref_y : option (list pyfloat))
  : M searched :=
  w ← get_world;
  if String.eqb (engine cfg) "random" then
    log (CallDummyMinimize params_space (max_eval cfg));;
    x ← run_engine env (dummy_minimize env params_space (max_eval cfg));
    ret (FellThrough (Some x))
  else if String.eqb (engine cfg) "bayes" then
    log (CallGpMinimize params_space (max_eval cfg) (n_random_starts w) ref_x ref_y);;
    x ← run_engine env
          (gp_minimize env params_space (max_eval cfg) (n_random_starts w) ref_x ref_y);
    ret (FellThrough (Some x))
  else if String.eqb (engine cfg) "abtest" then
    log (CallABTest (split_count cfg));;
    '(opts, perf) ← run_channel env
                      (do_abtest_tuning_abtest env (knobs w) (split_count cfg));
    set_options opts;;
    set_performance perf;;
    w1 ← get_world;
    best ← lift (abtest_get_best_params env (trace w1));
    set_params best;;
    opts ← lift (get_options_index env (knobs w) opts);
    set_options opts;;
    ret (FellThrough None)
  else if String.eqb (engine cfg) "lhs" then
    log (CallLHS (max_eval cfg) (split_count cfg));;
    opts ← lift (get_knob_samples env (knobs w) (max_eval cfg) (split_count cfg));
    set_options opts;;
    perf ← run_channel env
             (do_knob_sampling_test env (knobs w) (max_eval cfg) (split_count cfg) opts);
    set_performance perf;;
    best ← lift (lhs_get_best_params env (knobs w) opts perf);
    set_params best;;
    ret (FellThrough None)
  else if String.eqb (engine cfg) "tpe" then
    log (CallTPE (max_eval cfg));;
    best_params ← run_channel env (tpe_minimize_tuning env (knobs w) (max_eval cfg));
    send (MDict (<["param" := FParams best_params]> {[ "finished" := FBool true ]}));;
    ret (ReturnedEarly best_params)
  else ret (FellThrough None).

(** The body of the [try]. *)
Definition search (env : collaborators) (cfg : settings) : M searched :=
  '(params_space, ref_x, ref_y) ← prepare cfg;
  dispatch env cfg params_space ref_x ref_y.

(** The three [except] clauses. *)
Definition handle (e : exn) : M (option pydict) :=
  match e with
  | ValueError _ _ | RuntimeError _ => send (MExn e);; ret None
  | _ => send (MUnexpected e);; ret None
  end.

(** [ret.x[i]]; reading [ret] fails when no branch assigned it. *)
Definition ret_x_component (ret_x : option (list value)) (i : nat) : M value :=
  match ret_x with
  | Some x => component x i
  | None => raise (UnboundLocalError "ret")
  end.

(** The code after the [try]: name the best vector, rank, report. *)
Definition report (env : collaborators) (ret_x : option (list value)) : M (option pydict) :=
  w ← get_world;
  labels ← for_each (seq 0 (length (knobs w)))
    (fun labels i =>
       assign_param i (ret_x_component ret_x i);;
       name ← get_field i "name";
       ret (labels ++ [name]))
    [];
  w ← get_world;
  log (CallRank (options w) (performance w) labels);;
  rank ← lift (get_ensemble_feature_importance env (options w) (performance w) labels);
  send (MDict (<["param" := FParams (params w)]>
               (<["rank" := FRank rank]> {[ "finished" := FBool true ]})));;
  ret (Some (params w)).

(** [run]: [Ok (Some params)] when it returns the parameters, [Ok None]
    when an [except] clause returns [None], [Raise e] when [e] leaves the
    method. *)
Definition run (env : collaborators) (cfg : settings) : M (option pydict) :=
  fun w =>
    match search env cfg w with
    | (Ok (ReturnedEarly best_params), w') => (Ok (Some best_params), w')
    | (Ok (FellThrough ret_x), w') => report env ret_x w'
    | (Raise e, w') => handle e w'
    end.

(** ** [Optimizer.feature_importance]

    The scaler and the Lasso regression are collaborators: [fit] stands
    for [StandardScaler().fit_transform] followed by [Lasso().fit] and
    gives the fitted [coef_].  A coefficient is a finite float, read as a
    rational, or the negative zero that the soft threshold of the
    regression leaves behind: [-0.0] equals [0.0] and prints with its
    sign.  Labels are strings. *)

Inductive coefficient : Type :=
| Finite (q : Q)
| NegativeZero.

Definition value_of (c : coefficient) : Q :=
  match c with
  | Finite q => q
  | NegativeZero => 0%Q
  end.

(** [abs(c)], [np.abs(c)] *)
Definition magnitude (c : coefficient) : Q := Qabs (value_of c).

(** The sign bit of the float; multiplying by 100, dividing by a positive
    total and rounding all keep it. *)
Definition sign_bit (c : coefficient) : bool :=
  match c with
  | Finite q => is_negative q
  | NegativeZero => true
  end.

(** [sum(map(abs, coef))], over the values of the coefficients. *)
Definition total_sum (coef : list Q) : Q :=
  fold_left (fun acc c => acc + Qabs c)%Q coef 0%Q.

(** Rounding to the nearest integer, ties to the even one. *)
Definition round_half_even (x : Q) : Z :=
  let f := Qfloor x in
  match Qcompare (x - inject_Z f) (1 # 2) with
  | Lt => f
  | Gt => f + 1
  | Eq => if Z.even f then f else f + 1
  end.

(** [round(x, 2)], as a number of hundredths. *)
Definition round2 (x : Q) : Z := round_half_even (x * 100).

(** [round(coef * 100 / total_sum, 2)], in hundredths. *)
Definition percentage (total coef : Q) : Z := round2 (coef * 100 / total).

(** [sorted(result, key=lambda x: -np.abs(x[0]))]: a stable sort, so an
    entry goes behind the entries of larger or equal magnitude that came
    before it. *)
Fixpoint insert_ranked (x : coefficient * string) (l : list (coefficient * string))
  : list (coefficient * string) :=
  match l with
  | [] => [x]
  | y :: l' =>
      if Qle_bool (magnitude (fst y)) (magnitude (fst x)) then x :: y :: l'
      else y :: insert_ranked x l'
  end.

Definition sorted_by_magnitude (result : list (coefficient * string))
  : list (coefficient * string) :=
  fold_right insert_ranked [] result.

(** [str] of a float that is a number [k] of hundredths and has the sign
    bit [negative]: the sign, at least one decimal, no trailing zero
    beyond it.  A negative number that rounds to zero prints as
    [-0.0]. *)
Definition show_hundredths (negative : bool) (k : Z) : string :=
  let a := Z.abs k in
  let whole := pretty (Z.to_N (a / 100)) in
  let tenths := pretty (Z.to_N ((a mod 100) / 10)) in
  let sign := if negative then "-" else "" in
  let hundredths := if a mod 10 =? 0 then "" else pretty (Z.to_N (a mod 10)) in
  sign +:+ whole +:+ "." +:+ tenths +:+ hundredths.

(** What is reported for one entry of the ranking: the label, the sign
    bit and the hundredths of the rounded percentage. *)
Definition reported (total : Q) (entry : coefficient * string) : string * (bool * Z) :=
  (snd entry, (sign_bit (fst entry), percentage total (value_of (fst entry)))).

(** What the non-zero branch reports, before it is laid out as text:
    the labels in rank order, each with its rounded percentage. *)
Definition ranked_percentages (coef : list coefficient) (labels : list string)
  : list (string * (bool * Z)) :=
  map (reported (total_sum (map value_of coef))) (sorted_by_magnitude (zip coef labels)).

Definition rank_text (coef : list coefficient) (labels : list string) : string :=
  if Qeq_bool (total_sum (map value_of coef)) 0
  then String.concat ", " (map (fun label => label +:+ ": 0") labels)
  else String.concat ", "
         (map (fun '(label, (negative, pct)) =>
                 label +:+ ": " +:+ show_hundredths negative pct +:+ "%")
              (ranked_percentages coef labels)).

Definition feature_importance
    (fit : list (list value) -> list pyfloat -> list coefficient)
    (options : list (list value)) (performance : list pyfloat) (labels : list string)
  : string :=
  rank_text (fit options performance) labels.

(** ** Relations the properties are stated with *)

(** The knob list has the same length and every descriptor holds the same
    value under every key but ["range"] and ["items"]. *)
Definition same_descriptors (w w' : world) : Prop :=
  length (knobs w') = length (knobs w) /\
  forall (i : nat) (key : string),
    key <> "range" -> key <> "items" ->
    (knobs w' !! i) ≫= (fun p => p !! key) = (knobs w !! i) ≫= (fun p => p !! key).

(** The history grew by events that all satisfy [P]. *)
Definition only (P : event -> Prop) (w w' : world) : Prop :=
  exists t : list event, trace w' = trace w ++ t /\ Forall P t.

Definition is_rank_call (e : event) : bool :=
  match e with CallRank _ _ _ => true | _ => false end.

(** An event of the search itself: a call to an engine, a request
    [{"param": ...}] or a reply; not an error, not a final result. *)
Definition is_search_event (e : event) : bool :=
  match e with
  | Send (MDict d) => bool_decide (d !! "finished" = None)
  | Send _ => false
  | CallRank _ _ _ => false
  | _ => true
  end.

(** A reply one of whose comma-separated parts [float] refuses. *)
Definition malformed (reply : string) : Prop :=
  exists part : string, In part (split reply ",") /\ float_of_string part = None.

(** An engine that, run from [w], gets to evaluate [var] in the world
    [w'], every evaluation before having gone through. *)
Inductive reaches (env : collaborators)
  : engine_script -> world -> list value -> world -> Prop :=
| reaches_now (var : list value) (next : pyfloat -> engine_script) (w : world) :
    reaches env (Evaluate var next) w var w
| reaches_later (var : list value) (next : pyfloat -> engine_script) (w : world)
    (cost : pyfloat) (w1 : world) (var' : list value) (w' : world) :
    objective env var w = (Ok cost, w1) ->
    reaches env (next cost) w1 var' w' ->
    reaches env (Evaluate var next) w var' w'.

(** [w] with [self.ref] replaced. *)
Definition with_ref (w : world) (r : list value) : world :=
  World (knobs w) r (n_random_starts w) (params w) (options w) (performance w) (trace w).

(** The positions of [elements] whose element passes [test], in order. *)
Definition positions (test : value -> bool) (elements : list value) : list nat :=
  map fst (List.filter (fun kv => test (snd kv)) (enumerate elements)).

Definition index_values (ks : list nat) : list value :=
  map (fun k => VInt (Z.of_nat k)) ks.

(** ** Warm start, in the specification's words

    An entry of [x0] is a list of [name=value] tokens, one per knob; each
    token splits into exactly two parts; every knob name appears exactly
    once; a value of a numeric knob is parsed, a value of a string knob
    resolves to the index of the matching option.  The vector lists the
    encodings in knob order. *)

Definition token_pair (token : string) : option (string * string) :=
  match split token "=" with
  | [name; text] => Some (name, text)
  | _ => None
  end.

(** The value given for [name], when [name] appears exactly once. *)
Definition value_for (pairs : list (string * string)) (name : string) : option string :=
  match List.filter (fun nv => String.eqb (fst nv) name) pairs with
  | [(_, text)] => Some text
  | _ => None
  end.

(** The positional encoding of [text] for the knob [p]; the numeric
    parse is the integer one, which is what the code offers. *)
Definition encode_value (p : knob) (text : string) : option value :=
  dtype ← p !! "dtype";
  if py_eq dtype (VStr "string") then
    opts ← p !! "options";
    match py_iter opts with
    | Ok elements =>
        match positions (fun v => py_eq v (VStr text)) elements with
        | [k] => Some (VInt (Z.of_nat k))
        | _ => None
        end
    | Raise _ => None
    end
  else z ← int_of_string text; Some (VInt z).

Definition encode_knob (pairs : list (string * string)) (p : knob) : option value :=
  match p !! "name" with
  | Some (VStr name) => text ← value_for pairs name; encode_value p text
  | _ => None
  end.

Definition warm_start_vector (ks : list knob) (entry : list string) : option (list value) :=
  if (length entry =? length ks)%nat then
    pairs ← mapM token_pair entry;
    mapM (encode_knob pairs) ks
  else None.

(** [kv[name] = text] *)
Definition insert_pair (kv : gmap string string) (nv : string * string)
  : gmap string string := <[fst nv := snd nv]> kv.

(** ** Ranking, in the specification's words *)

Definition Qsum (l : list Q) : Q := fold_right Qplus 0%Q l.

(** [a] ranks before [b]: its coefficient is at least as large in
    magnitude. *)
Definition by_magnitude (a b : coefficient * string) : Prop :=
  (magnitude (fst b) <= magnitude (fst a))%Q.

(** [a] is reported before [b]: its rounded percentage is at least as
    large in magnitude. *)
Definition by_reported_magnitude (a b : string * (bool * Z)) : Prop :=
  Z.abs (snd (snd b)) <= Z.abs (snd (snd a)).

(** ** Sample declarations *)

Definition knob_of (fields : list (string * value)) : knob := list_to_map fields.

(** One continuous int knob [x] over [0, 10] with reference 5. *)
Definition sample_x : knob :=
  knob_of [("name", VStr "x"); ("type", VStr "continuous"); ("dtype", VStr "int");
           ("range", VList [VInt 0; VInt 10]); ("ref", VStr "5")].

(** The same knob with its bounds given as text. *)
Definition sample_x_text : knob :=
  knob_of [("name", VStr "x"); ("type", VStr "continuous"); ("dtype", VStr "int");
           ("range", VList [VStr "0"; VStr "10"]); ("ref", VStr "5")].

(** One string knob [mode] with options a, b, c and reference b. *)
Definition sample_mode : knob :=
  knob_of [("name", VStr "mode"); ("type", VStr "discrete"); ("dtype", VStr "string");
           ("options", VList [VStr "a"; VStr "b"; VStr "c"]); ("ref", VStr "b")].

(** A string knob whose options repeat the reference. *)
Definition sample_repeated : knob :=
  knob_of [("name", VStr "mode"); ("type", VStr "discrete"); ("dtype", VStr "string");
           ("options", VList [VStr "a"; VStr "a"]); ("ref", VStr "a")].

(** A continuous knob declared with dtype [string]. *)
Definition sample_untyped : knob :=
  knob_of [("name", VStr "y"); ("type", VStr "continuous"); ("dtype", VStr "string");
           ("range", VList [VInt 0; VInt 10]); ("ref", VStr "7")].

(** A continuous float knob [ratio] over [0, 1]. *)
Definition sample_ratio : knob :=
  knob_of [("name", VStr "ratio"); ("type", VStr "continuous"); ("dtype", VStr "float");
           ("range", VList [VInt 0; VInt 1]); ("ref", VStr "0.25")].

(** Collaborators for the samples: the harness always answers [reply],
    the two minimizers evaluate [var] once and keep it, the delegating
    engines return at once. *)
Definition sample_env (reply : string) (var : list value) : collaborators :=
  Collaborators
    (fun _ => reply)
    (fun _ _ => Evaluate var (fun _ => Finish var))
    (fun _ _ _ _ _ => Evaluate var (fun _ => Finish var))
    (fun _ _ => Returns ([], []))
    (fun _ => Ok [])
    (fun _ opts => Ok opts)
    (fun _ _ _ => Ok [])
    (fun _ _ _ _ => Returns [])
    (fun _ _ _ => Ok [])
    (fun _ _ => Returns [(VStr "x", VInt 1)])
    (fun _ _ _ => Ok "x: 100.0%").

(** A [bayes] run over [sample_x] warm-started with one trial. *)
Definition sample_warm : settings :=
  init_settings "bayes" 3 (Some [["x=5"]]) (Some [VFloat (FFin (123 # 100))]).

(** A [random] run with no warm start. *)
Definition sample_random : settings := init_settings "random" 3 None None.

(** Two knobs warm-started with one trial, its tokens not in knob order. *)
Definition sample_two : settings :=
  init_settings "bayes" 3 (Some [["mode=c"; "x=7"]]) (Some [VStr "1.5"]).

(** How many entries [build_space] appends to [self.ref] for the knob
    [p] when it accepts it: one, except for a discrete knob of dtype
    [string], which gets one per option equal to its [ref]. *)
Definition reference_entries (p : knob) : nat :=
  match p !! "type", p !! "dtype", p !! "options", p !! "ref" with
  | Some type, Some dtype, Some opts, Some r =>
      if py_eq type (VStr "discrete") && py_eq dtype (VStr "string")
      then match py_iter opts with
           | Ok elements => length (positions (py_eq r) elements)
           | Raise _ => 1%nat
           end
      else 1%nat
  | _, _, _, _ => 1%nat
  end.

(** A computation that, when it succeeds, has appended [k] entries to
    [self.ref]. *)
Definition adds (k : nat) {A : Type} (c : M A) : Prop :=
  forall (w : world) (a : A) (w' : world),
    c w = (Ok a, w') -> length (ref w') = (length (ref w) + k)%nat.

(** An [abtest] run over [sample_x]. *)
Definition sample_abtest : settings := init_settings "abtest" 3 None None.

(** ** Further notions for the properties of a whole run *)

(** What the [except] clauses of [run] send for the exception [e]. *)
Definition error_message (e : exn) : message :=
  match e with
  | ValueError _ _ | RuntimeError _ => MExn e
  | _ => MUnexpected e
  end.

Definition is_send (e : event) : bool :=
  match e with Send _ => true | _ => false end.

(** [isinstance(v, (int, float))] *)
Definition is_number (v : value) : bool :=
  match v with VInt _ | VFloat _ => true | _ => false end.

(** The world with [params], [options] and [performance] left out: what
    [objective] cannot touch. *)
Definition frozen (w w' : world) : Prop :=
  knobs w' = knobs w /\ ref w' = ref w /\ n_random_starts w' = n_random_starts w.

(** [self.ref] grew, by numbers only. *)
Definition appends_numbers (w w' : world) : Prop :=
  exists t : list value, ref w' = ref w ++ t /\ Forall (fun v => is_number v = true) t.

(** The local [ref_value] of [build_space] is unassigned or a number. *)
Definition number_or_unset (rv : option value) : Prop :=
  forall v, rv = Some v -> is_number v = true.

(** A declaration [build_space] refuses on its shape alone, before any
    value is converted: no [type] or one that is neither [discrete] nor
    [continuous]; a discrete knob with no [dtype] or one other than
    [int], [float] and [string]; a continuous knob with no [range], with
    [None] for it, or with a range that has no length or a length other
    than 2. *)
Definition unacceptable (p : knob) : bool :=
  match p !! "type" with
  | None => true
  | Some type =>
      if py_eq type (VStr "discrete") then
        match p !! "dtype" with
        | None => true
        | Some dtype =>
            negb (py_eq dtype (VStr "int") || py_eq dtype (VStr "float")
                  || py_eq dtype (VStr "string"))
        end
      else if py_eq type (VStr "continuous") then
        match p !! "range" with
        | None => true
        | Some r_range =>
            is_none r_range ||
            match py_len r_range with
            | Ok n => negb (n =? 2)%nat
            | Raise _ => true
            end
        end
      else true
  end.

(** The step [handle_discrete_data] walks an integer range with: the
    declared one, or 1 when none is declared or the declared one is
    below 1. *)
Definition stride (step : option Z) : Z :=
  match step with
  | Some s => if s <? 1 then 1 else s
  | None => 1
  end.

(** A discrete int knob over 1 .. 9 in steps of 4, with a reference off
    the grid. *)
Definition sample_stepped : knob :=
  knob_of [("name", VStr "n"); ("type", VStr "discrete"); ("dtype", VStr "int");
           ("items", VNone); ("range", VList [VInt 1; VInt 9]); ("step", VInt 4);
           ("ref", VStr "6")].

(** A continuous knob with three bounds. *)
Definition sample_three_bounds : knob :=
  knob_of [("name", VStr "z"); ("type", VStr "continuous"); ("dtype", VStr "int");
           ("range", VList [VInt 0; VInt 5; VInt 10]); ("ref", VStr "5")].

(** A warm start whose only token has no [=]. *)
Definition sample_no_equals : settings :=
  init_settings "bayes" 3 (Some [["x5"]]) (Some [VInt 1]).

(** A continuous float knob whose reference is no number. *)
Definition sample_ratio_text : knob :=
  knob_of [("name", VStr "ratio"); ("type", VStr "continuous"); ("dtype", VStr "float");
           ("range", VList [VInt 0; VInt 1]); ("ref", VStr "half")].

(** The knob descriptors and [self.ref] are the same. *)
Definition same_space (w w' : world) : Prop :=
  knobs w' = knobs w /\ ref w' = ref w.

(** Everything but [params] is the same. *)
Definition same_but_params (w w' : world) : Prop :=
  frozen w w' /\ options w' = options w /\ performance w' = performance w /\
  trace w' = trace w.

(** The events of a sequence of trials: per trial the request with its
    parameters and the reply to it. *)
Definition exchanges (trials : list (pydict * string)) : list event :=
  flat_map (fun '(p, reply) => [Send (MDict {[ "param" := FParams p ]}); Recv reply]) trials.

(** [d[k]] read back: the value of the entry whose key equals [k]. *)
Fixpoint dict_get (d : pydict) (k : value) : option value :=
  match d with
  | [] => None
  | (k', v) :: d' => if py_eq k' k then Some v else dict_get d' k
  end.

(** The object [objective] and the end of [run] store under the name of
    the knob [p] for the component [v] of a vector: the option at index
    [v] for a knob of dtype [string], [v] itself otherwise. *)
Definition decode_value (p : knob) (v : value) : option value :=
  dtype ← p !! "dtype";
  if py_eq dtype (VStr "string") then
    opts ← p !! "options";
    match py_index opts v with
    | Ok x => Some x
    | Raise _ => None
    end
  else Some v.

(** ** What [build_space] writes into the declarations

    [build_space] reads the knobs through aliases: [r_range] is the list
    held by [p_nob['range']] and, unless it is [None], [items] is the
    list held by [p_nob['items']]. *)

(** The field [key] of [p] is the text [text]. *)
Definition field_is (p : knob) (key text : string) : Prop := p !! key = Some (VStr text).

(** What the two assignments [r_range[0] = conv(r_range[0])] and
    [r_range[1] = conv(r_range[1])] make of a range [r]: the first bound
    is converted, and the second one too unless its conversion fails. *)
Definition coerced (conv : value -> result value) (r r' : value) : Prop :=
  exists x0 x1 c0 : value,
    r = VList [x0; x1] /\ conv x0 = Ok c0 /\
    r' = VList [c0; match conv x1 with Ok c1 => c1 | Raise _ => x1 end].

(** The range of a continuous knob of dtype [int] or [float] after the
    conversion of its dtype was written into it. *)
Definition range_written (p p' : knob) : Prop :=
  field_is p "type" "continuous" /\
  exists (conv : value -> result value) (r r' : value),
    (field_is p "dtype" "int" /\ conv = conv_int \/
     field_is p "dtype" "float" /\ conv = conv_float) /\
    p !! "range" = Some r /\ p' !! "range" = Some r' /\ coerced conv r r'.

(** The item list of a discrete knob of dtype [int] or [float] after
    [items.extend] appended the numbers of its ranges to it: the items
    declared stay in front, in their order. *)
Definition items_written (p p' : knob) : Prop :=
  field_is p "type" "discrete" /\
  (field_is p "dtype" "int" \/ field_is p "dtype" "float") /\
  exists (l more : list value) (r : value),
    p !! "items" = Some (VList l) /\ p !! "range" = Some r /\ is_none r = false /\
    Forall (fun v => is_number v = true) more /\
    p' !! "items" = Some (VList (l ++ more)).

(** A declaration [p] and what [build_space] leaves of it. *)
Definition written_by_build (p p' : knob) : Prop :=
  (forall key : string, key <> "range" -> key <> "items" -> p' !! key = p !! key) /\
  (p' !! "range" = p !! "range" \/ range_written p p') /\
  (p' !! "items" = p !! "items" \/ items_written p p').

(** What [candidate_items] leaves of the knob it works on. *)
Definition items_grown (p p' : knob) : Prop :=
  p' = p \/
  exists (l more : list value) (r : value),
    p !! "items" = Some (VList l) /\ p !! "range" = Some r /\ is_none r = false /\
    Forall (fun v => is_number v = true) more /\
    p' = <["items" := VList (l ++ more)]> p.

(** The knob [x] with a second bound that is no number. *)
Definition sample_x_half : knob :=
  knob_of [("name", VStr "x"); ("type", VStr "continuous"); ("dtype", VStr "int");
           ("range", VList [VStr "0"; VStr "ten"]); ("ref", VStr "5")].

(** A discrete int knob declared by an item list and a range. *)
Definition sample_listed : knob :=
  knob_of [("name", VStr "n"); ("type", VStr "discrete"); ("dtype", VStr "int");
           ("items", VList [VInt 1]); ("range", VList [VInt 2; VInt 3]); ("ref", VStr "1")].

(** Collaborators whose managers run one trial over the channel before
    they hand over what they found. *)
Definition sample_managers : collaborators :=
  Collaborators
    (fun _ => "1.5")
    (fun _ _ => Finish [VInt 3])
    (fun _ _ _ _ _ => Finish [VInt 3])
    (fun _ _ => Sends (MDict {[ "param" := FParams [(VStr "x", VInt 3)] ]})
                  (Receives (fun _ => Returns ([[VInt 3]], [FFin (3 # 2)]))))
    (fun _ => Ok [(VStr "x", VInt 3)])
    (fun _ opts => Ok opts)
    (fun _ _ _ => Ok [[VInt 3]])
    (fun _ _ _ _ => Sends (MDict {[ "param" := FParams [(VStr "x", VInt 3)] ]})
                      (Receives (fun _ => Returns [FFin (3 # 2)])))
    (fun _ _ _ => Ok [(VStr "x", VInt 3)])
    (fun _ _ => Returns [(VStr "x", VInt 3)])
    (fun _ _ _ => Ok "x: 100.0%").

(** An [lhs] run over [sample_x]. *)
Definition sample_lhs : settings := init_settings "lhs" 3 None None.

(** * Properties *)

(** ** Reasoning about the monad *)

Lemma bind_unfold {A B : Type} (c : M A) (f : A -> M B) (w : world) :
  (c ≫= f) w =
  match c w with
  | (Ok a, w') => f a w'
  | (Raise e, w') => (Raise e, w')
  end.
Proof. reflexivity. Qed.

(** A relation between the world before and the world after that every
    step of a computation keeps. *)
Section Steps.

Variable R : world -> world -> Prop.
Hypothesis R_refl : forall w, R w w.
Hypothesis R_trans : forall w1 w2 w3, R w1 w2 -> R w2 w3 -> R w1 w3.

Definition steps {A : Type} (c : M A) : Prop := forall w, R w (snd (c w)).

Lemma steps_ret {A : Type} (a : A) : steps (mret a).
Proof. intros w. apply R_refl. Qed.

Lemma steps_ret' {A : Type} (a : A) : steps (ret a).
Proof. intros w. apply R_refl. Qed.

Lemma steps_raise {A : Type} (e : exn) : steps (@raise A e).
Proof. intros w. apply R_refl. Qed.

Lemma steps_lift {A : Type} (r : result A) : steps (lift r).
Proof. intros w. apply R_refl. Qed.

Lemma steps_get_world : steps get_world.
Proof. intros w. apply R_refl. Qed.

Lemma steps_get_field i key : steps (get_field i key).
Proof.
  intros w. unfold get_field.
  destruct (knobs w !! i) as [p|]; [destruct (p !! key)|]; apply R_refl.
Qed.

Lemma steps_has_field i key : steps (has_field i key).
Proof. intros w. unfold has_field. destruct (knobs w !! i); apply R_refl. Qed.

Lemma steps_bind {A B : Type} (c : M A) (f : A -> M B) :
  steps c -> (forall a, steps (f a)) -> steps (c ≫= f).
Proof.
  intros Hc Hf w. rewrite bind_unfold.
  specialize (Hc w). destruct (c w) as [[a|e] w']; simpl in *.
  - eapply R_trans; [exact Hc | apply Hf].
  - exact Hc.
Qed.

Lemma steps_except {A : Type} (c handler : M A) :
  steps c -> steps handler -> steps (except_value_error c handler).
Proof.
  intros Hc Hh w. unfold except_value_error.
  specialize (Hc w). destruct (c w) as [[a|e] w']; simpl in *; [exact Hc|].
  destruct e; try exact Hc.
  eapply R_trans; [exact Hc | apply Hh].
Qed.

Lemma steps_for_each {A S : Type} (l : list A) (body : S -> A -> M S) :
  (forall s a, steps (body s a)) -> forall s, steps (for_each l body s).
Proof.
  intros Hb. induction l as [|a l IH]; intros s; simpl.
  - apply steps_ret'.
  - apply steps_bind; [apply Hb | intros; apply IH].
Qed.

End Steps.

(** Breaks a computation down along its binds and case distinctions;
    [refl] and [trans] are the proofs that the relation is a preorder,
    [prim] closes the steps that are particular to it. *)
Ltac steps_with refl trans prim :=
  repeat first
    [ prim
    | apply (steps_ret _ refl) | apply (steps_ret' _ refl)
    | apply (steps_raise _ refl) | apply (steps_lift _ refl)
    | apply (steps_get_world _ refl) | apply (steps_get_field _ refl)
    | apply (steps_has_field _ refl)
    | apply (steps_bind _ trans); [| intros ]
    | apply (steps_except _ trans)
    | apply (steps_for_each _ refl trans); intros
    | match goal with
      | |- steps _ (if ?b then _ else _) => destruct b
      | |- steps _ (match ?x with _ => _ end) => destruct x
      | |- steps _ (let '(_, _) := ?x in _) => destruct x
      end ].

(** ** The knob descriptors through a run *)

Lemma same_descriptors_refl w : same_descriptors w w.
Proof. split; reflexivity. Qed.

Lemma same_descriptors_trans w1 w2 w3 :
  same_descriptors w1 w2 -> same_descriptors w2 w3 -> same_descriptors w1 w3.
Proof.
  intros [Hl1 Hk1] [Hl2 Hk2]. split; [congruence|].
  intros i key Hr Hi. rewrite Hk2, Hk1; auto.
Qed.

Lemma same_descriptors_knobs w w' : knobs w' = knobs w -> same_descriptors w w'.
Proof. intros E. split; intros; rewrite E; reflexivity. Qed.

Lemma set_field_range_descriptors i v : steps same_descriptors (set_field i "range" v).
Proof.
  intros w. split; simpl; [apply length_alter|].
  intros j key Hr Hi. destruct (decide (i = j)) as [->|Hne].
  - rewrite list_lookup_alter_eq. destruct (knobs w !! j) as [p|]; simpl; [|reflexivity].
    apply lookup_insert_ne. congruence.
  - rewrite list_lookup_alter_ne; auto.
Qed.

Lemma set_field_items_descriptors i v : steps same_descriptors (set_field i "items" v).
Proof.
  intros w. split; simpl; [apply length_alter|].
  intros j key Hr Hi. destruct (decide (i = j)) as [->|Hne].
  - rewrite list_lookup_alter_eq. destruct (knobs w !! j) as [p|]; simpl; [|reflexivity].
    apply lookup_insert_ne. congruence.
  - rewrite list_lookup_alter_ne; auto.
Qed.

Create HintDb descriptors.
#[local] Hint Resolve set_field_range_descriptors set_field_items_descriptors : descriptors.

Ltac descriptors_prim :=
  first
    [ solve [ auto 1 with descriptors nocore ]
    | solve [ intros ?; apply same_descriptors_knobs; reflexivity ] ].

Ltac descriptors_tac :=
  steps_with same_descriptors_refl same_descriptors_trans descriptors_prim.

Lemma handle_discrete_data_descriptors i : steps same_descriptors (handle_discrete_data i).
Proof.
  unfold handle_discrete_data, handle_discrete_int, handle_discrete_float,
    handle_discrete_string, candidate_items, extend_from_pair.
  descriptors_tac.
Qed.
#[local] Hint Resolve handle_discrete_data_descriptors : descriptors.

Lemma build_space_descriptors : steps same_descriptors build_space.
Proof.
  unfold build_space, build_knob, continuous_dimension, coerce_bounds.
  descriptors_tac.
Qed.
#[local] Hint Resolve build_space_descriptors : descriptors.

Lemma transfer_knobs cfg w : knobs (snd (transfer cfg w)) = knobs w.
Proof.
  assert (Hr : forall w : world, knobs w = knobs w) by reflexivity.
  assert (Ht : forall w1 w2 w3 : world,
             knobs w2 = knobs w1 -> knobs w3 = knobs w2 -> knobs w3 = knobs w1)
    by (intros; congruence).
  revert w. change (steps (fun w w' => knobs w' = knobs w) (transfer cfg)).
  unfold transfer, transfer_entry, read_token, _get_intvalue_from_knobs, intvalue_of_knob.
  steps_with Hr Ht fail.
Qed.

Lemma transfer_descriptors cfg : steps same_descriptors (transfer cfg).
Proof. intros w. apply same_descriptors_knobs, transfer_knobs. Qed.
#[local] Hint Resolve transfer_descriptors : descriptors.

Lemma prepare_descriptors cfg : steps same_descriptors (prepare cfg).
Proof. unfold prepare. descriptors_tac. Qed.
#[local] Hint Resolve prepare_descriptors : descriptors.

Lemma assign_param_descriptors i c :
  steps same_descriptors c -> steps same_descriptors (assign_param i c).
Proof. intros Hc. unfold assign_param. descriptors_tac; exact Hc. Qed.

Lemma component_descriptors vec i : steps same_descriptors (component vec i).
Proof. unfold component. descriptors_tac. Qed.
#[local] Hint Resolve component_descriptors : descriptors.

Lemma objective_descriptors env var : steps same_descriptors (objective env var).
Proof.
  unfold objective, exchange, send, recv. descriptors_tac.
Qed.
#[local] Hint Resolve objective_descriptors : descriptors.

Lemma run_engine_descriptors env s : steps same_descriptors (run_engine env s).
Proof. induction s as [var next IH| |]; simpl; descriptors_tac. Qed.

Lemma run_channel_descriptors {R : Type} env (s : channel_script R) :
  steps same_descriptors (run_channel env s).
Proof.
  induction s as [m next IH|next IH| |]; simpl; unfold send, recv; descriptors_tac.
Qed.
#[local] Hint Resolve run_engine_descriptors run_channel_descriptors : descriptors.

Lemma dispatch_descriptors env cfg space ref_x ref_y :
  steps same_descriptors (dispatch env cfg space ref_x ref_y).
Proof. unfold dispatch, send. descriptors_tac. Qed.

Lemma report_descriptors env ret_x : steps same_descriptors (report env ret_x).
Proof.
  unfold report, send. descriptors_tac.
  all: unfold ret_x_component; descriptors_tac.
Qed.

Lemma handle_descriptors e : steps same_descriptors (handle e).
Proof. unfold handle, send. destruct e; descriptors_tac. Qed.
#[local] Hint Resolve dispatch_descriptors report_descriptors handle_descriptors : descriptors.

Lemma run_descriptors env cfg : steps same_descriptors (run env cfg).
Proof.
  intros w. unfold run.
  assert (Hs : same_descriptors w (snd (search env cfg w))).
  { revert w. change (steps same_descriptors (search env cfg)).
    unfold search. descriptors_tac. }
  destruct (search env cfg w) as [[[r|b]|e] w']; simpl in *.
  - eapply same_descriptors_trans; [exact Hs | apply report_descriptors].
  - exact Hs.
  - eapply same_descriptors_trans; [exact Hs | apply handle_descriptors].
Qed.

(** ** What a run adds to the history *)

Lemma only_refl (P : event -> Prop) w : only P w w.
Proof. exists []. split; [symmetry; apply app_nil_r | constructor]. Qed.

Lemma only_trans (P : event -> Prop) w1 w2 w3 :
  only P w1 w2 -> only P w2 w3 -> only P w1 w3.
Proof.
  intros [t1 [E1 F1]] [t2 [E2 F2]]. exists (t1 ++ t2). split.
  - rewrite E2, E1. symmetry. apply app_assoc.
  - apply Forall_app. split; assumption.
Qed.

Lemma only_same_trace (P : event -> Prop) w w' : trace w' = trace w -> only P w w'.
Proof. intros E. exists []. split; [rewrite E; symmetry; apply app_nil_r | constructor]. Qed.

Lemma only_log (P : event -> Prop) e : P e -> steps (only P) (log e).
Proof. intros He w. exists [e]. split; [reflexivity | repeat constructor; exact He]. Qed.

Lemma only_impl (P Q : event -> Prop) w w' :
  (forall e, P e -> Q e) -> only P w w' -> only Q w w'.
Proof.
  intros HPQ [t [E F]]. exists t. split; [exact E|].
  eapply Forall_impl; [exact F | exact HPQ].
Qed.

Lemma only_nothing w w' : only (fun _ => False) w w' -> trace w' = trace w.
Proof.
  intros [t [E F]]. destruct t as [|e t]; [rewrite E; apply app_nil_r|].
  inversion F; contradiction.
Qed.

Section Only.

Variable P : event -> Prop.

Create HintDb history.

Ltac history_prim :=
  first
    [ solve [ auto 1 with history nocore ]
    | solve [ intros ?; apply only_same_trace; reflexivity ] ].

Ltac history_tac := steps_with (only_refl P) (only_trans P) history_prim.

Lemma build_space_history : steps (only P) build_space.
Proof.
  unfold build_space, build_knob, continuous_dimension, coerce_bounds,
    handle_discrete_data, handle_discrete_int, handle_discrete_float,
    handle_discrete_string, candidate_items, extend_from_pair.
  history_tac.
Qed.

Lemma transfer_history cfg : steps (only P) (transfer cfg).
Proof.
  unfold transfer, transfer_entry, read_token, _get_intvalue_from_knobs, intvalue_of_knob.
  history_tac.
Qed.
#[local] Hint Resolve build_space_history transfer_history : history.

Lemma prepare_history cfg : steps (only P) (prepare cfg).
Proof. unfold prepare. history_tac. Qed.

Lemma component_history vec i : steps (only P) (component vec i).
Proof. unfold component. history_tac. Qed.
#[local] Hint Resolve component_history : history.

Hypothesis P_recv : forall reply, P (Recv reply).

Lemma recv_history env : steps (only P) (recv env).
Proof. unfold recv. history_tac. apply only_log, P_recv. Qed.
#[local] Hint Resolve recv_history : history.

Section Requests.

Hypothesis P_request : forall p, P (Send (MDict {[ "param" := FParams p ]})).

Lemma exchange_history env var : steps (only P) (exchange env var).
Proof.
  unfold exchange, send. history_tac.
  apply only_log, P_request.
Qed.
#[local] Hint Resolve exchange_history : history.

Lemma objective_history env var : steps (only P) (objective env var).
Proof. unfold objective. history_tac. Qed.
#[local] Hint Resolve objective_history : history.

Lemma run_engine_history env s : steps (only P) (run_engine env s).
Proof. induction s as [var next IH| |]; simpl; history_tac. Qed.

End Requests.

Section Channel.

Hypothesis P_send : forall m, P (Send m).

Lemma run_channel_history {R : Type} env (s : channel_script R) :
  steps (only P) (run_channel env s).
Proof.
  induction s as [m next IH|next IH| |]; simpl; unfold send; history_tac.
  apply only_log, P_send.
Qed.

End Channel.

End Only.

(** ** Inversion of monadic computations *)

Lemma get_world_bind {B : Type} (f : world -> M B) (w : world) :
  (get_world ≫= f) w = f w w.
Proof. reflexivity. Qed.

Lemma ret_inv {A : Type} (a : A) (r : result A) (w w' : world) :
  ret a w = (r, w') -> r = Ok a /\ w' = w.
Proof. intros H. inversion H. auto. Qed.

Lemma log_inv e (r : result unit) w w' :
  log e w = (r, w') ->
  r = Ok tt /\ trace w' = trace w ++ [e] /\ knobs w' = knobs w /\ ref w' = ref w /\
  n_random_starts w' = n_random_starts w /\ params w' = params w /\
  options w' = options w /\ performance w' = performance w.
Proof. intros H. inversion H. simpl. repeat split; reflexivity. Qed.

(** Splits [H : (c ≫= f) w = (Ok _, _)] into the run of [c] and the run
    of the continuation. *)
Ltac bind_inv H :=
  rewrite bind_unfold in H;
  match type of H with
  | context [match ?c ?w0 with _ => _ end] =>
      let a := fresh "a" in
      let w := fresh "w" in
      let E := fresh "E" in
      destruct (c w0) as [[a|?] w] eqn:E; [| discriminate H]
  end.

(** ** The final message *)

Lemma report_final env ret_x w p w' :
  report env ret_x w = (Ok (Some p), w') ->
  exists (rank : string) (labels : list value),
    get_ensemble_feature_importance env (options w') (performance w') labels = Ok rank /\
    last (trace w') =
    Some (Send (MDict (<["param" := FParams p]>
                       (<["rank" := FRank rank]> {[ "finished" := FBool true ]})))).
Proof.
  unfold report. rewrite get_world_bind. intros H.
  bind_inv H. rewrite get_world_bind in H.
  bind_inv H. bind_inv H. bind_inv H.
  apply ret_inv in H as [Hp ->]. injection Hp as ->.
  exists a1, a. unfold send in E2.
  apply log_inv in E0 as (_ & _ & _ & _ & _ & _ & Ho & Hperf).
  unfold lift in E1. injection E1 as E1 ->.
  apply log_inv in E2 as (_ & -> & _ & _ & _ & _ & Ho2 & Hperf2).
  split; [|apply last_snoc].
  rewrite Ho2, Hperf2, Ho, Hperf. exact E1.
Qed.

Lemma dispatch_returned_early env cfg space ref_x ref_y w best w' :
  dispatch env cfg space ref_x ref_y w = (Ok (ReturnedEarly best), w') ->
  engine cfg = "tpe" /\
  last (trace w') =
  Some (Send (MDict (<["param" := FParams best]> {[ "finished" := FBool true ]}))).
Proof.
  unfold dispatch. rewrite get_world_bind. intros H.
  destruct (String.eqb (engine cfg) "random");
    [repeat bind_inv H; apply ret_inv in H as [H _]; discriminate H|].
  destruct (String.eqb (engine cfg) "bayes");
    [repeat bind_inv H; apply ret_inv in H as [H _]; discriminate H|].
  destruct (String.eqb (engine cfg) "abtest").
  { bind_inv H. bind_inv H. destruct a0 as [opts perf].
    repeat bind_inv H.
    apply ret_inv in H as [H _]; discriminate H. }
  destruct (String.eqb (engine cfg) "lhs");
    [repeat bind_inv H; apply ret_inv in H as [H _]; discriminate H|].
  destruct (String.eqb (engine cfg) "tpe") eqn:Etpe;
    [| apply ret_inv in H as [H _]; discriminate H].
  apply String.eqb_eq in Etpe. split; [exact Etpe|].
  bind_inv H. bind_inv H. bind_inv H.
  apply ret_inv in H as [Hb ->]. injection Hb as ->.
  unfold send in E1. apply log_inv in E1 as (_ & -> & _).
  apply last_snoc.
Qed.

Lemma dispatch_fell_through env cfg space ref_x ref_y w ret_x w' :
  dispatch env cfg space ref_x ref_y w = (Ok (FellThrough ret_x), w') ->
  engine cfg <> "tpe".
Proof.
  unfold dispatch. rewrite get_world_bind. intros H Etpe. rewrite Etpe in H.
  simpl in H. repeat bind_inv H. apply ret_inv in H as [H _]; discriminate H.
Qed.

Lemma dispatch_no_rank env cfg space ref_x ref_y :
  steps (only (fun e => is_rank_call e = false)) (dispatch env cfg space ref_x ref_y).
Proof.
  set (P := fun e => is_rank_call e = false).
  assert (Hrecv : forall reply, P (Recv reply)) by reflexivity.
  assert (Hsend : forall m, P (Send m)) by reflexivity.
  unfold dispatch, send.
  steps_with (only_refl P) (only_trans P)
    ltac:(first
      [ apply (run_engine_history P Hrecv); intros; reflexivity
      | apply (run_channel_history P Hrecv Hsend)
      | apply only_log; reflexivity
      | solve [ intros ?; apply only_same_trace; reflexivity ] ]).
Qed.

Lemma search_inv env cfg w r w' :
  search env cfg w = (Ok r, w') ->
  exists space ref_x ref_y w1,
    prepare cfg w = (Ok (space, ref_x, ref_y), w1) /\
    dispatch env cfg space ref_x ref_y w1 = (Ok r, w').
Proof.
  unfold search. intros H. bind_inv H. destruct a as [[space ref_x] ref_y].
  exists space, ref_x, ref_y, w0. split; [reflexivity | exact H].
Qed.

(** A run that returns the parameters has sent, as its last message, the
    dict [{"param": params, "rank": rank, "finished": True}] under every
    engine name but ["tpe"], [rank] being what the feature selector made
    of the trials; under ["tpe"] the last message is
    [{"finished": True, "param": best_params}], with no ["rank"] key, and
    the feature selector was never called. *)
Lemma final_message env cfg ks n p w' :
  run env cfg (init_world ks n) = (Ok (Some p), w') ->
  if String.eqb (engine cfg) "tpe"
  then last (trace w') =
         Some (Send (MDict (<["param" := FParams p]> {[ "finished" := FBool true ]})))
       /\ Forall (fun e => is_rank_call e = false) (trace w')
  else exists (rank : string) (labels : list value),
         get_ensemble_feature_importance env (options w') (performance w') labels = Ok rank /\
         last (trace w') =
         Some (Send (MDict (<["param" := FParams p]>
                            (<["rank" := FRank rank]> {[ "finished" := FBool true ]})))).
Proof.
  unfold run. intros H.
  destruct (search env cfg (init_world ks n)) as [[[ret_x|best]|e] w1] eqn:Es.
  - apply search_inv in Es as (space & ref_x & ref_y & w0 & _ & Hd).
    apply dispatch_fell_through in Hd.
    destruct (String.eqb_spec (engine cfg) "tpe") as [Etpe|_]; [contradiction|].
    eapply report_final; exact H.
  - injection H as <- <-.
    pose proof (prepare_history (fun e => is_rank_call e = false) cfg (init_world ks n))
      as Hp.
    apply search_inv in Es as (space & ref_x & ref_y & w0 & Ep & Hd).
    rewrite Ep in Hp. simpl in Hp.
    pose proof (dispatch_no_rank env cfg space ref_x ref_y w0) as Hn.
    rewrite Hd in Hn. simpl in Hn.
    apply dispatch_returned_early in Hd as [Etpe Hlast].
    rewrite Etpe. simpl. split; [exact Hlast|].
    destruct (only_trans _ _ _ _ Hp Hn) as [t [-> Ft]]. exact Ft.
  - unfold handle, send in H. destruct e; repeat bind_inv H;
      apply ret_inv in H as [H _]; discriminate H.
Qed.

(** ** The random-start count *)

Lemma grows_log e : steps (only (fun _ => True)) (log e).
Proof. apply only_log. exact I. Qed.

Ltac grows_tac :=
  steps_with (only_refl (fun _ => True)) (only_trans (fun _ => True))
    ltac:(first
      [ apply (run_engine_history (fun _ => True)); intros; exact I
      | apply (run_channel_history (fun _ => True)); intros; exact I
      | apply (component_history (fun _ => True))
      | apply grows_log
      | solve [ intros ?; apply only_same_trace; reflexivity ] ]).

Lemma report_grows env ret_x : steps (only (fun _ => True)) (report env ret_x).
Proof. unfold report, send, ret_x_component. grows_tac. Qed.

Lemma handle_grows e : steps (only (fun _ => True)) (handle e).
Proof. unfold handle, send. destruct e; grows_tac. Qed.

Lemma dispatch_grows env cfg space ref_x ref_y :
  steps (only (fun _ => True)) (dispatch env cfg space ref_x ref_y).
Proof. unfold dispatch, send. grows_tac. Qed.

Lemma prepare_quiet cfg w : trace (snd (prepare cfg w)) = trace w.
Proof. apply only_nothing, prepare_history. Qed.

Lemma same_starts_refl w : n_random_starts w = n_random_starts w.
Proof. reflexivity. Qed.

Lemma same_starts_trans w1 w2 w3 :
  n_random_starts w2 = n_random_starts w1 -> n_random_starts w3 = n_random_starts w2 ->
  n_random_starts w3 = n_random_starts w1.
Proof. congruence. Qed.

Ltac starts_tac :=
  steps_with same_starts_refl same_starts_trans ltac:(solve [ intros ?; reflexivity ]).

Lemma build_space_starts w : n_random_starts (snd (build_space w)) = n_random_starts w.
Proof.
  revert w. change (steps (fun w w' => n_random_starts w' = n_random_starts w) build_space).
  unfold build_space, build_knob, continuous_dimension, coerce_bounds,
    handle_discrete_data, handle_discrete_int, handle_discrete_float,
    handle_discrete_string, candidate_items, extend_from_pair.
  starts_tac.
Qed.

Lemma transfer_starts cfg w : n_random_starts (snd (transfer cfg w)) = n_random_starts w.
Proof.
  revert w.
  change (steps (fun w w' => n_random_starts w' = n_random_starts w) (transfer cfg)).
  unfold transfer, transfer_entry, read_token, _get_intvalue_from_knobs, intvalue_of_knob.
  starts_tac.
Qed.

Lemma transfer_entries_length xs : forall acc w vs w',
  for_each xs transfer_entry acc w = (Ok vs, w') ->
  length vs = (length acc + length xs)%nat.
Proof.
  induction xs as [|x xs IH]; intros acc w vs w' H; simpl in H.
  - apply ret_inv in H as [H _]. injection H as <-. simpl. lia.
  - bind_inv H. apply IH in H. rewrite H. simpl.
    unfold transfer_entry in E. rewrite get_world_bind in E.
    destruct (negb (length x =? length (knobs w))%nat); [discriminate E|].
    bind_inv E. bind_inv E.
    destruct (negb (length a1 =? length (knobs w))%nat); [discriminate E|].
    apply ret_inv in E as [E _]. injection E as ->. rewrite length_app. simpl. lia.
Qed.

Lemma transfer_length cfg xs ys w vs fs w' :
  x0 cfg = Some xs -> y0 cfg = Some ys ->
  transfer cfg w = (Ok (vs, fs), w') -> length vs = length xs.
Proof.
  intros Hx Hy H. unfold transfer in H. rewrite Hx, Hy in H.
  bind_inv H. bind_inv H. apply ret_inv in H as [H _]. injection H as <- <-.
  apply transfer_entries_length in E. exact E.
Qed.

(** The adjusted count, as the source computes it. *)
Lemma prepare_warm_start cfg xs ys w space ref_x ref_y w1 :
  x0 cfg = Some xs -> y0 cfg = Some ys -> xs <> [] ->
  prepare cfg w = (Ok (space, ref_x, ref_y), w1) ->
  length ref_x = length xs /\
  n_random_starts w1 =
    (if n_random_starts w <=? Z.of_nat (length xs) then 0
     else n_random_starts w - Z.of_nat (length xs) + 1).
Proof.
  intros Hx Hy Hne H. unfold prepare in H.
  bind_inv H. bind_inv H. destruct a0 as [vs fs].
  pose proof (build_space_starts w) as Hb. rewrite E in Hb. simpl in Hb.
  pose proof (transfer_starts cfg w0) as Ht. rewrite E0 in Ht. simpl in Ht.
  apply (transfer_length cfg xs ys) in E0; [|assumption..].
  rewrite get_world_bind in H.
  destruct vs as [|v vs]; [destruct xs; [congruence | discriminate E0]|].
  unfold mbind, M_bind, bind, lift, py_getitem, rbind, py_iter,
    set_n_random_starts, ret in H.
  simpl in H. injection H as _ <- _ <-. simpl.
  rewrite length_map. simpl in E0. rewrite E0, Ht, Hb. split; reflexivity.
Qed.

Lemma run_bayes_first_call env cfg w space ref_x ref_y w1 :
  engine cfg = "bayes" ->
  prepare cfg w = (Ok (space, ref_x, ref_y), w1) ->
  exists t : list event,
    trace (snd (run env cfg w)) =
    trace w ++
    CallGpMinimize space (max_eval cfg) (n_random_starts w1) ref_x ref_y :: t.
Proof.
  intros He Hp.
  pose proof (prepare_quiet cfg w) as Hq. rewrite Hp in Hq. simpl in Hq.
  unfold run, search. rewrite bind_unfold, Hp.
  unfold dispatch. rewrite get_world_bind, He.
  change (String.eqb "bayes" "random") with false.
  change (String.eqb "bayes" "bayes") with true. cbv iota.
  rewrite bind_unfold. unfold log. cbv beta iota.
  match goal with
  | |- context [(?c ≫= ?f) ?w2] =>
      assert (Hc : only (fun _ => True) w2 (snd ((c ≫= f) w2)));
      [ generalize w2; change (steps (only (fun _ => True)) (c ≫= f)); grows_tac
      | destruct ((c ≫= f) w2) as [[[r|b]|e] w3] ]
  end; simpl in Hc; destruct Hc as [t1 [E1 _]]; simpl in E1; rewrite Hq in E1.
  - destruct (report_grows env r w3) as [t2 [E2 _]].
    exists (t1 ++ t2). rewrite E2, E1, <- !app_assoc. reflexivity.
  - exists t1. simpl. rewrite E1, <- !app_assoc. reflexivity.
  - destruct (handle_grows e w3) as [t2 [E2 _]].
    exists (t1 ++ t2). rewrite E2, E1, <- !app_assoc. reflexivity.
Qed.

(** C3, as the code has it.  With [k >= 1] warm-start vectors supplied
    and a configured count [n], the count handed to [gp_minimize] is 0
    when [k >= n] and [n - k + 1] otherwise; it is never negative. *)
Theorem random_starts_adjusted env cfg ks n xs ys space ref_x ref_y w1 :
  x0 cfg = Some xs -> y0 cfg = Some ys -> xs <> [] ->
  prepare cfg (init_world ks (Some n)) = (Ok (space, ref_x, ref_y), w1) ->
  let k := Z.of_nat (length xs) in
  let adjusted := if n <=? k then 0 else n - k + 1 in
  length ref_x = length xs /\
  n_random_starts w1 = adjusted /\
  0 <= adjusted /\
  (engine cfg = "bayes" ->
   head (trace (snd (run env cfg (init_world ks (Some n))))) =
   Some (CallGpMinimize space (max_eval cfg) adjusted ref_x ref_y)).
Proof.
  intros Hx Hy Hne Hp k adjusted.
  destruct (prepare_warm_start _ _ _ _ _ _ _ _ Hx Hy Hne Hp) as [Hl Hn].
  simpl in Hn. fold k in Hn. fold adjusted in Hn.
  split; [exact Hl|]. split; [exact Hn|]. split.
  - subst adjusted. destruct (Z.leb_spec n k); lia.
  - intros He. destruct (run_bayes_first_call env _ _ _ _ _ _ He Hp) as [t Ht].
    rewrite Ht, Hn. reflexivity.
Qed.

(** ** A reply that is not numeric *)

Lemma sum_measurements_malformed parts : forall acc,
  (exists part, In part parts /\ float_of_string part = None) ->
  exists part,
    In part parts /\ float_of_string part = None /\
    sum_measurements parts acc =
    Raise (ValueError "could not convert string to float: {}" [VStr part]).
Proof.
  induction parts as [|x parts IH]; intros acc [part [Hin Hnone]].
  - destruct Hin.
  - simpl. destruct (float_of_string x) as [f|] eqn:Ex.
    + destruct Hin as [->|Hin]; [congruence|].
      destruct (IH (f_add acc f)) as [part' [Hin' [Hnone' Hsum]]]; [eauto|].
      exists part'. split; [right; exact Hin'|]. split; [exact Hnone'|]. exact Hsum.
    + exists x. split; [left; reflexivity|]. split; [exact Ex | reflexivity].
Qed.

Lemma objective_malformed env var w reply w1 :
  exchange env var w = (Ok reply, w1) ->
  malformed reply ->
  exists part,
    In part (split reply ",") /\ float_of_string part = None /\
    objective env var w =
    (Raise (ValueError "could not convert string to float: {}" [VStr part]), w1).
Proof.
  intros He Hm.
  destruct (sum_measurements_malformed _ (FFin 0) Hm) as [part [Hin [Hnone Hsum]]].
  exists part. split; [exact Hin|]. split; [exact Hnone|].
  unfold objective. rewrite bind_unfold, He, bind_unfold. unfold lift. rewrite Hsum.
  reflexivity.
Qed.

Lemma reaches_raises env s w var w2 e w3 :
  reaches env s w var w2 ->
  objective env var w2 = (Raise e, w3) ->
  run_engine env s w = (Raise e, w3).
Proof.
  induction 1 as [var next w|var next w cost w1 var' w' Ho _ IH]; intros Hr; simpl;
    rewrite bind_unfold.
  - rewrite Hr. reflexivity.
  - rewrite Ho. apply IH, Hr.
Qed.

Lemma search_event_request p :
  is_search_event (Send (MDict {[ "param" := FParams p ]})) = true.
Proof. reflexivity. Qed.

Lemma reaches_history env s w var w' :
  reaches env s w var w' -> only (fun e => is_search_event e = true) w w'.
Proof.
  induction 1 as [var next w|var next w cost w1 var' w' Ho _ IH].
  - apply only_refl.
  - eapply only_trans; [|exact IH].
    pose proof (objective_history (fun e => is_search_event e = true)
                  (fun _ => eq_refl) search_event_request env var w) as Hh.
    rewrite Ho in Hh. exact Hh.
Qed.

(** C8, as the code has it.  Under the [random] and the [bayes] engine,
    a reply with a part that [float] refuses makes [objective] raise a
    [ValueError]; [run] catches it in its first [except] clause, the one
    configuration errors go through: it sends the exception itself, not
    wrapped as an unexpected error, as the only message after the
    requests and replies of the search, and returns [None]. *)
Theorem malformed_result_aborts env cfg w space ref_x ref_y w1 call script var w2 reply w3 :
  prepare cfg w = (Ok (space, ref_x, ref_y), w1) ->
  (engine cfg = "random" /\
   call = CallDummyMinimize space (max_eval cfg) /\
   script = dummy_minimize env space (max_eval cfg)) \/
  (engine cfg = "bayes" /\
   call = CallGpMinimize space (max_eval cfg) (n_random_starts w1) ref_x ref_y /\
   script = gp_minimize env space (max_eval cfg) (n_random_starts w1) ref_x ref_y) ->
  reaches env script (snd (log call w1)) var w2 ->
  exchange env var w2 = (Ok reply, w3) ->
  malformed reply ->
  exists (part : string) (t : list event),
    In part (split reply ",") /\ float_of_string part = None /\
    run env cfg w =
      (Ok None,
       snd (send (MExn (ValueError "could not convert string to float: {}" [VStr part]))
              w3)) /\
    trace w3 = trace w ++ t /\
    Forall (fun e => is_search_event e = true) t.
Proof.
  intros Hp Hengine Hreach Hex Hm.
  destruct (objective_malformed _ _ _ _ _ Hex Hm) as [part [Hin [Hnone Hobj]]].
  pose proof (reaches_raises _ _ _ _ _ _ _ Hreach Hobj) as Hrun.
  set (P := fun e => is_search_event e = true).
  assert (Hcall : P call) by (destruct Hengine as [(_ & -> & _)|(_ & -> & _)]; reflexivity).
  assert (Hhist : only P w w3).
  { eapply only_trans.
    - pose proof (prepare_history P cfg w) as H. rewrite Hp in H. exact H.
    - eapply only_trans; [apply (only_log P call Hcall w1)|].
      eapply only_trans; [eapply reaches_history; exact Hreach|].
      pose proof (exchange_history P (fun _ => eq_refl) search_event_request env var w2)
        as H.
      rewrite Hex in H. exact H. }
  destruct Hhist as [t [Ht Ft]].
  exists part, t. split; [exact Hin|]. split; [exact Hnone|]. split; [|split; assumption].
  unfold run, search. rewrite bind_unfold, Hp.
  unfold dispatch. rewrite get_world_bind.
  destruct Hengine as [(He & -> & ->)|(He & -> & ->)]; rewrite He.
  - change (String.eqb "random" "random") with true. cbv iota.
    rewrite bind_unfold.
    destruct (log (CallDummyMinimize space (max_eval cfg)) w1) as [[[]|?] w1'] eqn:El;
      [|discriminate El].
    simpl in Hrun. rewrite bind_unfold, Hrun. reflexivity.
  - change (String.eqb "bayes" "random") with false.
    change (String.eqb "bayes" "bayes") with true. cbv iota.
    rewrite bind_unfold.
    destruct (log (CallGpMinimize space (max_eval cfg) (n_random_starts w1) ref_x ref_y) w1)
      as [[[]|?] w1'] eqn:El; [|discriminate El].
    simpl in Hrun. rewrite bind_unfold, Hrun. reflexivity.
Qed.

(** ** Loops over the options of a string knob *)

Lemma get_field_Ok i key w p v :
  knobs w !! i = Some p -> p !! key = Some v -> get_field i key w = (Ok v, w).
Proof. intros Hk Hp. unfold get_field. rewrite Hk, Hp. reflexivity. Qed.

Lemma get_field_missing i key w p :
  knobs w !! i = Some p -> p !! key = None -> get_field i key w = (Raise (KeyError key), w).
Proof. intros Hk Hp. unfold get_field. rewrite Hk, Hp. reflexivity. Qed.

Lemma with_ref_same w : with_ref w (ref w) = w.
Proof. destruct w. reflexivity. Qed.

Lemma ref_with_ref w r : ref (with_ref w r) = r.
Proof. reflexivity. Qed.

Lemma fst_enumerate {A : Type} (l : list A) : map fst (enumerate l) = seq 0 (length l).
Proof. unfold enumerate. apply fst_zip. rewrite length_seq. lia. Qed.

(** The loop of [handle_discrete_data] over [enumerate(items)]: every
    key goes to [keys], the keys of the elements equal to [ref] go to
    [self.ref]. *)
Lemma reference_loop i p r (l : list (nat * value)) : forall keys w,
  knobs w !! i = Some p -> p !! "ref" = Some r ->
  for_each l
    (fun keys '(key, value) =>
       r ← get_field i "ref";
       (if py_eq r value then ref_append (VInt (Z.of_nat key)) else ret tt);;
       ret (keys ++ [VInt (Z.of_nat key)]))
    keys w =
  (Ok (keys ++ index_values (map fst l)),
   with_ref w
     (ref w ++ index_values (map fst (List.filter (fun kv => py_eq r (snd kv)) l)))).
Proof.
  induction l as [|[k v] l IH]; intros keys w Hk Hr; simpl.
  - rewrite !app_nil_r, with_ref_same. reflexivity.
  - rewrite bind_unfold, bind_unfold, (get_field_Ok _ _ _ _ _ Hk Hr), bind_unfold.
    destruct (py_eq r v); simpl.
    + rewrite IH by (simpl; assumption). simpl.
      rewrite <- !app_assoc. reflexivity.
    + rewrite IH by assumption. rewrite <- !app_assoc. reflexivity.
Qed.

(** The loop of [_get_intvalue_from_knobs] over [enumerate(options)]. *)
Lemma option_loop text (l : list (nat * value)) : forall x_each w,
  for_each l
    (fun x_each '(key, value) =>
       if negb (py_eq value (VStr text)) then ret x_each
       else ret (x_each ++ [VInt (Z.of_nat key)]))
    x_each w =
  (Ok (x_each ++
       index_values (map fst (List.filter (fun kv => py_eq (snd kv) (VStr text)) l))),
   w).
Proof.
  induction l as [|[k v] l IH]; intros x_each w; simpl.
  - rewrite app_nil_r. reflexivity.
  - rewrite bind_unfold. destruct (py_eq v (VStr text)); simpl.
    + rewrite IH, <- app_assoc. reflexivity.
    + apply IH.
Qed.

(** C10. For a discrete knob of dtype [string], [handle_discrete_data]
    appends to the reference vector the index of every option equal to
    [ref], one entry per such position: one entry when [ref] matches one
    option, several when the options repeat it.  Only when no option
    matches does it raise; otherwise it returns the keys
    [0 .. len(options) - 1]. *)
Theorem discrete_string_reference w i p opts elements r name :
  knobs w !! i = Some p ->
  p !! "dtype" = Some (VStr "string") ->
  p !! "options" = Some opts ->
  py_iter opts = Ok elements ->
  p !! "ref" = Some r ->
  p !! "name" = Some name ->
  handle_discrete_data i w =
  (match positions (py_eq r) elements with
   | [] => Raise (ValueError "the ref value of {} is out of range" [name])
   | _ :: _ => Ok (index_values (seq 0 (length elements)))
   end,
   with_ref w (ref w ++ index_values (positions (py_eq r) elements))).
Proof.
  intros Hk Hd Ho Hi Hr Hn.
  unfold handle_discrete_data.
  rewrite bind_unfold, (get_field_Ok _ _ _ _ _ Hk Hd).
  change (py_eq (VStr "string") (VStr "int")) with false.
  change (py_eq (VStr "string") (VStr "float")) with false.
  change (py_eq (VStr "string") (VStr "string")) with true. cbv iota.
  unfold handle_discrete_string.
  rewrite bind_unfold, (get_field_Ok _ _ _ _ _ Hk Ho), get_world_bind, bind_unfold.
  unfold lift. rewrite Hi, bind_unfold.
  rewrite (reference_loop i p r) by assumption.
  rewrite get_world_bind, ref_with_ref. unfold positions.
  rewrite length_app, fst_enumerate. simpl app.
  destruct (map fst (List.filter (fun kv => py_eq r (snd kv)) (enumerate elements)))
    as [|k ks] eqn:Eh.
  - simpl. rewrite Nat.add_0_r, Nat.eqb_refl.
    rewrite bind_unfold. erewrite get_field_Ok; [| exact Hk | exact Hn].
    reflexivity.
  - replace (length (ref w) + length (index_values (k :: ks)) =? length (ref w))%nat
      with false; [reflexivity|].
    symmetry. apply Nat.eqb_neq. simpl. lia.
Qed.

Lemma py_eq_str d s : py_eq d (VStr s) = true -> d = VStr s.
Proof.
  destruct d; simpl; try discriminate. intros H. apply String.eqb_eq in H. congruence.
Qed.

Lemma enumerate_from_lookup {A : Type} (l : list A) : forall s k (e : A),
  In (k, e) (zip (seq s (length l)) l) -> (s <= k)%nat /\ l !! (k - s)%nat = Some e.
Proof.
  induction l as [|x l IH]; intros s k e Hin; [destruct Hin|].
  simpl in Hin. destruct Hin as [Hin|Hin].
  - injection Hin as <- <-. rewrite Nat.sub_diag. split; [lia | reflexivity].
  - apply IH in Hin as [Hle Hl]. split; [lia|].
    replace (k - s)%nat with (S (k - S s)) by lia. exact Hl.
Qed.

Lemma positions_lookup test (l : list value) k :
  In k (positions test l) -> exists e, l !! k = Some e /\ test e = true.
Proof.
  unfold positions. intros Hin. apply in_map_iff in Hin as [[k' e] [Hk Hin]].
  simpl in Hk. subst k'. apply filter_In in Hin as [Hin Ht]. simpl in Ht.
  apply enumerate_from_lookup in Hin as [_ Hl]. rewrite Nat.sub_0_r in Hl.
  exists e. split; assumption.
Qed.

Lemma intvalue_of_knob_spec kv x_each i w p name text dtype :
  knobs w !! i = Some p ->
  p !! "name" = Some (VStr name) ->
  kv !! name = Some text ->
  p !! "dtype" = Some dtype ->
  intvalue_of_knob kv x_each i w =
  (if py_eq dtype (VStr "string")
   then match p !! "options" with
        | Some opts =>
            match py_iter opts with
            | Ok elements =>
                Ok (x_each ++
                    index_values (positions (fun v => py_eq v (VStr text)) elements))
            | Raise e => Raise e
            end
        | None => Raise (KeyError "options")
        end
   else match int_of_string text with
        | Some z => Ok (x_each ++ [VInt z])
        | None => Raise (int_error text)
        end,
   w).
Proof.
  intros Hk Hn Hkv Hd. unfold intvalue_of_knob.
  rewrite bind_unfold, (get_field_Ok _ _ _ _ _ Hk Hn), bind_unfold.
  unfold lift, kv_lookup. rewrite Hkv.
  rewrite bind_unfold, (get_field_Ok _ _ _ _ _ Hk Hd).
  destruct (py_eq dtype (VStr "string")); cbn [negb]; cbv iota.
  - destruct (p !! "options") as [opts|] eqn:Eo.
    + rewrite bind_unfold, (get_field_Ok _ _ _ _ _ Hk Eo). cbv beta iota.
      rewrite bind_unfold.
      destruct (py_iter opts) as [elements|e]; [|reflexivity].
      apply option_loop.
    + rewrite bind_unfold, (get_field_missing _ _ _ _ Hk Eo). reflexivity.
  - rewrite bind_unfold. unfold py_int.
    destruct (int_of_string text); reflexivity.
Qed.

(** C7, as the code has it.  A warm-start value is resolved by the
    knob's dtype.  Under every dtype other than [string], [float] like
    [int], the value is parsed with [int]: an integer literal gives that
    integer, and any other text, a float literal such as [0.5] included,
    is refused with the [ValueError] of [int].  Under dtype [string] the
    value resolves to the index of the matching option, the one option
    equal to it. *)
Theorem warm_start_value_encoding kv x_each i w p name text dtype :
  knobs w !! i = Some p ->
  p !! "name" = Some (VStr name) ->
  kv !! name = Some text ->
  p !! "dtype" = Some dtype ->
  (py_eq dtype (VStr "string") = false ->
   intvalue_of_knob kv x_each i w =
   (match int_of_string text with
    | Some z => Ok (x_each ++ [VInt z])
    | None => Raise (int_error text)
    end,
    w)) /\
  (py_eq dtype (VStr "string") = true ->
   forall opts elements k,
     p !! "options" = Some opts ->
     py_iter opts = Ok elements ->
     positions (fun v => py_eq v (VStr text)) elements = [k] ->
     elements !! k = Some (VStr text) /\
     intvalue_of_knob kv x_each i w = (Ok (x_each ++ [VInt (Z.of_nat k)]), w)).
Proof.
  intros Hk Hn Hkv Hd.
  pose proof (intvalue_of_knob_spec kv x_each i w p name text dtype Hk Hn Hkv Hd) as H.
  split; intros Hs; rewrite Hs in H.
  - exact H.
  - intros opts elements k Ho Hi Hp. rewrite Ho, Hi, Hp in H. split; [|exact H].
    assert (Hin : In k (positions (fun v => py_eq v (VStr text)) elements))
      by (rewrite Hp; left; reflexivity).
    apply positions_lookup in Hin as [e [Hl He]].
    apply py_eq_str in He. subst e. exact Hl.
Qed.

(** ** Warm-start transfer against its specification *)

Lemma read_tokens entry : forall pairs kv w,
  mapM token_pair entry = Some pairs ->
  for_each entry read_token kv w = (Ok (fold_left insert_pair pairs kv), w).
Proof.
  induction entry as [|token entry IH]; intros pairs kv w H.
  - injection H as <-. reflexivity.
  - simpl in H. destruct (token_pair token) as [[name text]|] eqn:Et; [|discriminate H].
    simpl in H. destruct (mapM token_pair entry) as [rest|] eqn:Er; [|discriminate H].
    injection H as <-. simpl. rewrite bind_unfold.
    unfold token_pair in Et. unfold read_token.
    destruct (split token "=") as [|a [|b [|c l]]]; try discriminate Et.
    injection Et as -> ->. apply IH. reflexivity.
Qed.

Lemma fold_insert_lookup name (pairs : list (string * string)) : forall kv,
  fold_left insert_pair pairs kv !! name =
  match last (List.filter (fun nv => String.eqb (fst nv) name) pairs) with
  | Some nv => Some (snd nv)
  | None => kv !! name
  end.
Proof.
  induction pairs as [|[n t] pairs IH]; intros kv; simpl; [reflexivity|].
  rewrite IH. unfold insert_pair. simpl.
  destruct (String.eqb_spec n name) as [->|Hne].
  - rewrite last_cons.
    destruct (last (List.filter (fun nv => String.eqb (fst nv) name) pairs));
      [reflexivity|]. apply lookup_insert_eq.
  - destruct (last (List.filter (fun nv => String.eqb (fst nv) name) pairs));
      [reflexivity|]. apply lookup_insert_ne. exact Hne.
Qed.

Lemma value_for_lookup pairs name text :
  value_for pairs name = Some text ->
  fold_left insert_pair pairs ∅ !! name = Some text.
Proof.
  unfold value_for. intros H. rewrite fold_insert_lookup.
  destruct (List.filter (fun nv => String.eqb (fst nv) name) pairs) as [|[n t] [|? ?]];
    try discriminate H.
  injection H as ->. reflexivity.
Qed.

Lemma encode_knob_step kv pairs acc i w p v :
  (forall name text, value_for pairs name = Some text -> kv !! name = Some text) ->
  knobs w !! i = Some p ->
  encode_knob pairs p = Some v ->
  intvalue_of_knob kv acc i w = (Ok (acc ++ [v]), w).
Proof.
  intros Hkv Hk He. unfold encode_knob in He.
  destruct (p !! "name") as [[| | |name|]|] eqn:En; try discriminate He.
  destruct (value_for pairs name) as [text|] eqn:Ev; [|discriminate He].
  simpl in He. unfold encode_value in He.
  destruct (p !! "dtype") as [dtype|] eqn:Ed; [|discriminate He]. simpl in He.
  rewrite (intvalue_of_knob_spec kv acc i w p name text dtype Hk En (Hkv _ _ Ev) Ed).
  destruct (py_eq dtype (VStr "string")).
  - destruct (p !! "options") as [opts|]; [|discriminate He]. simpl in He.
    destruct (py_iter opts) as [elements|]; [|discriminate He].
    destruct (positions (fun v0 => py_eq v0 (VStr text)) elements) as [|k [|? ?]];
      try discriminate He.
    injection He as <-. reflexivity.
  - destruct (int_of_string text) as [z|]; [|discriminate He].
    injection He as <-. reflexivity.
Qed.

Lemma encode_knobs_loop kv pairs w (ks : list knob) : forall s acc vec,
  (forall name text, value_for pairs name = Some text -> kv !! name = Some text) ->
  (forall j p, ks !! j = Some p -> knobs w !! (s + j)%nat = Some p) ->
  mapM (encode_knob pairs) ks = Some vec ->
  for_each (seq s (length ks)) (intvalue_of_knob kv) acc w = (Ok (acc ++ vec), w).
Proof.
  induction ks as [|p ks IH]; intros s acc vec Hkv Hk H.
  - injection H as <-. simpl. rewrite app_nil_r. reflexivity.
  - simpl in H. destruct (encode_knob pairs p) as [v|] eqn:Ev; [|discriminate H].
    simpl in H. destruct (mapM (encode_knob pairs) ks) as [rest|] eqn:Er; [|discriminate H].
    injection H as <-. simpl. rewrite bind_unfold.
    rewrite (encode_knob_step kv pairs acc s w p v Hkv); [| |exact Ev].
    + rewrite (IH (S s) (acc ++ [v]) rest Hkv); [| |reflexivity].
      * rewrite <- app_assoc. reflexivity.
      * intros j q Hj. replace (S s + j)%nat with (s + S j)%nat by lia.
        apply Hk. exact Hj.
    + specialize (Hk 0%nat p eq_refl). rewrite Nat.add_0_r in Hk. exact Hk.
Qed.

Lemma transfer_entry_spec acc entry w vec :
  warm_start_vector (knobs w) entry = Some vec ->
  transfer_entry acc entry w = (Ok (acc ++ [vec]), w).
Proof.
  unfold warm_start_vector. intros H.
  destruct (length entry =? length (knobs w))%nat eqn:El; [|discriminate H].
  destruct (mapM token_pair entry) as [pairs|] eqn:Ep; [|discriminate H]. simpl in H.
  unfold transfer_entry. rewrite get_world_bind, El. cbn [negb]. cbv iota.
  rewrite bind_unfold, (read_tokens entry pairs ∅ w Ep). cbv beta iota.
  rewrite bind_unfold. unfold _get_intvalue_from_knobs. rewrite get_world_bind.
  rewrite (encode_knobs_loop (fold_left insert_pair pairs ∅) pairs w (knobs w) 0 [] vec);
    [| apply value_for_lookup | intros j p Hj; exact Hj | exact H].
  cbv beta iota. rewrite (app_nil_l vec).
  apply length_mapM in H. rewrite <- H, Nat.eqb_refl. reflexivity.
Qed.

Lemma transfer_entries_spec xs : forall acc w vecs,
  mapM (warm_start_vector (knobs w)) xs = Some vecs ->
  for_each xs transfer_entry acc w = (Ok (acc ++ vecs), w).
Proof.
  induction xs as [|entry xs IH]; intros acc w vecs H.
  - injection H as <-. simpl. rewrite app_nil_r. reflexivity.
  - simpl in H. destruct (warm_start_vector (knobs w) entry) as [vec|] eqn:Ev;
      [|discriminate H]. simpl in H.
    destruct (mapM (warm_start_vector (knobs w)) xs) as [rest|] eqn:Er; [|discriminate H].
    injection H as <-. simpl.
    rewrite bind_unfold, (transfer_entry_spec acc entry w vec Ev).
    rewrite (IH (acc ++ [vec]) w rest Er), <- app_assoc. reflexivity.
Qed.

Lemma transfer_entry_knobs acc entry w :
  knobs (snd (transfer_entry acc entry w)) = knobs w.
Proof.
  assert (Hr : forall w : world, knobs w = knobs w) by reflexivity.
  assert (Ht : forall w1 w2 w3 : world,
             knobs w2 = knobs w1 -> knobs w3 = knobs w2 -> knobs w3 = knobs w1)
    by (intros; congruence).
  revert w. change (steps (fun w w' => knobs w' = knobs w) (transfer_entry acc entry)).
  unfold transfer_entry, read_token, _get_intvalue_from_knobs, intvalue_of_knob.
  steps_with Hr Ht fail.
Qed.

Lemma transfer_entries_wrong_length xs : forall acc w,
  (exists entry, In entry xs /\ length entry <> length (knobs w)) ->
  exists e w', for_each xs transfer_entry acc w = (Raise e, w').
Proof.
  induction xs as [|x xs IH]; intros acc w [entry [Hin Hlen]]; [destruct Hin|].
  simpl. rewrite bind_unfold.
  destruct (transfer_entry acc x w) as [[acc'|e] w1] eqn:Ex; [|eauto].
  destruct Hin as [->|Hin].
  - exfalso. unfold transfer_entry in Ex. rewrite get_world_bind in Ex.
    apply Nat.eqb_neq in Hlen. rewrite Hlen in Ex. discriminate Ex.
  - apply IH. exists entry. split; [exact Hin|].
    pose proof (transfer_entry_knobs acc x w) as Hk. rewrite Ex in Hk. simpl in Hk.
    rewrite Hk. exact Hlen.
Qed.

(** C6, as the code has it.  With [x0] and [y0] both given, [transfer]
    fails when an entry of [x0] has not one token per knob.  It succeeds
    when every entry has one [name=value] token per knob, every knob name
    is among the token names exactly once, every value resolves (an
    integer literal for a knob that is not of dtype [string], the text of
    exactly one option for one that is) and every score converts to
    [float]; the vectors then list the encodings in knob order. *)
Theorem transfer_vectors cfg w xs ys :
  x0 cfg = Some xs -> y0 cfg = Some ys ->
  ((exists entry, In entry xs /\ length entry <> length (knobs w)) ->
   exists e, fst (transfer cfg w) = Raise e) /\
  (forall vecs fs,
     mapM (warm_start_vector (knobs w)) xs = Some vecs ->
     floats_of ys = Ok fs ->
     transfer cfg w = (Ok (vecs, fs), w) /\
     Forall2
       (fun entry vec =>
          exists pairs,
            mapM token_pair entry = Some pairs /\
            Forall2 (fun p v => encode_knob pairs p = Some v) (knobs w) vec)
       xs vecs).
Proof.
  intros Hx Hy. unfold transfer. rewrite Hx, Hy. split.
  - intros Hbad.
    destruct (transfer_entries_wrong_length xs [] w Hbad) as [e [w' He]].
    exists e. rewrite bind_unfold, He. reflexivity.
  - intros vecs fs Hv Hf. split.
    + rewrite bind_unfold, (transfer_entries_spec xs [] w vecs Hv). cbv beta iota.
      rewrite bind_unfold. unfold lift. rewrite Hf. reflexivity.
    + apply mapM_Some_1 in Hv. eapply Forall2_impl; [exact Hv|].
      intros entry vec H. unfold warm_start_vector in H.
      destruct (length entry =? length (knobs w))%nat; [|discriminate H].
      destruct (mapM token_pair entry) as [pairs|]; [|discriminate H].
      exists pairs. split; [reflexivity|]. apply mapM_Some_1. exact H.
Qed.

(** ** Feature importance *)

Lemma total_sum_from (coef : list Q) : forall a : Q,
  (fold_left (fun acc c => acc + Qabs c) coef a == a + Qsum (map Qabs coef))%Q.
Proof.
  induction coef as [|c coef IH]; intros a; simpl.
  - unfold Qsum. simpl. lra.
  - rewrite IH. unfold Qsum. simpl. lra.
Qed.

Lemma total_sum_Qsum coef : (total_sum coef == Qsum (map Qabs coef))%Q.
Proof. unfold total_sum. rewrite total_sum_from. lra. Qed.

Lemma Qsum_abs_nonneg coef : (0 <= Qsum (map Qabs coef))%Q.
Proof.
  induction coef as [|c coef IH]; unfold Qsum in *; simpl; [lra|].
  pose proof (Qabs_nonneg c). lra.
Qed.

Lemma insert_ranked_perm x l : Permutation (insert_ranked x l) (x :: l).
Proof.
  induction l as [|y l IH]; simpl; [reflexivity|].
  destruct (Qle_bool (magnitude (fst y)) (magnitude (fst x))); [reflexivity|].
  rewrite IH. apply perm_swap.
Qed.

Lemma sorted_by_magnitude_perm l : Permutation (sorted_by_magnitude l) l.
Proof.
  induction l as [|x l IH]; simpl; [reflexivity|].
  rewrite insert_ranked_perm. constructor. exact IH.
Qed.

Lemma insert_ranked_sorted x l :
  StronglySorted by_magnitude l -> StronglySorted by_magnitude (insert_ranked x l).
Proof.
  induction 1 as [|y l Hs IH Hy]; simpl.
  - constructor; constructor.
  - destruct (Qle_bool (magnitude (fst y)) (magnitude (fst x))) eqn:E.
    + apply Qle_bool_iff in E. constructor; [constructor; assumption|].
      constructor; [exact E|].
      eapply Forall_impl; [exact Hy|]. unfold by_magnitude. intros z Hz.
      eapply Qle_trans; [exact Hz | exact E].
    + assert (Hlt : (magnitude (fst x) <= magnitude (fst y))%Q).
      { destruct (Qlt_le_dec (magnitude (fst x)) (magnitude (fst y))) as [Hl|Hl];
          [apply Qlt_le_weak; exact Hl|].
        apply Qle_bool_iff in Hl. congruence. }
      constructor; [exact IH|].
      eapply Permutation_Forall; [symmetry; apply insert_ranked_perm|].
      constructor; assumption.
Qed.

Lemma sorted_by_magnitude_sorted l : StronglySorted by_magnitude (sorted_by_magnitude l).
Proof.
  induction l as [|x l IH]; simpl; [constructor|]. apply insert_ranked_sorted, IH.
Qed.

Lemma round_half_even_close (y : Q) :
  (Qabs (inject_Z (round_half_even y) - y) <= 1 # 2)%Q.
Proof.
  unfold round_half_even.
  pose proof (Qfloor_le y) as Hlo. pose proof (Qlt_floor y) as Hhi.
  rewrite inject_Z_plus in Hhi. change (inject_Z 1) with 1%Q in Hhi.
  apply Qabs_Qle_condition.
  destruct (Qcompare (y - inject_Z (Qfloor y)) (1 # 2)) eqn:Ec.
  - apply Qeq_alt in Ec.
    destruct (Z.even (Qfloor y));
      [|rewrite inject_Z_plus; change (inject_Z 1) with 1%Q]; split; lra.
  - apply Qlt_alt in Ec. split; lra.
  - apply Qgt_alt in Ec. rewrite inject_Z_plus. change (inject_Z 1) with 1%Q.
    split; lra.
Qed.

Lemma percentage_close total c :
  (Qabs (inject_Z (percentage total c) / 100 - c * 100 / total) <= 1 # 200)%Q.
Proof.
  unfold percentage, round2.
  pose proof (round_half_even_close (c * 100 / total * 100)) as H.
  apply Qabs_Qle_condition in H. apply Qabs_Qle_condition.
  set (k := inject_Z (round_half_even (c * 100 / total * 100))) in *.
  set (x := (c * 100 / total)%Q) in *.
  unfold Qdiv. change (/ 100)%Q with (1 # 100)%Q.
  destruct H as [H1 H2]. split; lra.
Qed.

Lemma share_magnitudes total coef :
  (0 < total)%Q ->
  (Qsum (map (fun c => Qabs (c * 100 / total)) coef) ==
   Qsum (map Qabs coef) * 100 / total)%Q.
Proof.
  intros Hpos. induction coef as [|c coef IH]; unfold Qsum in *; simpl.
  - field. lra.
  - rewrite IH.
    assert (Hc : (Qabs (c * 100 / total) == Qabs c * 100 / total)%Q).
    { unfold Qdiv. rewrite !Qabs_Qmult.
      rewrite (Qabs_pos 100) by lra.
      rewrite (Qabs_pos (/ total)); [reflexivity|].
      apply Qlt_le_weak, Qinv_lt_0_compat, Hpos. }
    rewrite Hc. field. lra.
Qed.

Lemma rounded_magnitudes total coef :
  (Qabs (Qsum (map (fun c => Qabs (inject_Z (percentage total c) / 100)) coef) -
         Qsum (map (fun c => Qabs (c * 100 / total)) coef)) <=
   inject_Z (Z.of_nat (length coef)) * (1 # 200))%Q.
Proof.
  induction coef as [|c coef IH]; unfold Qsum in *.
  - cbn [map fold_right length]. change (inject_Z (Z.of_nat 0)) with 0%Q.
    apply Qabs_Qle_condition. split; lra.
  - cbn [map fold_right length]. rewrite Nat2Z.inj_succ. unfold Z.succ.
    rewrite inject_Z_plus.
    pose proof (percentage_close total c) as Hc.
    apply Qabs_Qle_condition in IH. apply Qabs_Qle_condition in Hc.
    apply Qabs_Qle_condition.
    destruct IH as [IH1 IH2]. destruct Hc as [Hc1 Hc2].
    set (r := (inject_Z (percentage total c) / 100)%Q) in *.
    set (x := (c * 100 / total)%Q) in *.
    assert (Hd : (Qabs r - Qabs x <= 1 # 200 /\ Qabs x - Qabs r <= 1 # 200)%Q).
    { split.
      - apply (Qabs_case r); apply (Qabs_case x); intros; lra.
      - apply (Qabs_case r); apply (Qabs_case x); intros; lra. }
    change (inject_Z 1) with 1%Q. split; lra.
Qed.

(** Rounding keeps the order and commutes with the sign. *)

Lemma round_half_even_comp (x y : Q) : (x == y)%Q -> round_half_even x = round_half_even y.
Proof.
  intros E. unfold round_half_even.
  rewrite (Qfloor_comp _ _ E).
  assert (Ec : (x - inject_Z (Qfloor y) ?= 1 # 2)%Q = (y - inject_Z (Qfloor y) ?= 1 # 2)%Q)
    by (apply Qcompare_comp; [rewrite E|]; reflexivity).
  rewrite Ec. reflexivity.
Qed.

Lemma round_half_even_bounds (x : Q) :
  Qfloor x <= round_half_even x <= Qfloor x + 1.
Proof.
  unfold round_half_even.
  destruct (Qcompare (x - inject_Z (Qfloor x)) (1 # 2)); [destruct (Z.even (Qfloor x))| |];
    lia.
Qed.

Lemma round_half_even_mono (x y : Q) :
  (x <= y)%Q -> round_half_even x <= round_half_even y.
Proof.
  intros Hle.
  pose proof (Qfloor_resp_le _ _ Hle) as Hf.
  pose proof (round_half_even_bounds x) as Hx.
  pose proof (round_half_even_bounds y) as Hy.
  destruct (Z.eq_dec (Qfloor x) (Qfloor y)) as [E|Hne]; [|lia].
  clear Hx Hy. unfold round_half_even. rewrite <- E.
  destruct (Qcompare (x - inject_Z (Qfloor x)) (1 # 2)) eqn:Ex;
    [apply Qeq_alt in Ex | apply Qlt_alt in Ex | apply Qgt_alt in Ex];
    (destruct (Qcompare (y - inject_Z (Qfloor x)) (1 # 2)) eqn:Ey;
     [apply Qeq_alt in Ey | apply Qlt_alt in Ey | apply Qgt_alt in Ey]);
    try (destruct (Z.even (Qfloor x))); try lia; exfalso; lra.
Qed.

Lemma round_half_even_opp (x : Q) : round_half_even (- x) = - round_half_even x.
Proof.
  pose proof (Qfloor_le x) as Hlo. pose proof (Qlt_floor x) as Hhi.
  pose proof (Qfloor_le (- x)) as Hlo'. pose proof (Qlt_floor (- x)) as Hhi'.
  rewrite inject_Z_plus in Hhi, Hhi'. change (inject_Z 1) with 1%Q in Hhi, Hhi'.
  unfold round_half_even.
  generalize dependent (Qfloor (- x)). generalize dependent (Qfloor x).
  intros f Hlo Hhi g Hlo' Hhi'.
  assert (Hg : g = - f \/ g = - f - 1).
  { assert (H1 : (inject_Z f <= inject_Z (- g))%Q) by (rewrite inject_Z_opp; lra).
    assert (H2 : (inject_Z (- g) < inject_Z (f + 2))%Q).
    { rewrite inject_Z_opp, inject_Z_plus. change (inject_Z 2) with 2%Q. lra. }
    rewrite <- Zle_Qle in H1. rewrite <- Zlt_Qlt in H2. lia. }
  destruct Hg as [Hg|Hg]; subst g.
  - rewrite inject_Z_opp in *.
    assert (Ex : (x == inject_Z f)%Q) by lra.
    replace (Qcompare (x - inject_Z f) (1 # 2)) with Lt
      by (symmetry; apply (proj1 (Qlt_alt _ _)); lra).
    replace (Qcompare (- x - - inject_Z f) (1 # 2)) with Lt
      by (symmetry; apply (proj1 (Qlt_alt _ _)); lra).
    reflexivity.
  - assert (Hi : inject_Z (- f - 1) = (- inject_Z f - 1)%Q).
    { unfold Z.sub. rewrite inject_Z_plus, !inject_Z_opp. reflexivity. }
    rewrite Hi in *.
    destruct (Qcompare (x - inject_Z f) (1 # 2)) eqn:Ex;
      [apply Qeq_alt in Ex | apply Qlt_alt in Ex | apply Qgt_alt in Ex];
      (destruct (Qcompare (- x - (- inject_Z f - 1)) (1 # 2)) eqn:Ey;
       [apply Qeq_alt in Ey | apply Qlt_alt in Ey | apply Qgt_alt in Ey]);
      try (exfalso; lra); try lia.
    replace (- f - 1) with (- Z.succ f) by lia.
    rewrite Z.even_opp, Z.even_succ, <- Z.negb_even.
    destruct (Z.even f); simpl; lia.
Qed.

Lemma round_half_even_abs (x : Q) : Z.abs (round_half_even x) = round_half_even (Qabs x).
Proof.
  assert (Hnn : forall y : Q, (0 <= y)%Q -> 0 <= round_half_even y).
  { intros y Hy. pose proof (Qfloor_resp_le _ _ Hy) as Hf.
    change (Qfloor 0) with 0 in Hf. pose proof (round_half_even_bounds y). lia. }
  destruct (Qlt_le_dec x 0) as [Hneg|Hpos].
  - rewrite (round_half_even_comp (Qabs x) (- x)) by (apply Qabs_neg; lra).
    rewrite round_half_even_opp.
    pose proof (Hnn (- x)%Q ltac:(lra)) as H. rewrite round_half_even_opp in H. lia.
  - rewrite (round_half_even_comp (Qabs x) x) by (apply Qabs_pos; exact Hpos).
    pose proof (Hnn x Hpos). lia.
Qed.

Lemma percentage_abs total c :
  (0 < total)%Q ->
  Z.abs (percentage total c) = round_half_even (Qabs c * 100 / total * 100).
Proof.
  intros Hpos. unfold percentage, round2. rewrite round_half_even_abs.
  apply round_half_even_comp.
  unfold Qdiv. rewrite !Qabs_Qmult.
  rewrite (Qabs_pos 100) by lra.
  rewrite (Qabs_pos (/ total)); [reflexivity|].
  apply Qlt_le_weak, Qinv_lt_0_compat, Hpos.
Qed.

Lemma percentage_mono total c1 c2 :
  (0 < total)%Q -> (Qabs c1 <= Qabs c2)%Q ->
  Z.abs (percentage total c1) <= Z.abs (percentage total c2).
Proof.
  intros Hpos Hle. rewrite !percentage_abs by exact Hpos.
  apply round_half_even_mono.
  assert (Hinv : (0 < / total)%Q) by (apply Qinv_lt_0_compat, Hpos).
  unfold Qdiv. repeat apply Qmult_le_compat_r; try lra; try exact Hle.
Qed.

Lemma percentage_sign total c :
  (0 < total)%Q ->
  (percentage total c < 0 -> (c < 0)%Q) /\ (0 < percentage total c -> (0 < c)%Q).
Proof.
  intros Hpos.
  assert (Hinv : (0 < / total)%Q) by (apply Qinv_lt_0_compat, Hpos).
  assert (Hnn : forall y : Q, (0 <= y)%Q -> 0 <= round_half_even y).
  { intros y Hy. pose proof (Qfloor_resp_le _ _ Hy) as Hf.
    change (Qfloor 0) with 0 in Hf. pose proof (round_half_even_bounds y). lia. }
  unfold percentage, round2. split; intros H.
  - destruct (Qlt_le_dec c 0) as [Hc|Hc]; [exact Hc|]. exfalso.
    assert (Hy : (0 <= c * 100 / total * 100)%Q).
    { unfold Qdiv. repeat apply Qmult_le_0_compat; lra. }
    apply Hnn in Hy. lia.
  - destruct (Qlt_le_dec 0 c) as [Hc|Hc]; [exact Hc|]. exfalso.
    assert (Hy : (c * 100 / total * 100 <= 0)%Q).
    { assert (E : (0 * 100 * / total * 100 == 0)%Q) by ring.
      rewrite <- E. unfold Qdiv. repeat apply Qmult_le_compat_r; lra. }
    apply round_half_even_mono in Hy. change (round_half_even 0) with 0 in Hy. lia.
Qed.

Lemma is_negative_spec (q : Q) : is_negative q = true <-> (q < 0)%Q.
Proof.
  unfold is_negative. destruct (Qcompare q 0) eqn:E.
  - apply Qeq_alt in E. split; [discriminate | lra].
  - apply Qlt_alt in E. tauto.
  - apply Qgt_alt in E. split; [discriminate | lra].
Qed.

Lemma reported_sorted total l :
  (0 < total)%Q ->
  StronglySorted by_magnitude l ->
  StronglySorted by_reported_magnitude (map (reported total) l).
Proof.
  intros Hpos. induction 1 as [|x l Hs IH Hx]; simpl; constructor; [exact IH|].
  apply List.Forall_map. eapply Forall_impl; [exact Hx|].
  intros y Hy. unfold by_reported_magnitude, reported. simpl.
  apply percentage_mono; [exact Hpos | exact Hy].
Qed.

Lemma reported_signs total l :
  (0 < total)%Q ->
  Forall (fun r : string * (bool * Z) =>
            (snd (snd r) < 0 -> fst (snd r) = true) /\
            (0 < snd (snd r) -> fst (snd r) = false))
    (map (reported total) l).
Proof.
  intros Hpos. apply List.Forall_map, List.Forall_forall. intros [c label] _.
  unfold reported. simpl.
  destruct (percentage_sign total (value_of c) Hpos) as [Hn Hp].
  split; intros H.
  - apply Hn in H. destruct c as [q|]; simpl in *; [apply is_negative_spec; exact H | reflexivity].
  - apply Hp in H. destruct c as [q|]; simpl in *; [|lra].
    destruct (is_negative q) eqn:E; [|reflexivity].
    apply is_negative_spec in E. lra.
Qed.


(** ** The samples, evaluated *)

(** Scenario B of the specification: the reference [b] resolves to
    index 1 and the dimension lists the three indices. *)
Example sample_mode_space :
  let r := build_space (init_world [sample_mode] None) in
  fst r = Ok [DItems [VInt 0; VInt 1; VInt 2]] /\ ref (snd r) = [VInt 1].
Proof. vm_compute. split; reflexivity. Qed.

(** C1 on the code.  One knob whose options repeat the reference gives
    one dimension and two reference entries. *)
Theorem repeated_option_two_references :
  let r := build_space (init_world [sample_repeated] None) in
  fst r = Ok [DItems [VInt 0; VInt 1]] /\
  ref (snd r) = [VInt 0; VInt 1] /\
  length (knobs (snd r)) = 1%nat.
Proof. vm_compute. repeat split; reflexivity. Qed.

(** C5 on the code.  A continuous knob of a dtype other than [int] and
    [float] is not refused with a [ValueError]: alone, reading the
    unassigned [ref_value] raises [UnboundLocalError], which [run]
    reports as an unexpected error; behind another continuous knob, the
    build succeeds and takes that knob's reference value (5, not the 7
    declared). *)
Theorem continuous_dtype_not_checked :
  fst (build_space (init_world [sample_untyped] None)) =
    Raise (UnboundLocalError "ref_value") /\
  (let r := run (sample_env "1" [VInt 3]) (init_settings "random" 3 None None)
              (init_world [sample_untyped] None) in
   fst r = Ok None /\
   trace (snd r) = [Send (MUnexpected (UnboundLocalError "ref_value"))]) /\
  (let r := build_space (init_world [sample_x; sample_untyped] None) in
   fst r = Ok [DInterval (VInt 0) (VInt 10); DInterval (VInt 0) (VInt 10)] /\
   ref (snd r) = [VInt 5; VInt 5]).
Proof. vm_compute. repeat split; reflexivity. Qed.

(** A [random] run over [sample_x] that returns the parameters. *)
Example random_run_final_message :
  exists (rank : string) (labels : list value),
    get_ensemble_feature_importance (sample_env "1.5,2" [VInt 3])
      (options (snd (run (sample_env "1.5,2" [VInt 3]) sample_random
                       (init_world [sample_x] None))))
      (performance (snd (run (sample_env "1.5,2" [VInt 3]) sample_random
                           (init_world [sample_x] None))))
      labels = Ok rank /\
    last (trace (snd (run (sample_env "1.5,2" [VInt 3]) sample_random
                        (init_world [sample_x] None)))) =
    Some (Send (MDict (<["param" := FParams [(VStr "x", VInt 3)]]>
                       (<["rank" := FRank rank]> {[ "finished" := FBool true ]})))).
Proof.
  apply (final_message (sample_env "1.5,2" [VInt 3]) sample_random [sample_x] None
           [(VStr "x", VInt 3)]).
  vm_compute. reflexivity.
Qed.

(** C2 on the code.  Under the [abtest] and under the [lhs] engine, over
    one knob, the search completes: the manager runs its trial over the
    channel and hands over its best parameters, and the [try] block ends
    without an exception.  The code after the [try] then reads [ret],
    which only the [random] and the [bayes] branch assign: [run] ends in
    [UnboundLocalError], outside every [except] clause.  The last event
    on the channel is the harness's reply: no message with [finished] is
    sent and the feature selector is not called. *)
Theorem delegated_search_never_reports :
  (let r := run sample_managers sample_abtest (init_world [sample_x] None) in
   fst (search sample_managers sample_abtest (init_world [sample_x] None)) =
     Ok (FellThrough None) /\
   fst r = Raise (UnboundLocalError "ret") /\
   trace (snd r) =
     [CallABTest 5; Send (MDict {[ "param" := FParams [(VStr "x", VInt 3)] ]}); Recv "1.5"] /\
   params (snd r) = [(VStr "x", VInt 3)]) /\
  (let r := run sample_managers sample_lhs (init_world [sample_x] None) in
   fst (search sample_managers sample_lhs (init_world [sample_x] None)) =
     Ok (FellThrough None) /\
   fst r = Raise (UnboundLocalError "ret") /\
   trace (snd r) =
     [CallLHS 3 5; Send (MDict {[ "param" := FParams [(VStr "x", VInt 3)] ]}); Recv "1.5"] /\
   params (snd r) = [(VStr "x", VInt 3)]).
Proof. vm_compute. repeat split; reflexivity. Qed.

(** C3 as stated fails: one warm-start vector against a configured
    count of 20 leaves 20 random starts, not 19. *)
Lemma random_starts_one_more :
  head (trace (snd (run (sample_env "1.5" [VInt 3]) sample_warm
                      (init_world [sample_x] (Some 20))))) =
    Some (CallGpMinimize [DInterval (VInt 0) (VInt 10)] 3 20 [VList [VInt 5]]
            (Some [FFin (123 # 100)])) /\
  Z.max 0 (20 - 1) = 19.
Proof. vm_compute. split; reflexivity. Qed.

Lemma random_starts_adjusted_witness :
  length [VList [VInt 5]] = length [["x=5"]] /\
  n_random_starts (snd (prepare sample_warm (init_world [sample_x] (Some 20)))) = 20 /\
  0 <= 20 /\
  (engine sample_warm = "bayes" ->
   head (trace (snd (run (sample_env "1.5" [VInt 3]) sample_warm
                       (init_world [sample_x] (Some 20))))) =
   Some (CallGpMinimize [DInterval (VInt 0) (VInt 10)] (max_eval sample_warm) 20
           [VList [VInt 5]] (Some [FFin (123 # 100)]))).
Proof.
  apply (random_starts_adjusted (sample_env "1.5" [VInt 3]) sample_warm [sample_x] 20
           [["x=5"]] [VFloat (FFin (123 # 100))]
           [DInterval (VInt 0) (VInt 10)] [VList [VInt 5]] (Some [FFin (123 # 100)])
           (snd (prepare sample_warm (init_world [sample_x] (Some 20))))).
  - reflexivity.
  - reflexivity.
  - discriminate.
  - vm_compute. reflexivity.
Defined.



(** C6 as stated fails: the one knob name appears exactly once, and
    [transfer] still fails, the value not being an integer literal. *)
Lemma transfer_refuses_text :
  map token_pair ["x=abc"] = [Some ("x", "abc")] /\
  fst (transfer (init_settings "bayes" 3 (Some [["x=abc"]]) (Some [VInt 1]))
         (init_world [sample_x] None)) =
  Raise (ValueError "invalid literal for int() with base 10: {}" [VStr "abc"]).
Proof. vm_compute. split; reflexivity. Qed.

Lemma transfer_vectors_witness :
  transfer sample_two (init_world [sample_x; sample_mode] None) =
  (Ok ([[VInt 7; VInt 2]], [FFin (3 # 2)]), init_world [sample_x; sample_mode] None).
Proof.
  apply (proj2 (transfer_vectors sample_two (init_world [sample_x; sample_mode] None)
                  [["mode=c"; "x=7"]] [VStr "1.5"] eq_refl eq_refl)
           [[VInt 7; VInt 2]] [FFin (3 # 2)]).
  - vm_compute. reflexivity.
  - vm_compute. reflexivity.
Defined.

(** C7 as stated fails: [0.5] is a float literal, and the warm-start
    value [0.5] of a float knob is refused. *)
Lemma float_value_refused :
  float_of_string "0.5" = Some (FFin (1 # 2)) /\
  fst (_get_intvalue_from_knobs {[ "ratio" := "0.5" ]} (init_world [sample_ratio] None)) =
  Raise (ValueError "invalid literal for int() with base 10: {}" [VStr "0.5"]).
Proof. vm_compute. split; reflexivity. Qed.

Lemma warm_start_value_encoding_witness :
  intvalue_of_knob {[ "x" := "7" ]} [] 0 (init_world [sample_x; sample_mode] None) =
    (Ok [VInt 7], init_world [sample_x; sample_mode] None) /\
  [VStr "a"; VStr "b"; VStr "c"] !! 2%nat = Some (VStr "c") /\
  intvalue_of_knob {[ "mode" := "c" ]} [VInt 7] 1 (init_world [sample_x; sample_mode] None) =
    (Ok [VInt 7; VInt 2], init_world [sample_x; sample_mode] None).
Proof.
  split.
  - refine (proj1 (warm_start_value_encoding {[ "x" := "7" ]} [] 0
                     (init_world [sample_x; sample_mode] None) sample_x "x" "7" (VStr "int")
                     _ _ _ _) _); vm_compute; reflexivity.
  - refine (proj2 (warm_start_value_encoding {[ "mode" := "c" ]} [VInt 7] 1
                     (init_world [sample_x; sample_mode] None) sample_mode "mode" "c"
                     (VStr "string") _ _ _ _) _
              (VList [VStr "a"; VStr "b"; VStr "c"]) [VStr "a"; VStr "b"; VStr "c"] 2%nat
              _ _ _); vm_compute; reflexivity.
Defined.

(** C8 as stated fails: the reply [1.5,abc] ends the run with the
    [ValueError] itself on the channel, not with the message of the
    [except Exception] clause. *)
Lemma malformed_result_is_value_error :
  let r := run (sample_env "1.5,abc" [VInt 3]) sample_random (init_world [sample_x] None) in
  fst r = Ok None /\
  trace (snd r) =
  [CallDummyMinimize [DInterval (VInt 0) (VInt 10)] 3;
   Send (MDict {[ "param" := FParams [(VStr "x", VInt 3)] ]});
   Recv "1.5,abc";
   Send (MExn (ValueError "could not convert string to float: {}" [VStr "abc"]))].
Proof. vm_compute. split; reflexivity. Qed.

Lemma malformed_result_aborts_witness :
  exists (part : string) (t : list event),
    In part (split "1.5,abc" ",") /\ float_of_string part = None /\
    run (sample_env "1.5,abc" [VInt 3]) sample_random (init_world [sample_x] None) =
      (Ok None,
       snd (send (MExn (ValueError "could not convert string to float: {}" [VStr part]))
              (snd (exchange (sample_env "1.5,abc" [VInt 3]) [VInt 3]
                      (snd (log (CallDummyMinimize [DInterval (VInt 0) (VInt 10)] 3)
                              (snd (prepare sample_random
                                      (init_world [sample_x] None))))))))) /\
    trace (snd (exchange (sample_env "1.5,abc" [VInt 3]) [VInt 3]
                  (snd (log (CallDummyMinimize [DInterval (VInt 0) (VInt 10)] 3)
                          (snd (prepare sample_random (init_world [sample_x] None)))))))
      = trace (init_world [sample_x] None) ++ t /\
    Forall (fun e => is_search_event e = true) t.
Proof.
  apply (malformed_result_aborts (sample_env "1.5,abc" [VInt 3]) sample_random
           (init_world [sample_x] None)
           [DInterval (VInt 0) (VInt 10)] [VList [VInt 5]] None
           (snd (prepare sample_random (init_world [sample_x] None)))
           (CallDummyMinimize [DInterval (VInt 0) (VInt 10)] 3)
           (Evaluate [VInt 3] (fun _ => Finish [VInt 3]))
           [VInt 3]
           (snd (log (CallDummyMinimize [DInterval (VInt 0) (VInt 10)] 3)
                   (snd (prepare sample_random (init_world [sample_x] None)))))
           "1.5,abc").
  - vm_compute. reflexivity.
  - left. repeat split; reflexivity.
  - apply reaches_now.
  - vm_compute. reflexivity.
  - exists "abc". split; [right; left; reflexivity | reflexivity].
Defined.

Lemma discrete_string_reference_witness :
  handle_discrete_data 0 (init_world [sample_repeated] None) =
  (Ok [VInt 0; VInt 1], with_ref (init_world [sample_repeated] None) [VInt 0; VInt 1]).
Proof.
  apply (discrete_string_reference (init_world [sample_repeated] None) 0 sample_repeated
           (VList [VStr "a"; VStr "a"]) [VStr "a"; VStr "a"] (VStr "a") (VStr "mode"));
    reflexivity.
Defined.

(** ** The length of the space and of the reference vector *)

Lemma same_ref_refl w : ref w = ref w.
Proof. reflexivity. Qed.

Lemma same_ref_trans w1 w2 w3 : ref w2 = ref w1 -> ref w3 = ref w2 -> ref w3 = ref w1.
Proof. congruence. Qed.

Ltac same_ref_tac :=
  steps_with same_ref_refl same_ref_trans ltac:(solve [ intros ?; reflexivity ]).

Lemma adds_of_steps {A : Type} (c : M A) :
  steps (fun w w' => ref w' = ref w) c -> adds 0 c.
Proof. intros Hc w a w' E. specialize (Hc w). rewrite E in Hc. simpl in Hc. rewrite Hc. lia. Qed.

Lemma adds_raise {A : Type} k e : adds k (@raise A e).
Proof. intros w a w' E. discriminate E. Qed.

Lemma adds_bind_0 {A B : Type} k (c : M A) (f : A -> M B) :
  adds 0 c -> (forall a, adds k (f a)) -> adds k (c ≫= f).
Proof.
  intros Hc Hf w b w' E. bind_inv E.
  apply Hc in E0. apply Hf in E. lia.
Qed.

Lemma adds_bind_then_0 {A B : Type} k (c : M A) (f : A -> M B) :
  adds k c -> (forall a, adds 0 (f a)) -> adds k (c ≫= f).
Proof.
  intros Hc Hf w b w' E. bind_inv E.
  apply Hc in E0. apply Hf in E. lia.
Qed.

Lemma adds_ref_append v : adds 1 (ref_append v).
Proof. intros w a w' E. inversion E. simpl. apply length_app. Qed.

Lemma candidate_items_ref i d small plus :
  steps (fun w w' => ref w' = ref w) (candidate_items i d small plus).
Proof. unfold candidate_items, extend_from_pair. same_ref_tac. Qed.

Lemma coerce_bounds_ref i conv r :
  steps (fun w w' => ref w' = ref w) (coerce_bounds i conv r).
Proof. unfold coerce_bounds. same_ref_tac. Qed.

(** Peels the steps that leave [self.ref] alone off a computation. *)
Ltac adds_zero :=
  apply adds_of_steps;
  first [ apply candidate_items_ref | apply coerce_bounds_ref | idtac ];
  same_ref_tac;
  first [ apply candidate_items_ref | apply coerce_bounds_ref ].

Lemma handle_discrete_int_adds i : adds 1 (handle_discrete_int i).
Proof.
  unfold handle_discrete_int.
  apply adds_bind_0; [adds_zero | intros items].
  apply adds_bind_0; [adds_zero | intros z].
  apply adds_bind_then_0; [apply adds_ref_append | intros; adds_zero].
Qed.

Lemma handle_discrete_float_adds i : adds 1 (handle_discrete_float i).
Proof.
  unfold handle_discrete_float.
  apply adds_bind_0; [adds_zero | intros items].
  apply adds_bind_0; [adds_zero | intros z].
  apply adds_bind_then_0; [apply adds_ref_append | intros; adds_zero].
Qed.

Lemma continuous_dimension_adds i rv : adds 1 (continuous_dimension i rv).
Proof.
  unfold continuous_dimension.
  apply adds_bind_0; [adds_zero | intros r_range].
  apply adds_bind_0; [adds_zero | intros wrong].
  destruct wrong.
  { apply adds_bind_0; [adds_zero | intros; apply adds_raise]. }
  apply adds_bind_0; [adds_zero | intros dtype].
  apply adds_bind_0; [adds_zero | intros ref_value].
  apply adds_bind_0; [adds_zero | intros v].
  apply adds_bind_0; [adds_zero | intros r_range'].
  apply adds_bind_0; [adds_zero | intros low].
  apply adds_bind_0; [adds_zero | intros below].
  apply adds_bind_0; [adds_zero | intros outside].
  destruct outside.
  { apply adds_bind_0; [adds_zero | intros; apply adds_raise]. }
  apply adds_bind_then_0; [apply adds_ref_append | intros; adds_zero].
Qed.

Lemma reference_loop_no_ref i p (l : list (nat * value)) keys w :
  knobs w !! i = Some p -> p !! "ref" = None -> l <> [] ->
  for_each l
    (fun keys '(key, value) =>
       r ← get_field i "ref";
       (if py_eq r value then ref_append (VInt (Z.of_nat key)) else ret tt);;
       ret (keys ++ [VInt (Z.of_nat key)]))
    keys w = (Raise (KeyError "ref"), w).
Proof.
  intros Hk Hr Hl. destruct l as [|[k v] l]; [congruence|]. simpl.
  rewrite bind_unfold, bind_unfold, (get_field_missing _ _ _ _ Hk Hr). reflexivity.
Qed.

Lemma handle_discrete_string_adds i w p keys w' :
  knobs w !! i = Some p ->
  p !! "type" = Some (VStr "discrete") ->
  p !! "dtype" = Some (VStr "string") ->
  handle_discrete_string i w = (Ok keys, w') ->
  length (ref w') = (length (ref w) + reference_entries p)%nat.
Proof.
  intros Hk Ht Hd H. unfold reference_entries. rewrite Ht, Hd.
  change (py_eq (VStr "discrete") (VStr "discrete") && py_eq (VStr "string") (VStr "string"))
    with true. cbv iota.
  unfold handle_discrete_string in H.
  destruct (p !! "options") as [opts|] eqn:Eo;
    [| rewrite bind_unfold, (get_field_missing _ _ _ _ Hk Eo) in H; discriminate H].
  rewrite bind_unfold, (get_field_Ok _ _ _ _ _ Hk Eo), get_world_bind, bind_unfold in H.
  unfold lift in H.
  destruct (py_iter opts) as [elements|e]; [|discriminate H]. rewrite bind_unfold in H.
  destruct (p !! "ref") as [r|] eqn:Er.
  - rewrite (reference_loop i p r _ _ _ Hk Er), get_world_bind, ref_with_ref in H.
    destruct (length (ref w ++ _) =? length (ref w))%nat in H.
    + bind_inv H. discriminate H.
    + apply ret_inv in H as [_ ->]. rewrite ref_with_ref, length_app.
      unfold index_values, positions. rewrite !length_map. reflexivity.
  - destruct (enumerate elements) as [|kv l] eqn:El.
    + simpl in H. rewrite get_world_bind, Nat.eqb_refl in H. bind_inv H. discriminate H.
    + rewrite (reference_loop_no_ref i p (kv :: l) [] w Hk Er) in H by discriminate.
      discriminate H.
Qed.

Lemma build_knob_counts opl rv i w opl' rv' w' p :
  knobs w !! i = Some p ->
  build_knob (opl, rv) i w = (Ok (opl', rv'), w') ->
  length opl' = S (length opl) /\
  length (ref w') = (length (ref w) + reference_entries p)%nat.
Proof.
  intros Hk H. unfold build_knob in H.
  destruct (p !! "type") as [type|] eqn:Et;
    [| rewrite bind_unfold, (get_field_missing _ _ _ _ Hk Et) in H; discriminate H].
  rewrite bind_unfold, (get_field_Ok _ _ _ _ _ Hk Et) in H.
  destruct (py_eq type (VStr "discrete")) eqn:Edisc.
  - apply py_eq_str in Edisc. subst type.
    bind_inv H. apply ret_inv in H as [H ->]. injection H as -> ->.
    split; [rewrite length_app; simpl; lia|].
    unfold handle_discrete_data in E.
    destruct (p !! "dtype") as [dtype|] eqn:Ed;
      [| rewrite bind_unfold, (get_field_missing _ _ _ _ Hk Ed) in E; discriminate E].
    rewrite bind_unfold, (get_field_Ok _ _ _ _ _ Hk Ed) in E.
    assert (Hone : py_eq dtype (VStr "string") = false -> reference_entries p = 1%nat).
    { intros Hs. unfold reference_entries. rewrite Et, Ed, Hs, andb_false_r.
      destruct (p !! "options"); [destruct (p !! "ref")|]; reflexivity. }
    destruct (py_eq dtype (VStr "int")) eqn:Eint.
    { apply py_eq_str in Eint. subst dtype. rewrite Hone by reflexivity.
      apply (handle_discrete_int_adds i _ _ _ E). }
    destruct (py_eq dtype (VStr "float")) eqn:Efloat.
    { apply py_eq_str in Efloat. subst dtype. rewrite Hone by reflexivity.
      apply (handle_discrete_float_adds i _ _ _ E). }
    destruct (py_eq dtype (VStr "string")) eqn:Estr.
    { apply py_eq_str in Estr. subst dtype.
      apply (handle_discrete_string_adds i w p a w0 Hk Et Ed E). }
    bind_inv E. discriminate E.
  - assert (Hone : reference_entries p = 1%nat).
    { unfold reference_entries. rewrite Et, Edisc.
      destruct (p !! "dtype"); [destruct (p !! "options"); [destruct (p !! "ref")|]|];
        reflexivity. }
    rewrite Hone.
    destruct (py_eq type (VStr "continuous")).
    + bind_inv H. destruct a as [dim rv1].
      apply ret_inv in H as [H ->]. injection H as -> ->.
      split; [rewrite length_app; simpl; lia|].
      apply (continuous_dimension_adds i rv _ _ _ E).
    + bind_inv H. discriminate H.
Qed.

Lemma build_knob_descriptors locals i : steps same_descriptors (build_knob locals i).
Proof.
  unfold build_knob, continuous_dimension, coerce_bounds. destruct locals. descriptors_tac.
Qed.

Lemma reference_entries_same w w' :
  same_descriptors w w' -> map reference_entries (knobs w') = map reference_entries (knobs w).
Proof.
  intros [Hlen Hkeys]. apply list_eq. intros i. rewrite !list_lookup_fmap.
  pose proof (Hkeys i "type") as Ht. pose proof (Hkeys i "dtype") as Hd.
  pose proof (Hkeys i "options") as Ho. pose proof (Hkeys i "ref") as Hr.
  destruct (knobs w' !! i) as [p'|] eqn:E'; destruct (knobs w !! i) as [p|] eqn:E; simpl in *.
  - unfold reference_entries.
    rewrite Ht, Hd, Ho, Hr by discriminate. reflexivity.
  - apply lookup_lt_Some in E'. apply lookup_ge_None in E. lia.
  - apply lookup_lt_Some in E. apply lookup_ge_None in E'. lia.
  - reflexivity.
Qed.

Lemma build_knobs_count n : forall s locals w locals' w',
  (s + n <= length (knobs w))%nat ->
  for_each (seq s n) build_knob locals w = (Ok locals', w') ->
  length (fst locals') = (length (fst locals) + n)%nat /\
  length (ref w') =
    (length (ref w) + sum_list (map reference_entries (take n (drop s (knobs w)))))%nat.
Proof.
  induction n as [|n IH]; intros s locals w locals' w' Hs H; simpl in H.
  - apply ret_inv in H as [H ->]. injection H as <-. simpl. lia.
  - bind_inv H. destruct locals as [opl rv]. destruct a as [opl1 rv1].
    destruct (knobs w !! s) as [p|] eqn:Ek;
      [| apply lookup_ge_None in Ek; lia].
    destruct (build_knob_counts _ _ _ _ _ _ _ _ Ek E) as [Hl Hr].
    pose proof (build_knob_descriptors (opl, rv) s w) as Hd. rewrite E in Hd. simpl in Hd.
    pose proof (reference_entries_same _ _ Hd) as Hsame.
    destruct Hd as [Hlen _].
    apply IH in H; [|lia]. destruct H as [Hl' Hr']. simpl in *.
    split; [lia|]. rewrite Hr', Hr.
    rewrite (drop_S _ _ _ Ek). simpl.
    rewrite <- !firstn_map, <- !skipn_map, Hsame. simpl. lia.
Qed.

(** X1.  When [build_space] succeeds it has produced one dimension per
    knob, and it has appended to [self.ref] one entry per knob, except
    that a discrete knob of dtype [string] gets one entry per option
    equal to its [ref]. *)
Theorem build_space_counts w dims w' :
  build_space w = (Ok dims, w') ->
  length dims = length (knobs w) /\
  length (ref w') = (length (ref w) + sum_list (map reference_entries (knobs w)))%nat.
Proof.
  unfold build_space. rewrite get_world_bind. intros H.
  bind_inv H. destruct a as [opl rv]. apply ret_inv in H as [H ->]. injection H as ->.
  apply build_knobs_count in E; [|simpl; lia].
  simpl in E. rewrite firstn_all in E. exact E.
Qed.

Lemma build_space_counts_witness :
  length [DInterval (VInt 0) (VInt 10); DItems [VInt 0; VInt 1]] =
    length (knobs (init_world [sample_x; sample_repeated] None)) /\
  length (ref (snd (build_space (init_world [sample_x; sample_repeated] None)))) =
    (length (ref (init_world [sample_x; sample_repeated] None)) +
     sum_list (map reference_entries
                 (knobs (init_world [sample_x; sample_repeated] None))))%nat.
Proof.
  apply (build_space_counts (init_world [sample_x; sample_repeated] None)
           [DInterval (VInt 0) (VInt 10); DItems [VInt 0; VInt 1]]
           (snd (build_space (init_world [sample_x; sample_repeated] None)))).
  vm_compute. reflexivity.
Defined.

(** ** Failures before and after the search *)

(** X2.  When [build_space] raises, [run] sends the error and nothing
    else: the exception itself for a [ValueError] or a [RuntimeError],
    the wrapped one otherwise; no request has gone out, and [run]
    returns [None]. *)
Theorem failed_build_reported env cfg w e w1 :
  build_space w = (Raise e, w1) ->
  fst (run env cfg w) = Ok None /\
  trace (snd (run env cfg w)) =
    trace w ++
    [Send (match e with
           | ValueError _ _ | RuntimeError _ => MExn e
           | _ => MUnexpected e
           end)].
Proof.
  intros H.
  pose proof (build_space_history (fun _ => False) w) as Hq.
  apply only_nothing in Hq. rewrite H in Hq. simpl in Hq.
  unfold run, search, prepare. rewrite bind_unfold, bind_unfold, H.
  unfold handle, send. destruct e; simpl; rewrite Hq; split; reflexivity.
Qed.

Lemma failed_build_reported_witness :
  fst (run (sample_env "1" [VInt 3]) sample_random (init_world [sample_untyped] None)) =
    Ok None /\
  trace (snd (run (sample_env "1" [VInt 3]) sample_random
                (init_world [sample_untyped] None))) =
    trace (init_world [sample_untyped] None) ++
    [Send (MUnexpected (UnboundLocalError "ref_value"))].
Proof.
  apply (failed_build_reported (sample_env "1" [VInt 3]) sample_random
           (init_world [sample_untyped] None) (UnboundLocalError "ref_value")
           (snd (build_space (init_world [sample_untyped] None)))).
  vm_compute. reflexivity.
Defined.

Lemma assign_param_unassigned i w :
  exists e w', assign_param i (raise (UnboundLocalError "ret")) w = (Raise e, w').
Proof.
  unfold assign_param. rewrite bind_unfold.
  destruct (get_field i "dtype" w) as [[dtype|e] w1]; [|eauto].
  rewrite bind_unfold. destruct (py_eq dtype (VStr "string")).
  - rewrite bind_unfold. destruct (get_field i "options" w1) as [[opts|e] w2]; [|eauto].
    rewrite bind_unfold. simpl. eauto.
  - simpl. eauto.
Qed.

Lemma report_unassigned env w :
  knobs w <> [] -> exists e w', report env None w = (Raise e, w').
Proof.
  intros Hk. unfold report. rewrite get_world_bind.
  destruct (knobs w) as [|p ks] eqn:E; [congruence|]. simpl length. simpl seq.
  simpl for_each. rewrite bind_unfold, bind_unfold, bind_unfold.
  destruct (assign_param_unassigned 0 w) as [e [w' He]]. rewrite He. eauto.
Qed.

Lemma dispatch_unassigned env cfg space ref_x ref_y w ret_x w' :
  String.eqb (engine cfg) "random" = false ->
  String.eqb (engine cfg) "bayes" = false ->
  dispatch env cfg space ref_x ref_y w = (Ok (FellThrough ret_x), w') ->
  ret_x = None.
Proof.
  intros Hr Hb. unfold dispatch. rewrite get_world_bind, Hr, Hb. intros H.
  destruct (String.eqb (engine cfg) "abtest").
  { bind_inv H. bind_inv H. destruct a0 as [opts perf]. repeat bind_inv H.
    apply ret_inv in H as [H _]. injection H as <-. reflexivity. }
  destruct (String.eqb (engine cfg) "lhs").
  { repeat bind_inv H. apply ret_inv in H as [H _]. injection H as <-. reflexivity. }
  destruct (String.eqb (engine cfg) "tpe").
  { repeat bind_inv H. apply ret_inv in H as [H _]. discriminate H. }
  apply ret_inv in H as [H _]. injection H as <-. reflexivity.
Qed.

(** X3.  Under an engine other than [random], [bayes] and [tpe], so
    under [abtest] and [lhs], a run over at least one knob never returns
    the parameters: no branch assigns [ret], which the code after the
    [try] reads for the first knob.  The run ends in an error message or
    in an exception that leaves [run]. *)
Theorem delegating_engine_no_result env cfg w :
  String.eqb (engine cfg) "random" = false ->
  String.eqb (engine cfg) "bayes" = false ->
  String.eqb (engine cfg) "tpe" = false ->
  knobs w <> [] ->
  fst (run env cfg w) = Ok None \/ exists e, fst (run env cfg w) = Raise e.
Proof.
  intros Hr Hb Ht Hk. unfold run.
  destruct (search env cfg w) as [[[ret_x|best]|e] w1] eqn:Es.
  - right.
    assert (Hd : same_descriptors w w1).
    { pose proof (prepare_descriptors cfg w) as Hp.
      apply search_inv in Es as (space & ref_x & ref_y & w0 & Ep & Ed).
      rewrite Ep in Hp. simpl in Hp.
      pose proof (dispatch_descriptors env cfg space ref_x ref_y w0) as Hq.
      rewrite Ed in Hq. simpl in Hq.
      eapply same_descriptors_trans; eassumption. }
    apply search_inv in Es as (space & ref_x & ref_y & w0 & _ & Ed).
    apply dispatch_unassigned in Ed; [|assumption..]. subst ret_x.
    destruct (report_unassigned env w1) as [e [w' He]].
    + destruct Hd as [Hlen _]. intros Hnil. rewrite Hnil in Hlen.
      destruct (knobs w); [congruence | discriminate Hlen].
    + exists e. rewrite He. reflexivity.
  - exfalso. apply search_inv in Es as (space & ref_x & ref_y & w0 & _ & Ed).
    apply dispatch_returned_early in Ed as [Etpe _]. rewrite Etpe in Ht. discriminate Ht.
  - left. unfold handle, send. destruct e; reflexivity.
Qed.

Lemma delegating_engine_no_result_witness :
  fst (run (sample_env "1" [VInt 3]) sample_abtest (init_world [sample_x] None)) = Ok None \/
  exists e,
    fst (run (sample_env "1" [VInt 3]) sample_abtest (init_world [sample_x] None)) = Raise e.
Proof.
  apply (delegating_engine_no_result (sample_env "1" [VInt 3]) sample_abtest
           (init_world [sample_x] None)); [reflexivity..|discriminate].
Defined.

(** ** A continuous int knob *)

Lemma get_field_set_field i key v w p :
  knobs w !! i = Some p ->
  knobs (snd (set_field i key v w)) !! i = Some (<[key := v]> p).
Proof. intros Hk. simpl. rewrite list_lookup_alter_eq, Hk. reflexivity. Qed.

Lemma set_field_unfold i key v w :
  set_field i key v w =
  (Ok tt, World (alter (<[key := v]>) i (knobs w)) (ref w) (n_random_starts w)
            (params w) (options w) (performance w) (trace w)).
Proof. reflexivity. Qed.

Lemma coerce_bounds_int i w p a b rv r lo hi :
  knobs w !! i = Some p ->
  p !! "ref" = Some rv -> py_int rv = Ok r ->
  py_int a = Ok lo -> py_int b = Ok hi ->
  exists w2,
    coerce_bounds i conv_int (VList [a; b]) w = (Ok (VInt r), w2) /\
    ref w2 = ref w /\
    exists p2, knobs w2 !! i = Some p2 /\
      p2 !! "range" = Some (VList [VInt lo; VInt hi]) /\
      (forall key, key <> "range" -> p2 !! key = p !! key).
Proof.
  intros Hk Hr Hir Ha Hb. unfold coerce_bounds.
  rewrite bind_unfold, (get_field_Ok _ _ _ _ _ Hk Hr). cbv beta iota.
  unfold conv_int, lift. rewrite bind_unfold, Hir. cbn [rbind]. cbv beta iota.
  rewrite bind_unfold. cbn [py_getitem py_iter rbind lookup list_lookup]. cbv beta iota.
  rewrite bind_unfold, Ha. cbn [rbind]. cbv beta iota.
  rewrite bind_unfold. cbn [py_setitem length Nat.ltb Nat.leb]. cbv beta iota.
  rewrite bind_unfold, set_field_unfold. cbv beta iota.
  rewrite bind_unfold. cbn [insert list_insert py_getitem py_iter rbind lookup list_lookup].
  cbv beta iota.
  rewrite bind_unfold, Hb. cbn [rbind]. cbv beta iota.
  rewrite bind_unfold. cbn [py_setitem length Nat.ltb Nat.leb]. cbv beta iota.
  rewrite bind_unfold, set_field_unfold. cbv beta iota.
  eexists. split; [reflexivity|]. split; [reflexivity|].
  cbn [knobs]. rewrite !list_lookup_alter_eq, Hk. cbn [fmap option_fmap option_map].
  eexists. split; [reflexivity|]. split.
  - cbn [insert list_insert]. apply lookup_insert_eq.
  - intros key Hne. rewrite !lookup_insert_ne by congruence. reflexivity.
Qed.

(** X4.  A continuous knob of dtype [int] whose reference and two bounds
    convert to integers is accepted exactly when the reference lies
    within the bounds, both included: the dimension is the pair of
    converted bounds and the reference is appended once; outside the
    bounds the build fails with a [ValueError] and appends nothing.
    Either way the knob's own [range] list now holds the converted
    bounds. *)
Theorem continuous_int_reference i rv0 w p a b rv r lo hi name :
  knobs w !! i = Some p ->
  p !! "range" = Some (VList [a; b]) ->
  p !! "dtype" = Some (VStr "int") ->
  p !! "ref" = Some rv ->
  p !! "name" = Some name ->
  py_int rv = Ok r -> py_int a = Ok lo -> py_int b = Ok hi ->
  fst (continuous_dimension i rv0 w) =
    (if (r <? lo) || (hi <? r)
     then Raise (ValueError "the ref value of {} is out of range" [name])
     else Ok (DInterval (VInt lo) (VInt hi), Some (VInt r))) /\
  ref (snd (continuous_dimension i rv0 w)) =
    (if (r <? lo) || (hi <? r) then ref w else ref w ++ [VInt r]) /\
  (knobs (snd (continuous_dimension i rv0 w)) !! i) ≫= (fun q => q !! "range") =
    Some (VList [VInt lo; VInt hi]).
Proof.
  intros Hk Hrange Hd Hr Hn Hir Ha Hb.
  destruct (coerce_bounds_int i w p a b rv r lo hi Hk Hr Hir Ha Hb)
    as (w2 & Hc & Href & p2 & Hk2 & Hrange2 & Hsame).
  assert (Hn2 : p2 !! "name" = Some name) by (rewrite Hsame; [exact Hn | discriminate]).
  assert (Hk2' : knobs w2 !! i ≫= (fun q => q !! "range") = Some (VList [VInt lo; VInt hi]))
    by (rewrite Hk2; exact Hrange2).
  unfold continuous_dimension, except_value_error, py_gt, mbind, M_bind, bind, lift, ret,
    raise, ref_append.
  rewrite (get_field_Ok _ _ _ _ _ Hk Hrange).
  cbv beta iota. cbn [is_none py_len py_iter rbind length Nat.eqb negb]. cbv beta iota.
  rewrite (get_field_Ok _ _ _ _ _ Hk Hd). cbv beta iota.
  change (py_eq (VStr "int") (VStr "int")) with true. cbv beta iota.
  rewrite Hc. cbv beta iota.
  rewrite (get_field_Ok _ _ _ _ _ Hk2 Hrange2). cbv beta iota.
  cbn [py_getitem py_iter rbind lookup list_lookup py_lt]. cbv beta iota.
  destruct (r <? lo) eqn:Elo; cbn [orb]; cbv beta iota.
  - rewrite (get_field_Ok _ _ _ _ _ Hk2 Hn2). cbn [fst snd]. repeat split; assumption.
  - destruct (hi <? r) eqn:Ehi; cbv beta iota.
    + rewrite (get_field_Ok _ _ _ _ _ Hk2 Hn2). cbn [fst snd]. repeat split; assumption.
    + cbn [fst snd ref knobs]. rewrite Href. repeat split; assumption.
Qed.

Lemma continuous_int_reference_witness :
  fst (continuous_dimension 0 None (init_world [sample_x_text] None)) =
    Ok (DInterval (VInt 0) (VInt 10), Some (VInt 5)) /\
  ref (snd (continuous_dimension 0 None (init_world [sample_x_text] None))) =
    ref (init_world [sample_x_text] None) ++ [VInt 5] /\
  (knobs (snd (continuous_dimension 0 None (init_world [sample_x_text] None))) !! 0%nat)
    ≫= (fun q => q !! "range") = Some (VList [VInt 0; VInt 10]).
Proof.
  apply (continuous_int_reference 0 None (init_world [sample_x_text] None) sample_x_text
           (VStr "0") (VStr "10") (VStr "5") 5 0 10 (VStr "x")); reflexivity.
Defined.

(** ** How a run can end *)

Lemma same_trace_refl w : trace w = trace w.
Proof. reflexivity. Qed.

Lemma same_trace_trans w1 w2 w3 :
  trace w2 = trace w1 -> trace w3 = trace w2 -> trace w3 = trace w1.
Proof. congruence. Qed.

Ltac same_trace_tac :=
  steps_with same_trace_refl same_trace_trans ltac:(solve [ intros ?; reflexivity ]).

Lemma handle_sends e w : handle e w = (Ok None, snd (send (error_message e) w)).
Proof. destruct e; reflexivity. Qed.

Lemma naming_loop_quiet ret_x n labels :
  steps (fun w w' => trace w' = trace w)
    (for_each (seq 0 n)
       (fun labels i =>
          assign_param i (ret_x_component ret_x i);;
          name ← get_field i "name";
          ret (labels ++ [name]))
       labels).
Proof. unfold assign_param, ret_x_component, component. same_trace_tac. Qed.

Lemma report_outcome env ret_x w r w' :
  report env ret_x w = (r, w') ->
  (exists p, r = Ok (Some p)) \/
  ((exists e, r = Raise e) /\ only (fun ev => is_send ev = false) w w').
Proof.
  unfold report. rewrite get_world_bind, bind_unfold. intros H.
  pose proof (naming_loop_quiet ret_x (length (knobs w)) [] w) as Hq.
  match type of H with
  | context [match ?c with _ => _ end] => destruct c as [[labels|e] w1]
  end; simpl in Hq.
  - rewrite get_world_bind, bind_unfold in H. unfold log in H. cbv beta iota in H.
    rewrite bind_unfold in H. unfold lift in H. cbv beta iota in H.
    destruct (get_ensemble_feature_importance env (options w1) (performance w1) labels)
      as [rank|e].
    + left. injection H as <- _. eauto.
    + right. injection H as <- <-. split; [eauto|].
      exists [CallRank (options w1) (performance w1) labels]. simpl.
      split; [rewrite Hq; reflexivity | repeat constructor].
  - right. injection H as <- <-. split; [eauto|].
    apply only_same_trace. exact Hq.
Qed.

Lemma dispatch_search_events env cfg space ref_x ref_y :
  engine cfg = "random" \/ engine cfg = "bayes" ->
  steps (only (fun ev => is_search_event ev = true)) (dispatch env cfg space ref_x ref_y).
Proof.
  set (P := fun ev => is_search_event ev = true).
  intros He. unfold dispatch.
  apply (steps_bind _ (only_trans P)); [apply (steps_get_world _ (only_refl P))|intros w0].
  destruct He as [-> | ->].
  - change (String.eqb "random" "random") with true. cbv iota.
    steps_with (only_refl P) (only_trans P)
      ltac:(first
        [ apply (run_engine_history P (fun _ => eq_refl) search_event_request)
        | apply only_log; reflexivity ]).
  - change (String.eqb "bayes" "random") with false.
    change (String.eqb "bayes" "bayes") with true. cbv iota.
    steps_with (only_refl P) (only_trans P)
      ltac:(first
        [ apply (run_engine_history P (fun _ => eq_refl) search_event_request)
        | apply only_log; reflexivity ]).
Qed.

Lemma search_search_events env cfg :
  engine cfg = "random" \/ engine cfg = "bayes" ->
  steps (only (fun ev => is_search_event ev = true)) (search env cfg).
Proof.
  set (P := fun ev => is_search_event ev = true).
  intros He. unfold search.
  apply (steps_bind _ (only_trans P)); [apply prepare_history|].
  intros [[space ref_x] ref_y]. apply dispatch_search_events, He.
Qed.

(** X5.  [run] returns [None] only from an [except] clause: the [try]
    block raised, and the last thing the worker sent is that error, the
    exception itself for a [ValueError] or a [RuntimeError] and the
    wrapped one otherwise.  Under the [random] and the [bayes] engine
    everything the run did before it is engine calls, requests and
    replies: no message with a [finished] key went out. *)
Theorem error_reported_last env cfg w w' :
  run env cfg w = (Ok None, w') ->
  exists e w1,
    search env cfg w = (Raise e, w1) /\
    trace w' = trace w1 ++ [Send (error_message e)] /\
    last (trace w') = Some (Send (error_message e)) /\
    (engine cfg = "random" \/ engine cfg = "bayes" ->
     exists t, trace w1 = trace w ++ t /\ Forall (fun ev => is_search_event ev = true) t).
Proof.
  unfold run. intros H.
  pose proof (fun He => search_search_events env cfg He w) as Hs.
  destruct (search env cfg w) as [[[ret_x|best]|e] w1].
  - apply report_outcome in H as [[p Hp]|[[e He] _]]; discriminate.
  - discriminate H.
  - rewrite handle_sends in H. injection H as <-.
    exists e, w1. split; [reflexivity|]. split; [reflexivity|].
    split; [apply last_snoc|]. intros He. exact (Hs He).
Qed.

Lemma error_reported_last_witness :
  exists e w1,
    search (sample_env "1" [VInt 3]) sample_random (init_world [sample_untyped] None) =
      (Raise e, w1) /\
    trace (snd (run (sample_env "1" [VInt 3]) sample_random
                  (init_world [sample_untyped] None))) =
      trace w1 ++ [Send (error_message e)] /\
    last (trace (snd (run (sample_env "1" [VInt 3]) sample_random
                        (init_world [sample_untyped] None)))) =
      Some (Send (error_message e)) /\
    (engine sample_random = "random" \/ engine sample_random = "bayes" ->
     exists t, trace w1 = trace (init_world [sample_untyped] None) ++ t /\
               Forall (fun ev => is_search_event ev = true) t).
Proof.
  apply (error_reported_last (sample_env "1" [VInt 3]) sample_random
           (init_world [sample_untyped] None)).
  vm_compute. reflexivity.
Defined.

(** X6.  An exception leaves [run] only from the code after the [try]:
    the search completed without an early return, and from there on the
    worker sent nothing, neither an error nor a final message. *)
Theorem escaping_exception_unreported env cfg w e w' :
  run env cfg w = (Raise e, w') ->
  exists ret_x w1,
    search env cfg w = (Ok (FellThrough ret_x), w1) /\
    only (fun ev => is_send ev = false) w1 w'.
Proof.
  unfold run. intros H.
  destruct (search env cfg w) as [[[ret_x|best]|e1] w1].
  - exists ret_x, w1. split; [reflexivity|].
    apply report_outcome in H as [[p Hp]|[_ Ho]]; [discriminate Hp | exact Ho].
  - discriminate H.
  - rewrite handle_sends in H. discriminate H.
Qed.

Lemma escaping_exception_unreported_witness :
  exists ret_x w1,
    search (sample_env "1" [VInt 3]) sample_abtest (init_world [sample_x] None) =
      (Ok (FellThrough ret_x), w1) /\
    only (fun ev => is_send ev = false) w1
      (snd (run (sample_env "1" [VInt 3]) sample_abtest (init_world [sample_x] None))).
Proof.
  apply (escaping_exception_unreported (sample_env "1" [VInt 3]) sample_abtest
           (init_world [sample_x] None) (UnboundLocalError "ret")).
  vm_compute. reflexivity.
Defined.

(** ** One trial *)

Lemma same_but_params_refl w : same_but_params w w.
Proof. repeat split. Qed.

Lemma same_but_params_trans w1 w2 w3 :
  same_but_params w1 w2 -> same_but_params w2 w3 -> same_but_params w1 w3.
Proof.
  intros [[? [? ?]] [? [? ?]]] [[? [? ?]] [? [? ?]]]. repeat split; congruence.
Qed.

Ltac but_params_tac :=
  steps_with same_but_params_refl same_but_params_trans
    ltac:(solve [ intros ?; repeat split ]).

Lemma naming_quiet var n :
  steps same_but_params
    (for_each (seq 0 n) (fun _ i => assign_param i (component var i)) tt).
Proof. unfold assign_param, component. but_params_tac. Qed.

Lemma exchange_inv env var w r w' :
  exchange env var w = (r, w') ->
  frozen w w' /\ options w' = options w /\ performance w' = performance w /\
  match r with
  | Ok reply =>
      trace w' = trace w ++ [Send (MDict {[ "param" := FParams (params w') ]}); Recv reply] /\
      reply = harness env (trace w ++ [Send (MDict {[ "param" := FParams (params w') ]})])
  | Raise _ => trace w' = trace w
  end.
Proof.
  unfold exchange. rewrite get_world_bind, bind_unfold. intros H.
  pose proof (naming_quiet var (length (knobs w)) w) as Hq.
  match type of H with
  | context [match ?c with _ => _ end] => destruct c as [[[]|e] w1]
  end; simpl in Hq; destruct Hq as (Hf & Ho & Hp & Ht).
  - rewrite get_world_bind in H. unfold send, recv, log in H.
    rewrite bind_unfold in H. cbv beta iota in H.
    rewrite get_world_bind, bind_unfold in H. cbv beta iota in H.
    unfold ret in H. injection H as <- <-. simpl.
    rewrite Ht, <- app_assoc. repeat split; try assumption; apply Hf.
  - injection H as <- <-. repeat split; try assumption; apply Hf.
Qed.

Lemma objective_inv env var w r w' :
  objective env var w = (r, w') ->
  frozen w w' /\
  match r with
  | Ok cost =>
      exists reply,
        trace w' =
          trace w ++ [Send (MDict {[ "param" := FParams (params w') ]}); Recv reply] /\
        reply = harness env (trace w ++ [Send (MDict {[ "param" := FParams (params w') ]})]) /\
        sum_measurements (split reply ",") (FFin 0) = Ok cost /\
        options w' = options w ++ [var] /\
        performance w' = performance w ++ [cost]
  | Raise e =>
      options w' = options w /\ performance w' = performance w /\
      (trace w' = trace w \/
       exists reply,
         trace w' =
           trace w ++ [Send (MDict {[ "param" := FParams (params w') ]}); Recv reply] /\
         sum_measurements (split reply ",") (FFin 0) = Raise e)
  end.
Proof.
  unfold objective. rewrite bind_unfold. intros H.
  destruct (exchange env var w) as [[reply|e] w1] eqn:Ex;
    apply exchange_inv in Ex as (Hf & Ho & Hp & Ht).
  - destruct Ht as [Ht Hr].
    rewrite bind_unfold in H. unfold lift in H. cbv beta iota in H.
    destruct (sum_measurements (split reply ",") (FFin 0)) as [cost|e] eqn:Es.
    + rewrite get_world_bind in H. unfold set_options, set_performance, ret in H.
      rewrite !bind_unfold in H. cbv beta iota in H. injection H as <- <-. simpl.
      split; [exact Hf|]. exists reply. rewrite Ho, Hp. repeat split; assumption.
    + injection H as <- <-. split; [exact Hf|]. split; [exact Ho|]. split; [exact Hp|].
      right. exists reply. split; assumption.
  - injection H as <- <-. split; [exact Hf|]. split; [exact Ho|]. split; [exact Hp|].
    left. exact Ht.
Qed.

(** X7.  A call of [objective] that returns has sent exactly one
    request, the dict holding [params] under ["param"], and received
    exactly one reply; the cost it returns is the sum of the reply's
    comma-separated parts, and the vector and the cost are appended to
    the two histories the ranking is computed from.  The knobs, the
    reference vector and the random-start count are untouched. *)
Theorem objective_records env var w cost w' :
  objective env var w = (Ok cost, w') ->
  exists reply,
    trace w' = trace w ++ [Send (MDict {[ "param" := FParams (params w') ]}); Recv reply] /\
    reply = harness env (trace w ++ [Send (MDict {[ "param" := FParams (params w') ]})]) /\
    sum_measurements (split reply ",") (FFin 0) = Ok cost /\
    options w' = options w ++ [var] /\
    performance w' = performance w ++ [cost] /\
    frozen w w'.
Proof.
  intros H. apply objective_inv in H as [Hf [reply (Ht & Hr & Hs & Ho & Hp)]].
  exists reply. repeat split; try assumption; apply Hf.
Qed.

(** X8.  A call of [objective] that raises records nothing: the two
    histories are as before.  Either the vector could not be named and
    nothing was sent, or the request went out and a part of the reply is
    what [float] refused. *)
Theorem failed_trial_not_recorded env var w e w' :
  objective env var w = (Raise e, w') ->
  options w' = options w /\ performance w' = performance w /\
  (trace w' = trace w \/
   exists reply,
     trace w' = trace w ++ [Send (MDict {[ "param" := FParams (params w') ]}); Recv reply] /\
     sum_measurements (split reply ",") (FFin 0) = Raise e).
Proof. intros H. apply objective_inv in H as [_ H]. exact H. Qed.

Lemma objective_records_witness :
  exists reply,
    trace (snd (objective (sample_env "1,2" [VInt 3]) [VInt 3] (init_world [sample_x] None))) =
      trace (init_world [sample_x] None) ++
      [Send (MDict {[ "param" :=
         FParams (params (snd (objective (sample_env "1,2" [VInt 3]) [VInt 3]
                                 (init_world [sample_x] None)))) ]});
       Recv reply] /\
    reply = harness (sample_env "1,2" [VInt 3])
              (trace (init_world [sample_x] None) ++
               [Send (MDict {[ "param" :=
                  FParams (params (snd (objective (sample_env "1,2" [VInt 3]) [VInt 3]
                                          (init_world [sample_x] None)))) ]})]) /\
    sum_measurements (split reply ",") (FFin 0) = Ok (FFin 3) /\
    options (snd (objective (sample_env "1,2" [VInt 3]) [VInt 3] (init_world [sample_x] None))) =
      options (init_world [sample_x] None) ++ [[VInt 3]] /\
    performance (snd (objective (sample_env "1,2" [VInt 3]) [VInt 3]
                        (init_world [sample_x] None))) =
      performance (init_world [sample_x] None) ++ [FFin 3] /\
    frozen (init_world [sample_x] None)
      (snd (objective (sample_env "1,2" [VInt 3]) [VInt 3] (init_world [sample_x] None))).
Proof.
  apply (objective_records (sample_env "1,2" [VInt 3]) [VInt 3] (init_world [sample_x] None)
           (FFin 3)).
  vm_compute. reflexivity.
Defined.

Lemma failed_trial_not_recorded_witness :
  options (snd (objective (sample_env "fast" [VInt 3]) [VInt 3] (init_world [sample_x] None))) =
    options (init_world [sample_x] None) /\
  performance (snd (objective (sample_env "fast" [VInt 3]) [VInt 3]
                      (init_world [sample_x] None))) =
    performance (init_world [sample_x] None) /\
  (trace (snd (objective (sample_env "fast" [VInt 3]) [VInt 3] (init_world [sample_x] None))) =
     trace (init_world [sample_x] None) \/
   exists reply,
     trace (snd (objective (sample_env "fast" [VInt 3]) [VInt 3]
                   (init_world [sample_x] None))) =
       trace (init_world [sample_x] None) ++
       [Send (MDict {[ "param" :=
          FParams (params (snd (objective (sample_env "fast" [VInt 3]) [VInt 3]
                                  (init_world [sample_x] None)))) ]});
        Recv reply] /\
     sum_measurements (split reply ",") (FFin 0) =
       Raise (ValueError "could not convert string to float: {}" [VStr "fast"])).
Proof.
  apply (failed_trial_not_recorded (sample_env "fast" [VInt 3]) [VInt 3]
           (init_world [sample_x] None)
           (ValueError "could not convert string to float: {}" [VStr "fast"])).
  vm_compute. reflexivity.
Defined.

(** ** The trials of a run *)

Lemma frozen_refl w : frozen w w.
Proof. repeat split. Qed.

Lemma frozen_trans w1 w2 w3 : frozen w1 w2 -> frozen w2 w3 -> frozen w1 w3.
Proof. intros [? [? ?]] [? [? ?]]. repeat split; congruence. Qed.

Lemma run_engine_trials env s : forall w x w',
  run_engine env s w = (Ok x, w') ->
  exists (trials : list (pydict * string)) (vars : list (list value))
         (costs : list pyfloat),
    trace w' = trace w ++ exchanges trials /\
    options w' = options w ++ vars /\
    performance w' = performance w ++ costs /\
    length vars = length trials /\
    Forall2 (fun trial cost => sum_measurements (split (snd trial) ",") (FFin 0) = Ok cost)
      trials costs /\
    frozen w w'.
Proof.
  induction s as [var next IH|x0|e]; intros w x w' H; simpl in H.
  - bind_inv H. apply objective_inv in E as [Hf [reply (Ht & Hr & Hs & Ho & Hp)]].
    apply IH in H as (trials & vars & costs & Ht' & Ho' & Hp' & Hl' & Hc' & Hf').
    exists ((params w0, reply) :: trials), (var :: vars), (a :: costs).
    split; [|split; [|split; [|split; [|split]]]].
    + rewrite Ht', Ht, <- app_assoc. reflexivity.
    + rewrite Ho', Ho, <- app_assoc. reflexivity.
    + rewrite Hp', Hp, <- app_assoc. reflexivity.
    + simpl. rewrite Hl'. reflexivity.
    + constructor; [exact Hs | exact Hc'].
    + eapply frozen_trans; eassumption.
  - apply ret_inv in H as [_ ->]. exists [], [], [].
    repeat split; try (symmetry; apply app_nil_r). constructor.
  - discriminate H.
Qed.

(** ** Naming the components of a vector *)

Lemma py_eq_str_l s d : py_eq (VStr s) d = true -> d = VStr s.
Proof.
  destruct d; simpl; try discriminate. intros H. apply String.eqb_eq in H. congruence.
Qed.

Lemma dict_get_set d k v b :
  dict_get (dict_set d k v) (VStr b) =
  if py_eq k (VStr b) then Some v else dict_get d (VStr b).
Proof.
  induction d as [|[k0 v0] d IH]; simpl.
  - destruct (py_eq k (VStr b)); reflexivity.
  - destruct (py_eq k0 k) eqn:E0; simpl.
    + destruct (py_eq k0 (VStr b)) eqn:E1.
      * apply py_eq_str in E1. subst k0. apply py_eq_str_l in E0. subst k.
        simpl. rewrite String.eqb_refl. reflexivity.
      * destruct (py_eq k (VStr b)) eqn:E2; [|reflexivity].
        apply py_eq_str in E2. subst k. rewrite E0 in E1. discriminate E1.
    + destruct (py_eq k0 (VStr b)) eqn:E1; [|exact IH].
      destruct (py_eq k (VStr b)) eqn:E2; [|reflexivity].
      apply py_eq_str in E1, E2. subst k0 k. simpl in E0.
      rewrite String.eqb_refl in E0. discriminate E0.
Qed.

Lemma assign_param_inv x i w w' q :
  knobs w !! i = Some q ->
  assign_param i (component x i) w = (Ok tt, w') ->
  exists c v nm,
    x !! i = Some c /\ decode_value q c = Some v /\ q !! "name" = Some nm /\
    knobs w' = knobs w /\ params w' = dict_set (params w) nm v.
Proof.
  intros Hk H. unfold assign_param in H.
  destruct (q !! "dtype") as [dtype|] eqn:Ed;
    [| rewrite bind_unfold, (get_field_missing _ _ _ _ Hk Ed) in H; discriminate H].
  rewrite bind_unfold, (get_field_Ok _ _ _ _ _ Hk Ed), bind_unfold in H.
  unfold decode_value. rewrite Ed. simpl.
  destruct (py_eq dtype (VStr "string")).
  - destruct (q !! "options") as [opts|] eqn:Eo;
      [| rewrite bind_unfold, (get_field_missing _ _ _ _ Hk Eo) in H; discriminate H].
    rewrite bind_unfold, (get_field_Ok _ _ _ _ _ Hk Eo), bind_unfold in H.
    unfold component in H. destruct (x !! i) as [c|]; [|discriminate H].
    unfold ret at 1 in H. unfold lift in H. cbv beta iota in H. simpl.
    destruct (py_index opts c) as [v|e] eqn:Ei; [|discriminate H].
    destruct (q !! "name") as [nm|] eqn:En;
      [| rewrite bind_unfold, (get_field_missing _ _ _ _ Hk En) in H; discriminate H].
    rewrite bind_unfold, (get_field_Ok _ _ _ _ _ Hk En) in H.
    destruct (hashable nm); [|discriminate H].
    rewrite get_world_bind in H. injection H as <-.
    exists c, v, nm. rewrite Ei. repeat split.
  - unfold component in H. destruct (x !! i) as [c|]; [|discriminate H].
    unfold ret at 1 in H. cbv beta iota in H.
    destruct (q !! "name") as [nm|] eqn:En;
      [| rewrite bind_unfold, (get_field_missing _ _ _ _ Hk En) in H; discriminate H].
    rewrite bind_unfold, (get_field_Ok _ _ _ _ _ Hk En) in H.
    destruct (hashable nm); [|discriminate H].
    rewrite get_world_bind in H. injection H as <-.
    exists c, c, nm. repeat split.
Qed.

(** A loop over the knobs whose rounds name the components of [x]. *)
Lemma naming_params {S : Type} (body : S -> nat -> M S) (x : list value) :
  (forall st i w st' w',
     body st i w = (Ok st', w') -> assign_param i (component x i) w = (Ok tt, w')) ->
  forall n s st w st' w',
    (s + n <= length (knobs w))%nat ->
    for_each (seq s n) body st w = (Ok st', w') ->
    knobs w' = knobs w /\
    (forall b,
       (forall j q, (s <= j < s + n)%nat -> knobs w !! j = Some q ->
                    q !! "name" <> Some (VStr b)) ->
       dict_get (params w') (VStr b) = dict_get (params w) (VStr b)) /\
    (forall i q nm,
       (s <= i < s + n)%nat -> knobs w !! i = Some q -> q !! "name" = Some (VStr nm) ->
       (forall j q', (i < j < s + n)%nat -> knobs w !! j = Some q' ->
                     q' !! "name" <> Some (VStr nm)) ->
       exists c v,
         x !! i = Some c /\ decode_value q c = Some v /\
         dict_get (params w') (VStr nm) = Some v).
Proof.
  intros Hbody. induction n as [|n IH]; intros s st w st' w' Hs H; simpl in H.
  - apply ret_inv in H as [_ ->]. split; [reflexivity|]. split; [reflexivity|].
    intros i q nm Hi. lia.
  - bind_inv H. apply Hbody in E.
    destruct (knobs w !! s) as [qs|] eqn:Eks; [| apply lookup_ge_None in Eks; lia].
    destruct (assign_param_inv _ _ _ _ _ Eks E) as (c & v & nm0 & Hx & Hd & Hn & Hkn & Hp).
    apply IH in H; [| rewrite Hkn; lia].
    destruct H as (Hk' & Hother & Hnamed). rewrite Hkn in Hk', Hother, Hnamed.
    split; [exact Hk'|]. split.
    + intros b Hb. rewrite Hother.
      * rewrite Hp, dict_get_set.
        destruct (py_eq nm0 (VStr b)) eqn:E0; [|reflexivity].
        apply py_eq_str in E0. subst nm0. exfalso. apply (Hb s qs); [lia | exact Eks | exact Hn].
      * intros j q Hj. apply Hb. lia.
    + intros i q nm Hi Hq Hnm Hlater.
      destruct (decide (i = s)) as [->|Hne].
      * rewrite Hq in Eks. injection Eks as <-. rewrite Hnm in Hn. injection Hn as <-.
        exists c, v. split; [exact Hx|]. split; [exact Hd|].
        rewrite Hother.
        -- rewrite Hp, dict_get_set. simpl. rewrite String.eqb_refl. reflexivity.
        -- intros j q' Hj. apply Hlater. lia.
      * apply (Hnamed i q nm); [lia | exact Hq | exact Hnm |].
        intros j q' Hj. apply Hlater. lia.
Qed.

Lemma names_apart (ks : list knob) i j q q' nm :
  NoDup (map (fun p : knob => p !! "name") ks) ->
  ks !! i = Some q -> ks !! j = Some q' -> i <> j ->
  q !! "name" = Some (VStr nm) -> q' !! "name" <> Some (VStr nm).
Proof.
  intros Hnd Hi Hj Hne Hn Hn'.
  apply Hne. eapply NoDup_lookup; [exact Hnd| |].
  - rewrite list_lookup_fmap, Hi. simpl. rewrite Hn. reflexivity.
  - rewrite list_lookup_fmap, Hj. simpl. rewrite Hn'. reflexivity.
Qed.

(** X9.  The request [objective] sends names the vector's components by
    position: with no two knobs of the same name, the dict under
    ["param"] holds, under the name of each knob, the component at the
    knob's position, replaced by the option at that index for a knob of
    dtype [string]. *)
Theorem request_names_components env var w cost w' :
  NoDup (map (fun p : knob => p !! "name") (knobs w)) ->
  objective env var w = (Ok cost, w') ->
  exists (request : pydict) (reply : string),
    trace w' = trace w ++ [Send (MDict {[ "param" := FParams request ]}); Recv reply] /\
    forall i q nm,
      knobs w !! i = Some q -> q !! "name" = Some (VStr nm) ->
      exists c v,
        var !! i = Some c /\ decode_value q c = Some v /\
        dict_get request (VStr nm) = Some v.
Proof.
  intros Hnd H.
  pose proof (objective_inv _ _ _ _ _ H) as [_ [reply (Ht & _)]].
  exists (params w'), reply. split; [exact Ht|].
  unfold objective in H. bind_inv H.
  assert (Hp : params w' = params w0).
  { bind_inv H. unfold lift in E0. injection E0 as _ <-.
    rewrite get_world_bind in H. unfold set_options, set_performance, ret in H.
    rewrite !bind_unfold in H. cbv beta iota in H. injection H as _ <-. reflexivity. }
  rewrite Hp. clear H Hp Ht.
  unfold exchange in E. rewrite get_world_bind in E. bind_inv E.
  assert (Hp : params w0 = params w1).
  { rewrite get_world_bind in E. unfold send, recv, log in E.
    rewrite bind_unfold in E. cbv beta iota in E.
    rewrite get_world_bind, bind_unfold in E. cbv beta iota in E.
    unfold ret in E. injection E as _ <-. reflexivity. }
  rewrite Hp.
  apply (naming_params (fun _ i => assign_param i (component var i)) var) in E0;
    [| intros st i w2 [] w3 Hb; exact Hb | simpl; lia].
  destruct E0 as (_ & _ & Hnamed).
  intros i q nm Hq Hnm. apply (Hnamed i q nm); [|exact Hq|exact Hnm|].
  - apply lookup_lt_Some in Hq. lia.
  - intros j q' Hj Hq'. eapply names_apart; [exact Hnd|exact Hq|exact Hq'|lia|exact Hnm].
Qed.

(** ** The end of a run that returns the parameters *)

Lemma get_field_inv i key w v w' :
  get_field i key w = (Ok v, w') ->
  w' = w /\ exists p, knobs w !! i = Some p /\ p !! key = Some v.
Proof.
  unfold get_field. intros H.
  destruct (knobs w !! i) as [p|]; [|discriminate H].
  destruct (p !! key) as [v0|] eqn:E; [|discriminate H].
  injection H as <- <-. eauto.
Qed.

Lemma report_round_inv ret_x labels i w labels' w' :
  (assign_param i (ret_x_component ret_x i);;
   name ← get_field i "name";
   ret (labels ++ [name])) w = (Ok labels', w') ->
  assign_param i (ret_x_component ret_x i) w = (Ok tt, w') /\
  exists q name, knobs w' !! i = Some q /\ q !! "name" = Some name /\
                 labels' = labels ++ [name].
Proof.
  intros H. bind_inv H. destruct a. bind_inv H.
  apply get_field_inv in E0 as [-> (q & Hq & Hn)].
  apply ret_inv in H as [H ->]. injection H as H. subst labels'.
  split; [reflexivity|]. exists q, a. auto.
Qed.

Lemma naming_labels ret_x n : forall s labels w labels' w',
  (s + n <= length (knobs w))%nat ->
  for_each (seq s n)
    (fun labels i =>
       assign_param i (ret_x_component ret_x i);;
       name ← get_field i "name";
       ret (labels ++ [name]))
    labels w = (Ok labels', w') ->
  same_but_params w w' /\
  exists names,
    labels' = labels ++ names /\
    Forall2 (fun (q : knob) nm => q !! "name" = Some nm) (take n (drop s (knobs w))) names.
Proof.
  induction n as [|n IH]; intros s labels w labels' w' Hs H; simpl in H.
  - apply ret_inv in H as [H ->]. injection H as <-.
    split; [apply same_but_params_refl|]. exists []. split; [symmetry; apply app_nil_r|].
    constructor.
  - bind_inv H. apply report_round_inv in E as (Ha & q & name & Hq & Hn & ->).
    assert (Hsame : same_but_params w w0).
    { assert (Hst : steps same_but_params (assign_param s (ret_x_component ret_x s)))
        by (unfold assign_param, ret_x_component, component; but_params_tac).
      specialize (Hst w). rewrite Ha in Hst. exact Hst. }
    pose proof Hsame as [[Hk _] _].
    apply IH in H; [| rewrite Hk; lia]. destruct H as (Hsame' & names & -> & HF).
    split; [eapply same_but_params_trans; eassumption|].
    exists (name :: names). split; [rewrite <- app_assoc; reflexivity|].
    rewrite Hk in Hq, HF. rewrite (drop_S _ _ _ Hq). simpl. constructor; assumption.
Qed.

Lemma report_inv env ret_x w p w' :
  report env ret_x w = (Ok (Some p), w') ->
  exists labels rank w1,
    for_each (seq 0 (length (knobs w)))
      (fun labels i =>
         assign_param i (ret_x_component ret_x i);;
         name ← get_field i "name";
         ret (labels ++ [name]))
      [] w = (Ok labels, w1) /\
    get_ensemble_feature_importance env (options w1) (performance w1) labels = Ok rank /\
    p = params w1 /\
    trace w' =
      trace w1 ++
      [CallRank (options w1) (performance w1) labels;
       Send (MDict (<["param" := FParams p]>
                    (<["rank" := FRank rank]> {[ "finished" := FBool true ]})))].
Proof.
  unfold report. rewrite get_world_bind. intros H.
  bind_inv H. rewrite get_world_bind in H.
  unfold log, send in H. rewrite bind_unfold in H. cbv beta iota in H.
  rewrite bind_unfold in H. unfold lift at 1 in H. cbv beta iota in H.
  destruct (get_ensemble_feature_importance env (options w0) (performance w0) a)
    as [rank|e] eqn:Er; [|discriminate H].
  unfold log, ret in H. rewrite bind_unfold in H. cbv beta iota in H.
  injection H as <- <-.
  exists a, rank, w0. simpl. rewrite <- app_assoc. auto.
Qed.

(** X10.  The code after the [try] names the best vector by position:
    with no two knobs of the same name, the parameters [run] reports
    hold, under the name of each knob, the component of [ret.x] at the
    knob's position, replaced by the option at that index for a knob of
    dtype [string]; the labels handed to the feature selector are the
    knob names in knob order, the histories are handed over as they
    are, and the final message follows the ranking call. *)
Theorem result_names_best_vector env x w p w' :
  NoDup (map (fun q : knob => q !! "name") (knobs w)) ->
  report env (Some x) w = (Ok (Some p), w') ->
  (forall i q nm,
     knobs w !! i = Some q -> q !! "name" = Some (VStr nm) ->
     exists c v,
       x !! i = Some c /\ decode_value q c = Some v /\ dict_get p (VStr nm) = Some v) /\
  exists labels rank,
    Forall2 (fun (q : knob) nm => q !! "name" = Some nm) (knobs w) labels /\
    get_ensemble_feature_importance env (options w) (performance w) labels = Ok rank /\
    trace w' =
      trace w ++
      [CallRank (options w) (performance w) labels;
       Send (MDict (<["param" := FParams p]>
                    (<["rank" := FRank rank]> {[ "finished" := FBool true ]})))].
Proof.
  intros Hnd H. apply report_inv in H as (labels & rank & w1 & Hloop & Hrank & -> & Ht).
  pose proof (naming_labels (Some x) (length (knobs w)) 0 [] w labels w1
                ltac:(simpl; lia) Hloop)
    as ((_ & Ho & Hp & Htr) & names & Hl & HF).
  simpl in Hl. subst names. simpl in HF. rewrite firstn_all in HF.
  rewrite Ho, Hp in Hrank. rewrite Ho, Hp, Htr in Ht.
  split; [| exists labels, rank; auto].
  apply (naming_params
           (fun labels i =>
              assign_param i (ret_x_component (Some x) i);;
              name ← get_field i "name";
              ret (labels ++ [name])) x) in Hloop; [| | simpl; lia].
  - destruct Hloop as (_ & _ & Hnamed).
    intros i q nm Hq Hnm. apply (Hnamed i q nm); [|exact Hq|exact Hnm|].
    + apply lookup_lt_Some in Hq. lia.
    + intros j q' Hj Hq'. eapply names_apart; [exact Hnd|exact Hq|exact Hq'|lia|exact Hnm].
  - intros st i w2 st' w3 Hb. apply report_round_inv in Hb as [Hb _]. exact Hb.
Qed.

Lemma prepare_keeps_history cfg :
  steps (fun w w' => options w' = options w /\ performance w' = performance w /\
                     trace w' = trace w) (prepare cfg).
Proof.
  assert (Hr : forall w : world,
             options w = options w /\ performance w = performance w /\ trace w = trace w)
    by (intros; repeat split).
  assert (Ht : forall w1 w2 w3 : world,
             options w2 = options w1 /\ performance w2 = performance w1 /\
             trace w2 = trace w1 ->
             options w3 = options w2 /\ performance w3 = performance w2 /\
             trace w3 = trace w2 ->
             options w3 = options w1 /\ performance w3 = performance w1 /\
             trace w3 = trace w1)
    by (intros w1 w2 w3 (? & ? & ?) (? & ? & ?); repeat split; congruence).
  unfold prepare, build_space, build_knob, continuous_dimension, coerce_bounds,
    handle_discrete_data, handle_discrete_int, handle_discrete_float,
    handle_discrete_string, candidate_items, extend_from_pair,
    transfer, transfer_entry, read_token, _get_intvalue_from_knobs, intvalue_of_knob.
  steps_with Hr Ht ltac:(solve [ intros ?; repeat split ]).
Qed.

Lemma dispatch_minimizer env cfg space ref_x ref_y w r w' :
  engine cfg = "random" \/ engine cfg = "bayes" ->
  dispatch env cfg space ref_x ref_y w = (Ok r, w') ->
  exists call script x,
    ((engine cfg = "random" /\
      call = CallDummyMinimize space (max_eval cfg) /\
      script = dummy_minimize env space (max_eval cfg)) \/
     (engine cfg = "bayes" /\
      call = CallGpMinimize space (max_eval cfg) (n_random_starts w) ref_x ref_y /\
      script = gp_minimize env space (max_eval cfg) (n_random_starts w) ref_x ref_y)) /\
    r = FellThrough (Some x) /\
    run_engine env script (snd (log call w)) = (Ok x, w').
Proof.
  intros He. unfold dispatch. rewrite get_world_bind. intros H.
  destruct He as [He|He]; rewrite He in H.
  - change (String.eqb "random" "random") with true in H. cbv iota in H.
    rewrite bind_unfold in H. unfold log at 1 in H. cbv beta iota in H.
    bind_inv H. apply ret_inv in H as [H ->]. injection H as H. subst r.
    eexists _, _, a. split; [left; repeat split; exact He|]. split; [reflexivity | exact E].
  - change (String.eqb "bayes" "random") with false in H.
    change (String.eqb "bayes" "bayes") with true in H. cbv iota in H.
    rewrite bind_unfold in H. unfold log at 1 in H. cbv beta iota in H.
    bind_inv H. apply ret_inv in H as [H ->]. injection H as H. subst r.
    eexists _, _, a. split; [right; repeat split; exact He|]. split; [reflexivity | exact E].
Qed.

Lemma names_same w w' (labels : list value) :
  same_descriptors w w' ->
  Forall2 (fun (q : knob) nm => q !! "name" = Some nm) (knobs w') labels ->
  Forall2 (fun (q : knob) nm => q !! "name" = Some nm) (knobs w) labels.
Proof.
  intros [Hlen Hkeys] HF. apply Forall2_same_length_lookup.
  split; [rewrite <- Hlen; eapply Forall2_length; exact HF|].
  intros i q nm Hq Hl.
  destruct (knobs w' !! i) as [q'|] eqn:Eq'.
  - pose proof (Forall2_lookup_lr _ _ _ _ _ _ HF Eq' Hl) as Hn.
    specialize (Hkeys i "name" ltac:(discriminate) ltac:(discriminate)).
    rewrite Eq', Hq in Hkeys. simpl in Hkeys. congruence.
  - apply lookup_ge_None in Eq'. apply lookup_lt_Some in Hq. lia.
Qed.

(** X11.  Under the [random] and the [bayes] engine a run that returns
    the parameters has done, in this order and nothing else: the call of
    the minimizer, one request and one reply per trial, the call of the
    feature selector, the final message.  The feature selector is handed
    one vector and one cost per trial, each cost the sum of the parts of
    that trial's reply, and the knob names in knob order as labels. *)
Theorem trials_aligned env cfg ks n p w' :
  engine cfg = "random" \/ engine cfg = "bayes" ->
  run env cfg (init_world ks n) = (Ok (Some p), w') ->
  exists call trials vars costs labels final,
    trace w' = call :: exchanges trials ++ [CallRank vars costs labels; Send final] /\
    ((engine cfg = "random" /\ exists space, call = CallDummyMinimize space (max_eval cfg)) \/
     (engine cfg = "bayes" /\
      exists space k x0 y0, call = CallGpMinimize space (max_eval cfg) k x0 y0)) /\
    length vars = length trials /\
    Forall2 (fun trial cost => sum_measurements (split (snd trial) ",") (FFin 0) = Ok cost)
      trials costs /\
    Forall2 (fun (q : knob) nm => q !! "name" = Some nm) ks labels.
Proof.
  intros He H. unfold run in H.
  destruct (search env cfg (init_world ks n)) as [[[ret_x|best]|e] w2] eqn:Es.
  - apply search_inv in Es as (space & ref_x & ref_y & w1 & Hp & Hd).
    pose proof (prepare_keeps_history cfg (init_world ks n)) as (Ho1 & Hp1 & Ht1).
    pose proof (prepare_descriptors cfg (init_world ks n)) as Hd1.
    pose proof (dispatch_descriptors env cfg space ref_x ref_y w1) as Hd2.
    rewrite Hp in Ho1, Hp1, Ht1, Hd1. rewrite Hd in Hd2. simpl in Ho1, Hp1, Ht1, Hd1, Hd2.
    apply (dispatch_minimizer _ _ _ _ _ _ _ _ He) in Hd
      as (call & script & x & Hcall & Hr & Hrun).
    apply run_engine_trials in Hrun
      as (trials & vars & costs & Ht2 & Ho2 & Hp2 & Hl & Hc & Hf).
    simpl in Ht2, Ho2, Hp2. rewrite Ho1 in Ho2. rewrite Hp1 in Hp2. rewrite Ht1 in Ht2.
    simpl in Ho2, Hp2, Ht2.
    apply report_inv in H as (labels & rank & w3 & Hloop & _ & _ & Ht3).
    pose proof (naming_labels _ (length (knobs w2)) 0 [] w2 labels w3
                  ltac:(simpl; lia) Hloop)
      as ((_ & Ho3 & Hp3 & Htr3) & names & Hl3 & HF).
    simpl in Hl3. subst names. simpl in HF. rewrite firstn_all in HF.
    exists call, trials, vars, costs, labels. eexists.
    split; [rewrite Ht3, Htr3, Ho3, Hp3, Ht2, Ho2, Hp2; reflexivity|].
    split.
    { destruct Hcall as [(E1 & -> & _)|(E1 & -> & _)]; [left|right];
        (split; [exact E1 | eauto]). }
    split; [exact Hl|]. split; [exact Hc|].
    apply (names_same (init_world ks n) w2).
    + eapply same_descriptors_trans; eassumption.
    + exact HF.
  - apply search_inv in Es as (space & ref_x & ref_y & w1 & _ & Hd).
    apply dispatch_returned_early in Hd as [Etpe _].
    destruct He as [He|He]; rewrite He in Etpe; discriminate Etpe.
  - rewrite handle_sends in H. discriminate H.
Qed.

Lemma request_names_components_witness :
  exists (request : pydict) (reply : string),
    trace (snd (objective (sample_env "1,2" [VInt 3; VInt 2]) [VInt 3; VInt 2]
                  (init_world [sample_x; sample_mode] None))) =
      trace (init_world [sample_x; sample_mode] None) ++
      [Send (MDict {[ "param" := FParams request ]}); Recv reply] /\
    forall i q nm,
      knobs (init_world [sample_x; sample_mode] None) !! i = Some q ->
      q !! "name" = Some (VStr nm) ->
      exists c v,
        [VInt 3; VInt 2] !! i = Some c /\ decode_value q c = Some v /\
        dict_get request (VStr nm) = Some v.
Proof.
  apply (request_names_components (sample_env "1,2" [VInt 3; VInt 2]) [VInt 3; VInt 2]
           (init_world [sample_x; sample_mode] None) (FFin 3)).
  - vm_compute.
    apply NoDup_cons_2; [intros Hin; apply list_elem_of_singleton in Hin; discriminate Hin | apply NoDup_singleton].
  - vm_compute. reflexivity.
Defined.

Lemma result_names_best_vector_witness :
  (forall i q nm,
     knobs (init_world [sample_x; sample_mode] None) !! i = Some q ->
     q !! "name" = Some (VStr nm) ->
     exists c v,
       [VInt 3; VInt 2] !! i = Some c /\ decode_value q c = Some v /\
       dict_get [(VStr "x", VInt 3); (VStr "mode", VStr "c")] (VStr nm) = Some v) /\
  exists labels rank,
    Forall2 (fun (q : knob) nm => q !! "name" = Some nm)
      (knobs (init_world [sample_x; sample_mode] None)) labels /\
    get_ensemble_feature_importance (sample_env "1" [VInt 3; VInt 2])
      (options (init_world [sample_x; sample_mode] None))
      (performance (init_world [sample_x; sample_mode] None)) labels = Ok rank /\
    trace (snd (report (sample_env "1" [VInt 3; VInt 2]) (Some [VInt 3; VInt 2])
                  (init_world [sample_x; sample_mode] None))) =
      trace (init_world [sample_x; sample_mode] None) ++
      [CallRank (options (init_world [sample_x; sample_mode] None))
         (performance (init_world [sample_x; sample_mode] None)) labels;
       Send (MDict (<["param" := FParams [(VStr "x", VInt 3); (VStr "mode", VStr "c")]]>
                    (<["rank" := FRank rank]> {[ "finished" := FBool true ]})))].
Proof.
  apply (result_names_best_vector (sample_env "1" [VInt 3; VInt 2]) [VInt 3; VInt 2]
           (init_world [sample_x; sample_mode] None)
           [(VStr "x", VInt 3); (VStr "mode", VStr "c")]).
  - vm_compute.
    apply NoDup_cons_2; [intros Hin; apply list_elem_of_singleton in Hin; discriminate Hin | apply NoDup_singleton].
  - vm_compute. reflexivity.
Defined.

Lemma trials_aligned_witness :
  exists call trials vars costs labels final,
    trace (snd (run (sample_env "1" [VInt 3]) sample_random (init_world [sample_x] None))) =
      call :: exchanges trials ++ [CallRank vars costs labels; Send final] /\
    ((engine sample_random = "random" /\
      exists space, call = CallDummyMinimize space (max_eval sample_random)) \/
     (engine sample_random = "bayes" /\
      exists space k x0 y0, call = CallGpMinimize space (max_eval sample_random) k x0 y0)) /\
    length vars = length trials /\
    Forall2 (fun trial cost => sum_measurements (split (snd trial) ",") (FFin 0) = Ok cost)
      trials costs /\
    Forall2 (fun (q : knob) nm => q !! "name" = Some nm) [sample_x] labels.
Proof.
  apply (trials_aligned (sample_env "1" [VInt 3]) sample_random [sample_x] None
           [(VStr "x", VInt 3)]).
  - left. reflexivity.
  - vm_compute. reflexivity.
Defined.

(** ** The space is fixed once it is built *)

Lemma same_space_refl w : same_space w w.
Proof. split; reflexivity. Qed.

Lemma same_space_trans w1 w2 w3 : same_space w1 w2 -> same_space w2 w3 -> same_space w1 w3.
Proof. intros [? ?] [? ?]. split; congruence. Qed.

Ltac same_space_tac prim :=
  steps_with same_space_refl same_space_trans
    ltac:(first [ prim | solve [ intros ?; split; reflexivity ] ]).

Lemma run_engine_space env s : steps same_space (run_engine env s).
Proof.
  induction s as [var next IH| |]; simpl;
    unfold objective, exchange, send, recv, assign_param, component;
    same_space_tac ltac:(apply IH).
Qed.

Lemma run_channel_space {R : Type} env (s : channel_script R) :
  steps same_space (run_channel env s).
Proof.
  induction s as [m next IH|next IH| |]; simpl; unfold send, recv;
    same_space_tac ltac:(apply IH).
Qed.

Lemma dispatch_space env cfg space ref_x ref_y :
  steps same_space (dispatch env cfg space ref_x ref_y).
Proof.
  unfold dispatch, send.
  same_space_tac ltac:(first [ apply run_engine_space | apply run_channel_space ]).
Qed.

Lemma report_space env ret_x : steps same_space (report env ret_x).
Proof.
  unfold report, send, assign_param, ret_x_component, component. same_space_tac fail.
Qed.

Lemma handle_space e : steps same_space (handle e).
Proof. unfold handle, send. destruct e; same_space_tac fail. Qed.

Lemma transfer_space cfg : steps same_space (transfer cfg).
Proof.
  unfold transfer, transfer_entry, read_token, _get_intvalue_from_knobs, intvalue_of_knob.
  same_space_tac fail.
Qed.

Lemma continues (R : world -> world -> Prop) {A B : Type} (c : M A) (f : A -> M B) w :
  (forall w, R w w) -> (forall a, steps R (f a)) -> R (snd (c w)) (snd ((c ≫= f) w)).
Proof.
  intros Hr Hf. rewrite bind_unfold. destruct (c w) as [[a|e] w1]; simpl.
  - apply Hf.
  - apply Hr.
Qed.

Lemma search_after_build env cfg w :
  same_space (snd (build_space w)) (snd (search env cfg w)).
Proof.
  apply (same_space_trans _ (snd (prepare cfg w))).
  - unfold prepare. apply (continues same_space); [apply same_space_refl|].
    intros space. same_space_tac ltac:(apply transfer_space).
  - unfold search. apply (continues same_space); [apply same_space_refl|].
    intros [[space ref_x] ref_y]. apply dispatch_space.
Qed.

(** X12.  Under every engine and whatever the harness replies, the
    knob descriptors and the reference vector at the end of [run] are
    the ones [build_space] left: neither [transfer], nor [objective],
    nor the code that names the result writes to [self.knobs] or to
    [self.ref].  (The collaborators are handed the knob list; they are
    taken not to write to it.) *)
Theorem space_fixed_after_build env cfg w :
  knobs (snd (run env cfg w)) = knobs (snd (build_space w)) /\
  ref (snd (run env cfg w)) = ref (snd (build_space w)).
Proof.
  change (same_space (snd (build_space w)) (snd (run env cfg w))).
  eapply same_space_trans; [apply (search_after_build env cfg)|].
  unfold run. destruct (search env cfg w) as [[[r|b]|e] w2]; simpl.
  - apply report_space.
  - apply same_space_refl.
  - apply handle_space.
Qed.

(** ** What the reference vector holds *)

Lemma appends_numbers_refl w : appends_numbers w w.
Proof. exists []. split; [symmetry; apply app_nil_r | constructor]. Qed.

Lemma appends_numbers_trans w1 w2 w3 :
  appends_numbers w1 w2 -> appends_numbers w2 w3 -> appends_numbers w1 w3.
Proof.
  intros [t1 [E1 F1]] [t2 [E2 F2]]. exists (t1 ++ t2). split.
  - rewrite E2, E1. symmetry. apply app_assoc.
  - apply Forall_app. split; assumption.
Qed.

Lemma appends_numbers_same w w' : ref w' = ref w -> appends_numbers w w'.
Proof. intros E. exists []. split; [rewrite E; symmetry; apply app_nil_r | constructor]. Qed.

Lemma ref_append_number v : is_number v = true -> steps appends_numbers (ref_append v).
Proof. intros Hv w. exists [v]. split; [reflexivity | repeat constructor; exact Hv]. Qed.

Ltac numbers_tac prim :=
  steps_with appends_numbers_refl appends_numbers_trans
    ltac:(first
      [ prim
      | apply ref_append_number; reflexivity
      | solve [ intros ?; apply appends_numbers_same; reflexivity ] ]).

Lemma handle_discrete_data_numbers i : steps appends_numbers (handle_discrete_data i).
Proof.
  unfold handle_discrete_data, handle_discrete_int, handle_discrete_float,
    handle_discrete_string, candidate_items, extend_from_pair.
  numbers_tac fail.
Qed.

Lemma coerce_bounds_steps i conv r : steps appends_numbers (coerce_bounds i conv r).
Proof. unfold coerce_bounds. numbers_tac fail. Qed.

Lemma coerce_bounds_number i conv r w v w' :
  (forall a b, conv a = Ok b -> is_number b = true) ->
  coerce_bounds i conv r w = (Ok v, w') -> is_number v = true.
Proof.
  intros Hconv H. unfold coerce_bounds in H.
  bind_inv H. bind_inv H. unfold lift in E0. injection E0 as E0 _.
  repeat bind_inv H. apply ret_inv in H as [H _]. injection H as <-.
  eapply Hconv. exact E0.
Qed.

Lemma conv_int_number a b : conv_int a = Ok b -> is_number b = true.
Proof.
  unfold conv_int. destruct (py_int a); simpl; [|discriminate].
  intros H. injection H as <-. reflexivity.
Qed.

Lemma conv_float_number a b : conv_float a = Ok b -> is_number b = true.
Proof.
  unfold conv_float. destruct (py_float a); simpl; [|discriminate].
  intros H. injection H as <-. reflexivity.
Qed.

(** A bind whose continuation is entered only with values that satisfy
    [Q]. *)
Lemma steps_bind_post (R : world -> world -> Prop) {A B : Type}
    (c : M A) (f : A -> M B) (Q : A -> Prop) :
  (forall w1 w2 w3, R w1 w2 -> R w2 w3 -> R w1 w3) ->
  steps R c ->
  (forall w a w', c w = (Ok a, w') -> Q a) ->
  (forall a, Q a -> steps R (f a)) ->
  steps R (c ≫= f).
Proof.
  intros Ht Hc Hq Hf w. rewrite bind_unfold.
  specialize (Hc w). specialize (Hq w).
  destruct (c w) as [[a|e] w']; simpl in *; [|exact Hc].
  eapply Ht; [exact Hc | apply Hf, (Hq a w'), eq_refl].
Qed.

Lemma converted_reference i rv r_range dtype w a w' :
  number_or_unset rv ->
  (if py_eq dtype (VStr "int") then
     except_value_error
       (v ← coerce_bounds i conv_int r_range; ret (Some v))
       (name ← get_field i "name";
        raise (ValueError "the ref value of {} is not an integer value" [name]))
   else if py_eq dtype (VStr "float") then
     except_value_error
       (v ← coerce_bounds i conv_float r_range; ret (Some v))
       (name ← get_field i "name";
        raise (ValueError "the ref value of {} is not an integer value" [name]))
   else ret rv) w = (Ok a, w') ->
  number_or_unset a.
Proof.
  intros Hrv H.
  assert (Hexc : forall conv (h : value -> exn),
            (forall x y, conv x = Ok y -> is_number y = true) ->
            except_value_error
              (v ← coerce_bounds i conv r_range; ret (Some v))
              (name ← get_field i "name"; raise (h name)) w = (Ok a, w') ->
            number_or_unset a).
  { intros conv h Hconv Hc. unfold except_value_error in Hc.
    destruct ((v ← coerce_bounds i conv r_range; ret (Some v)) w) as [[x|e] w1] eqn:Ec.
    - injection Hc as -> ->. bind_inv Ec. apply ret_inv in Ec as [Ec _].
      injection Ec as Ec. subst a.
      intros v Hv. injection Hv as <-. eapply coerce_bounds_number; eassumption.
    - destruct e; try discriminate Hc. bind_inv Hc. discriminate Hc. }
  destruct (py_eq dtype (VStr "int")).
  { apply (Hexc conv_int
             (fun name => ValueError "the ref value of {} is not an integer value" [name])
             conv_int_number H). }
  destruct (py_eq dtype (VStr "float")).
  { apply (Hexc conv_float
             (fun name => ValueError "the ref value of {} is not an integer value" [name])
             conv_float_number H). }
  apply ret_inv in H as [H _]. injection H as <-. exact Hrv.
Qed.

Lemma assigned_reference (ref_value : option value) w a w' :
  number_or_unset ref_value ->
  match ref_value with
  | Some v => ret v
  | None => raise (UnboundLocalError "ref_value")
  end w = (Ok a, w') ->
  is_number a = true.
Proof.
  intros Hq H. destruct ref_value as [v|]; [|discriminate H].
  apply ret_inv in H as [H _]. injection H as <-. apply Hq. reflexivity.
Qed.

Lemma continuous_dimension_numbers i rv :
  number_or_unset rv -> steps appends_numbers (continuous_dimension i rv).
Proof.
  intros Hrv. unfold continuous_dimension.
  apply (steps_bind _ appends_numbers_trans); [numbers_tac fail | intros r_range].
  apply (steps_bind _ appends_numbers_trans); [numbers_tac fail | intros wrong].
  destruct wrong; [numbers_tac fail|].
  apply (steps_bind _ appends_numbers_trans); [numbers_tac fail | intros dtype].
  apply (steps_bind_post _ _ _ number_or_unset appends_numbers_trans).
  - numbers_tac ltac:(apply coerce_bounds_steps).
  - intros w a w'. apply converted_reference, Hrv.
  - intros ref_value Hq.
    apply (steps_bind_post _ _ _ (fun v => is_number v = true) appends_numbers_trans).
    + destruct ref_value; numbers_tac fail.
    + intros w a w'. apply assigned_reference, Hq.
    + intros v Hv. numbers_tac ltac:(apply ref_append_number; exact Hv).
Qed.

Lemma continuous_dimension_reference i rv w d rv' w' :
  number_or_unset rv ->
  continuous_dimension i rv w = (Ok (d, rv'), w') -> number_or_unset rv'.
Proof.
  intros Hrv H. unfold continuous_dimension in H.
  bind_inv H. bind_inv H. destruct a0; [bind_inv H; discriminate H|].
  bind_inv H. bind_inv H. apply (converted_reference _ _ _ _ _ _ _ Hrv) in E2.
  bind_inv H. apply (assigned_reference _ _ _ _ E2) in E3.
  bind_inv H. bind_inv H. bind_inv H. bind_inv H.
  match type of H with
  | (if ?b then _ else _) _ = _ => destruct b; [bind_inv H; discriminate H|]
  end.
  repeat bind_inv H. apply ret_inv in H as [H _]. injection H as _ H. subst rv'.
  intros v Hv. injection Hv as <-. exact E3.
Qed.

Lemma build_knob_numbers locals i :
  number_or_unset (snd locals) -> steps appends_numbers (build_knob locals i).
Proof.
  destruct locals as [opl rv]. intros Hrv. unfold build_knob.
  numbers_tac ltac:(first [ apply handle_discrete_data_numbers
                          | apply continuous_dimension_numbers; exact Hrv ]).
Qed.

Lemma build_knob_reference locals i w locals' w' :
  number_or_unset (snd locals) ->
  build_knob locals i w = (Ok locals', w') -> number_or_unset (snd locals').
Proof.
  destruct locals as [opl rv]. intros Hrv H. unfold build_knob in H.
  bind_inv H. destruct (py_eq a (VStr "discrete")).
  - bind_inv H. apply ret_inv in H as [H _]. injection H as ->. exact Hrv.
  - destruct (py_eq a (VStr "continuous")); [|bind_inv H; discriminate H].
    bind_inv H. destruct a0 as [dim rv1].
    apply ret_inv in H as [H _]. injection H as ->.
    eapply continuous_dimension_reference; eassumption.
Qed.

Lemma build_knobs_numbers l : forall locals w,
  number_or_unset (snd locals) ->
  appends_numbers w (snd (for_each l build_knob locals w)).
Proof.
  induction l as [|i l IH]; intros locals w Hrv; simpl.
  - apply appends_numbers_refl.
  - rewrite bind_unfold.
    pose proof (build_knob_numbers locals i Hrv w) as Hs.
    destruct (build_knob locals i w) as [[locals1|e] w1] eqn:E; simpl in Hs; [|exact Hs].
    eapply appends_numbers_trans; [exact Hs|].
    apply IH. eapply build_knob_reference; eassumption.
Qed.

Lemma build_space_numbers w : appends_numbers w (snd (build_space w)).
Proof.
  unfold build_space. rewrite get_world_bind, bind_unfold.
  pose proof (build_knobs_numbers (seq 0 (length (knobs w))) ([], None) w) as H.
  destruct (for_each (seq 0 (length (knobs w))) build_knob ([], None) w)
    as [[[opl rv]|e] w1]; simpl in *; apply H; intros v Hv; discriminate Hv.
Qed.

(** X13.  [build_space] only ever appends to [self.ref], and what it
    appends are numbers: an [int] or a [float] per entry, never the text
    of a declaration, whether the build succeeds or stops at a knob it
    refuses.  This holds also for the value a continuous knob of an
    unchecked dtype takes over from an earlier knob. *)
Theorem reference_vector_numeric w :
  exists t : list value,
    ref (snd (build_space w)) = ref w ++ t /\
    Forall (fun v => is_number v = true) t.
Proof. apply build_space_numbers. Qed.

(** ** A run without warm-start data *)

Lemma transfer_cold cfg w :
  x0 cfg = None \/ y0 cfg = None -> transfer cfg w = (Ok ([], []), w).
Proof.
  intros [H|H]; unfold transfer; rewrite H; [|destruct (x0 cfg)]; reflexivity.
Qed.

Lemma prepare_cold cfg w space ref_x ref_y w1 :
  x0 cfg = None \/ y0 cfg = None ->
  ref w = [] ->
  prepare cfg w = (Ok (space, ref_x, ref_y), w1) ->
  ref_x = [VList (ref w1)] /\ ref_y = None /\ ref w1 <> [] /\
  n_random_starts w1 = (if n_random_starts w <=? 1 then 0 else n_random_starts w).
Proof.
  intros Hcold Hempty H. unfold prepare in H.
  bind_inv H. rewrite bind_unfold, (transfer_cold cfg w0 Hcold) in H. cbv beta iota in H.
  pose proof (build_space_numbers w) as [t [Ht Hnum]].
  pose proof (build_space_starts w) as Hn.
  rewrite E in Ht, Hn. simpl in Ht, Hn. rewrite Hempty in Ht. simpl in Ht.
  rewrite get_world_bind in H. simpl in H. rewrite Ht in H.
  destruct t as [|v t]; [discriminate H|].
  apply Forall_cons in Hnum as [Hv _].
  assert (Hend : n_random_starts w0 - 1 + 1 = n_random_starts w0) by lia.
  destruct v; try discriminate Hv;
    unfold mbind, M_bind, bind, lift, py_getitem, rbind, py_iter, set_n_random_starts,
      ret in H; simpl in H; injection H as _ <- <- <-; simpl;
    change (Z.of_nat 1) with 1; rewrite Ht, Hend, Hn; repeat split; discriminate.
Qed.

(** X14.  Without warm-start data ([x0] or [y0] absent) a fresh worker
    seeds the search with its reference vector alone: [ref_x] is the
    one-element list holding [self.ref], there are no scores, and the
    random-start count [n] is left as it is unless it is 1 or less, which
    becomes 0.  This is what the [bayes] engine is called with. *)
Theorem cold_start_reference env cfg ks n space ref_x ref_y w1 :
  x0 cfg = None \/ y0 cfg = None ->
  prepare cfg (init_world ks n) = (Ok (space, ref_x, ref_y), w1) ->
  let starts := if default 20 n <=? 1 then 0 else default 20 n in
  ref_x = [VList (ref w1)] /\ ref_y = None /\ ref w1 <> [] /\
  n_random_starts w1 = starts /\
  (engine cfg = "bayes" ->
   head (trace (snd (run env cfg (init_world ks n)))) =
   Some (CallGpMinimize space (max_eval cfg) starts [VList (ref w1)] None)).
Proof.
  intros Hcold Hp starts.
  destruct (prepare_cold cfg (init_world ks n) _ _ _ _ Hcold eq_refl Hp)
    as (Hx & Hy & Hne & Hn).
  simpl in Hn. fold starts in Hn.
  repeat (split; [assumption|]).
  intros He. destruct (run_bayes_first_call env _ _ _ _ _ _ He Hp) as [t Ht].
  rewrite Ht, Hn, Hx, Hy. reflexivity.
Qed.

Lemma cold_start_reference_witness :
  [VList [VInt 5]] = [VList (ref (snd (prepare sample_random (init_world [sample_x] (Some 1)))))] /\
  @None (list pyfloat) = None /\
  ref (snd (prepare sample_random (init_world [sample_x] (Some 1)))) <> [] /\
  n_random_starts (snd (prepare sample_random (init_world [sample_x] (Some 1)))) = 0 /\
  (engine sample_random = "bayes" ->
   head (trace (snd (run (sample_env "1" [VInt 3]) sample_random
                       (init_world [sample_x] (Some 1))))) =
   Some (CallGpMinimize [DInterval (VInt 0) (VInt 10)] (max_eval sample_random) 0
           [VList (ref (snd (prepare sample_random (init_world [sample_x] (Some 1)))))]
           None)).
Proof.
  apply (cold_start_reference (sample_env "1" [VInt 3]) sample_random [sample_x] (Some 1)
           [DInterval (VInt 0) (VInt 10)] [VList [VInt 5]] None).
  - left. reflexivity.
  - vm_compute. reflexivity.
Defined.

(** X15.  A worker with no knobs and no warm-start data never starts a
    search, whatever the engine: [self.ref] stays empty, reading its
    first element raises [IndexError], and [run] reports that as an
    unexpected error, its only message, and returns [None]. *)
Theorem no_knobs_no_search env cfg n :
  x0 cfg = None \/ y0 cfg = None ->
  fst (run env cfg (init_world [] n)) = Ok None /\
  trace (snd (run env cfg (init_world [] n))) = [Send (MUnexpected IndexError)].
Proof.
  intros Hcold. unfold run, search, prepare. rewrite bind_unfold, bind_unfold.
  change (build_space (init_world [] n)) with (@Ok (list dimension) [], init_world [] n).
  cbv beta iota. rewrite bind_unfold, (transfer_cold cfg _ Hcold). cbv beta iota.
  split; reflexivity.
Qed.

Lemma no_knobs_no_search_witness :
  fst (run (sample_env "1" [VInt 3]) sample_random (init_world [] None)) = Ok None /\
  trace (snd (run (sample_env "1" [VInt 3]) sample_random (init_world [] None))) =
    [Send (MUnexpected IndexError)].
Proof.
  apply (no_knobs_no_search (sample_env "1" [VInt 3]) sample_random None).
  left. reflexivity.
Defined.

(** ** Warm-start data that [transfer] refuses *)

Lemma unchanged_refl (w : world) : (fun w1 w2 : world => w2 = w1) w w.
Proof. reflexivity. Qed.

Lemma unchanged_trans (w1 w2 w3 : world) : w2 = w1 -> w3 = w2 -> w3 = w1.
Proof. congruence. Qed.

Ltac unchanged_tac := steps_with unchanged_refl unchanged_trans ltac:(fail).

Lemma transfer_entry_unchanged acc entry : steps (fun w w' => w' = w) (transfer_entry acc entry).
Proof.
  unfold transfer_entry, read_token, _get_intvalue_from_knobs, intvalue_of_knob.
  unchanged_tac.
Qed.

Lemma transfer_unchanged cfg : steps (fun w w' => w' = w) (transfer cfg).
Proof.
  unfold transfer, transfer_entry, read_token, _get_intvalue_from_knobs, intvalue_of_knob.
  unchanged_tac.
Qed.

Lemma intvalue_of_knob_unchanged kv acc i :
  steps (fun w w' => w' = w) (intvalue_of_knob kv acc i).
Proof. unfold intvalue_of_knob. unchanged_tac. Qed.

Lemma read_tokens_unchanged entry kv : steps (fun w w' => w' = w) (for_each entry read_token kv).
Proof. unfold read_token. unchanged_tac. Qed.

Lemma read_tokens_malformed entry : forall kv w tok,
  In tok entry -> token_pair tok = None ->
  exists e, for_each entry read_token kv w = (Raise e, w).
Proof.
  induction entry as [|t entry IH]; intros kv w tok Hin Hbad; [destruct Hin|].
  simpl. rewrite bind_unfold.
  pose proof (read_tokens_unchanged [t] kv w) as Hu. simpl in Hu.
  rewrite bind_unfold in Hu.
  destruct (read_token kv t w) as [[kv'|e] w1] eqn:Et; simpl in Hu; subst w1; [|eauto].
  destruct Hin as [->|Hin]; [|eapply IH; eassumption].
  exfalso. unfold read_token in Et. unfold token_pair in Hbad.
  destruct (split tok "=") as [|a [|b [|c l]]]; discriminate.
Qed.

Lemma read_tokens_inv entry : forall kv w kv' w',
  for_each entry read_token kv w = (Ok kv', w') ->
  exists pairs, mapM token_pair entry = Some pairs /\ kv' = fold_left insert_pair pairs kv.
Proof.
  induction entry as [|t entry IH]; intros kv w kv' w' H; simpl in H.
  - apply ret_inv in H as [H _]. injection H as ->. exists []. split; reflexivity.
  - bind_inv H. unfold read_token in E.
    destruct (split t "=") as [|nm [|text [|c l]]] eqn:Es; try discriminate E.
    apply ret_inv in E as [E _]. injection E as ->.
    apply IH in H as [pairs [Hm ->]].
    assert (Etp : token_pair t = Some (nm, text))
      by (unfold token_pair; rewrite Es; reflexivity).
    exists ((nm, text) :: pairs). split; [|reflexivity].
    cbn [mapM]. rewrite Etp, Hm. reflexivity.
Qed.

Lemma intvalues_missing kv i p nm w :
  knobs w !! i = Some p -> p !! "name" = Some (VStr nm) -> kv !! nm = None ->
  forall n s acc,
    (s <= i < s + n)%nat ->
    exists e, for_each (seq s n) (intvalue_of_knob kv) acc w = (Raise e, w).
Proof.
  intros Hk Hn Hkv. induction n as [|n IH]; intros s acc Hi; [lia|].
  simpl. rewrite bind_unfold.
  pose proof (intvalue_of_knob_unchanged kv acc s w) as Hu.
  destruct (intvalue_of_knob kv acc s w) as [[acc'|e] w1] eqn:Es; simpl in Hu; subst w1;
    [|eauto].
  destruct (decide (s = i)) as [->|Hne]; [|apply IH; lia].
  exfalso. unfold intvalue_of_knob in Es.
  rewrite bind_unfold, (get_field_Ok _ _ _ _ _ Hk Hn) in Es.
  rewrite bind_unfold in Es. unfold lift, kv_lookup in Es. rewrite Hkv in Es.
  discriminate Es.
Qed.

Lemma no_pair_no_value (pairs : list (string * string)) nm :
  (forall text, ~ In (nm, text) pairs) ->
  fold_left insert_pair pairs ∅ !! nm = None.
Proof.
  intros Hno. rewrite fold_insert_lookup.
  replace (List.filter (fun nv => String.eqb (fst nv) nm) pairs) with (@nil (string * string));
    [reflexivity|].
  symmetry. induction pairs as [|[n t] pairs IH]; [reflexivity|]. simpl.
  destruct (String.eqb_spec n nm) as [->|Hne].
  - exfalso. apply (Hno t). left. reflexivity.
  - apply IH. intros text Hin. apply (Hno text). right. exact Hin.
Qed.

Lemma mapM_token_pairs entry pairs nm text :
  mapM token_pair entry = Some pairs -> In (nm, text) pairs ->
  exists tok, In tok entry /\ token_pair tok = Some (nm, text).
Proof.
  revert pairs. induction entry as [|t entry IH]; intros pairs H Hin; simpl in H.
  - injection H as <-. destruct Hin.
  - destruct (token_pair t) as [pr|] eqn:Et; [|discriminate H]. simpl in H.
    destruct (mapM token_pair entry) as [rest|]; [|discriminate H].
    injection H as <-. destruct Hin as [->|Hin].
    + exists t. split; [left; reflexivity | exact Et].
    + destruct (IH rest eq_refl Hin) as [tok [Ht Hp]].
      exists tok. split; [right; exact Ht | exact Hp].
Qed.

Lemma transfer_entry_refused acc entry w :
  (exists tok, In tok entry /\ token_pair tok = None) \/
  (exists i p nm,
     knobs w !! i = Some p /\ p !! "name" = Some (VStr nm) /\
     forall tok text, In tok entry -> token_pair tok <> Some (nm, text)) ->
  exists e, transfer_entry acc entry w = (Raise e, w).
Proof.
  intros Hbad. unfold transfer_entry. rewrite get_world_bind.
  destruct (negb (length entry =? length (knobs w))%nat); [eexists; reflexivity|].
  rewrite bind_unfold.
  destruct Hbad as [(tok & Hin & Htok)|(i & p & nm & Hk & Hn & Hno)].
  - destruct (read_tokens_malformed entry ∅ w tok Hin Htok) as [e He].
    rewrite He. eauto.
  - pose proof (read_tokens_unchanged entry ∅ w) as Hu.
    destruct (for_each entry read_token ∅ w) as [[kv|e] w1] eqn:Er; simpl in Hu; subst w1;
      [|eauto].
    apply read_tokens_inv in Er as [pairs [Hm ->]].
    assert (Hkv : fold_left insert_pair pairs ∅ !! nm = None).
    { apply no_pair_no_value. intros text Hin.
      destruct (mapM_token_pairs _ _ _ _ Hm Hin) as [tok [Ht Hp]].
      exact (Hno tok text Ht Hp). }
    rewrite bind_unfold. unfold _get_intvalue_from_knobs. rewrite get_world_bind.
    destruct (intvalues_missing _ i p nm w Hk Hn Hkv (length (knobs w)) 0%nat [])
      as [e He].
    { apply lookup_lt_Some in Hk. lia. }
    rewrite He. eauto.
Qed.

Lemma transfer_entries_refused xs entry w :
  In entry xs ->
  (exists tok, In tok entry /\ token_pair tok = None) \/
  (exists i p nm,
     knobs w !! i = Some p /\ p !! "name" = Some (VStr nm) /\
     forall tok text, In tok entry -> token_pair tok <> Some (nm, text)) ->
  forall acc, exists e, for_each xs transfer_entry acc w = (Raise e, w).
Proof.
  intros Hin Hbad. induction xs as [|x xs IH]; intros acc; [destruct Hin|].
  simpl. rewrite bind_unfold.
  pose proof (transfer_entry_unchanged acc x w) as Hu.
  destruct (transfer_entry acc x w) as [[acc'|e] w1] eqn:Ex; simpl in Hu; subst w1; [|eauto].
  destruct Hin as [->|Hin]; [|apply IH, Hin].
  destruct (transfer_entry_refused acc entry w Hbad) as [e He]. congruence.
Qed.

(** X16.  With [x0] and [y0] both given, an entry of [x0] with a token
    that does not split at ["="] into exactly a name and a value, or an
    entry none of whose tokens names some knob, makes [transfer] raise
    and leave the worker as it was.  [run] then ends before any engine
    is called: it sends one error, its only message, and returns
    [None]. *)
Theorem bad_warm_start_rejected env cfg w xs ys entry :
  x0 cfg = Some xs -> y0 cfg = Some ys -> In entry xs ->
  (exists tok, In tok entry /\ token_pair tok = None) \/
  (exists i p nm,
     knobs w !! i = Some p /\ p !! "name" = Some (VStr nm) /\
     forall tok text, In tok entry -> token_pair tok <> Some (nm, text)) ->
  (exists e, transfer cfg w = (Raise e, w)) /\
  fst (run env cfg w) = Ok None /\
  exists e, trace (snd (run env cfg w)) = trace w ++ [Send (error_message e)].
Proof.
  intros Hx Hy Hin Hbad.
  assert (Ht : forall w1 : world,
             same_descriptors w w1 -> exists e, transfer cfg w1 = (Raise e, w1)).
  { intros w1 [_ Hsame]. unfold transfer. rewrite Hx, Hy.
    destruct (transfer_entries_refused xs entry w1 Hin) with (acc := @nil (list value))
      as [e He].
    - destruct Hbad as [Hbad|(i & p & nm & Hk & Hn & Hno)]; [left; exact Hbad|right].
      specialize (Hsame i "name" ltac:(discriminate) ltac:(discriminate)).
      rewrite Hk in Hsame. simpl in Hsame. rewrite Hn in Hsame.
      destruct (knobs w1 !! i) as [p1|] eqn:Ek1; [|discriminate Hsame].
      exists i, p1, nm. split; [exact Ek1|]. split; [exact Hsame | exact Hno].
    - exists e. rewrite bind_unfold, He. reflexivity. }
  split; [apply Ht, same_descriptors_refl|].
  pose proof (build_space_history (fun _ => False) w) as Hq. apply only_nothing in Hq.
  pose proof (build_space_descriptors w) as Hd.
  unfold run, search, prepare. rewrite bind_unfold, bind_unfold.
  destruct (build_space w) as [[space|e] w1]; simpl in Hq, Hd.
  - destruct (Ht w1 Hd) as [e He]. cbv beta iota. rewrite bind_unfold, He.
    rewrite handle_sends. simpl. rewrite Hq. eauto.
  - rewrite handle_sends. simpl. rewrite Hq. eauto.
Qed.

Lemma bad_warm_start_rejected_witness :
  (exists e, transfer sample_no_equals (init_world [sample_x] None) =
             (Raise e, init_world [sample_x] None)) /\
  fst (run (sample_env "1" [VInt 3]) sample_no_equals (init_world [sample_x] None)) = Ok None /\
  exists e,
    trace (snd (run (sample_env "1" [VInt 3]) sample_no_equals (init_world [sample_x] None))) =
    trace (init_world [sample_x] None) ++ [Send (error_message e)].
Proof.
  apply (bad_warm_start_rejected (sample_env "1" [VInt 3]) sample_no_equals
           (init_world [sample_x] None) [["x5"]] [VInt 1] ["x5"]).
  - reflexivity.
  - reflexivity.
  - left. reflexivity.
  - left. exists "x5". split; [left; reflexivity | reflexivity].
Defined.

(** ** Encoding a warm-start value and naming it back *)

(** X17.  What [_get_intvalue_from_knobs] makes of a warm-start value
    is what [objective] turns back into that value: when the encoding of
    the text given for a knob is the single component [v], naming [v]
    for that knob stores, for a knob of dtype [string], the very text,
    and for any other knob the integer the text denotes. *)
Theorem warm_start_round_trip kv i w p nm text v var :
  knobs w !! i = Some p ->
  p !! "name" = Some (VStr nm) ->
  kv !! nm = Some text ->
  intvalue_of_knob kv [] i w = (Ok [v], w) ->
  var !! i = Some v ->
  exists d,
    assign_param i (component var i) w =
      (Ok tt, snd (set_params (dict_set (params w) (VStr nm) d) w)) /\
    ((p !! "dtype" = Some (VStr "string") /\ d = VStr text) \/
     (p !! "dtype" <> Some (VStr "string") /\
      exists z, int_of_string text = Some z /\ d = VInt z)).
Proof.
  intros Hk Hn Hkv H Hv.
  destruct (p !! "dtype") as [dtype|] eqn:Ed.
  2:{ unfold intvalue_of_knob in H.
      rewrite bind_unfold, (get_field_Ok _ _ _ _ _ Hk Hn), bind_unfold in H.
      unfold lift, kv_lookup in H. rewrite Hkv in H.
      rewrite bind_unfold, (get_field_missing _ _ _ _ Hk Ed) in H. discriminate H. }
  rewrite (intvalue_of_knob_spec kv [] i w p nm text dtype Hk Hn Hkv Ed) in H.
  unfold assign_param, component.
  rewrite bind_unfold, (get_field_Ok _ _ _ _ _ Hk Ed), bind_unfold, Hv.
  destruct (py_eq dtype (VStr "string")) eqn:Es.
  - apply py_eq_str in Es. subst dtype.
    destruct (p !! "options") as [opts|] eqn:Eo; [|discriminate H].
    destruct (py_iter opts) as [elements|e] eqn:Ei; [|discriminate H].
    injection H as H. simpl in H.
    destruct (positions (fun x => py_eq x (VStr text)) elements) as [|k [|k' ks]] eqn:Ep;
      try discriminate H.
    injection H as <-.
    destruct (positions_lookup (fun x => py_eq x (VStr text)) elements k) as [e [Hl He]];
      [rewrite Ep; left; reflexivity|].
    apply py_eq_str in He. subst e.
    exists (VStr text). split; [|left; split; reflexivity].
    rewrite bind_unfold, (get_field_Ok _ _ _ _ _ Hk Eo). cbv beta iota.
    rewrite bind_unfold. unfold ret at 1. cbv beta iota.
    unfold lift, py_index. rewrite Ei. cbn [rbind].
    pose proof (lookup_lt_Some _ _ _ Hl) as Hlt.
    replace (Z.of_nat k <? 0) with false by lia.
    replace ((0 <=? Z.of_nat k) && (Z.of_nat k <? Z.of_nat (length elements))) with true
      by lia.
    rewrite Nat2Z.id, Hl.
    rewrite bind_unfold, (get_field_Ok _ _ _ _ _ Hk Hn). reflexivity.
  - destruct (int_of_string text) as [z|] eqn:Ez; [|discriminate H].
    injection H as <-.
    exists (VInt z). split.
    + unfold ret at 1. cbv beta iota.
      rewrite bind_unfold, (get_field_Ok _ _ _ _ _ Hk Hn). reflexivity.
    + right. split; [|eauto]. intros Hd. injection Hd as ->. discriminate Es.
Qed.

Lemma warm_start_round_trip_witness :
  exists d,
    assign_param 1 (component [VInt 7; VInt 2] 1) (init_world [sample_x; sample_mode] None) =
      (Ok tt,
       snd (set_params (dict_set (params (init_world [sample_x; sample_mode] None))
                          (VStr "mode") d)
              (init_world [sample_x; sample_mode] None))) /\
    ((sample_mode !! "dtype" = Some (VStr "string") /\ d = VStr "c") \/
     (sample_mode !! "dtype" <> Some (VStr "string") /\
      exists z, int_of_string "c" = Some z /\ d = VInt z)).
Proof.
  apply (warm_start_round_trip (<["x" := "7"]> (<["mode" := "c"]> ∅)) 1
           (init_world [sample_x; sample_mode] None) sample_mode "mode" "c" (VInt 2)
           [VInt 7; VInt 2]); reflexivity.
Defined.

(** ** A declaration that is refused wherever it stands *)

Lemma named_raise i (h : value -> exn) w :
  exists e, (name ← get_field i "name"; @raise (list value) (h name)) w = (Raise e, w).
Proof.
  rewrite bind_unfold. unfold get_field.
  destruct (knobs w !! i) as [p|]; [destruct (p !! "name")|]; eexists; reflexivity.
Qed.

Lemma build_knob_unacceptable locals i w p :
  knobs w !! i = Some p -> unacceptable p = true ->
  exists e w', build_knob locals i w = (Raise e, w').
Proof.
  intros Hk Hbad. destruct locals as [opl rv]. unfold build_knob. unfold unacceptable in Hbad.
  destruct (p !! "type") as [type|] eqn:Et;
    [| rewrite bind_unfold, (get_field_missing _ _ _ _ Hk Et); eauto].
  rewrite bind_unfold, (get_field_Ok _ _ _ _ _ Hk Et).
  destruct (py_eq type (VStr "discrete")).
  - rewrite bind_unfold. unfold handle_discrete_data.
    destruct (p !! "dtype") as [dtype|] eqn:Ed;
      [| rewrite bind_unfold, (get_field_missing _ _ _ _ Hk Ed); eauto].
    rewrite bind_unfold, (get_field_Ok _ _ _ _ _ Hk Ed).
    destruct (py_eq dtype (VStr "int")); [discriminate Hbad|].
    destruct (py_eq dtype (VStr "float")); [discriminate Hbad|].
    destruct (py_eq dtype (VStr "string")); [discriminate Hbad|].
    destruct (named_raise i (fun name => ValueError "the dtype of {} is not supported" [name])
                w) as [e He].
    rewrite He. eauto.
  - destruct (py_eq type (VStr "continuous")).
    + rewrite bind_unfold. unfold continuous_dimension.
      destruct (p !! "range") as [r_range|] eqn:Er;
        [| rewrite bind_unfold, (get_field_missing _ _ _ _ Hk Er); eauto].
      rewrite bind_unfold, (get_field_Ok _ _ _ _ _ Hk Er), bind_unfold.
      destruct (is_none r_range).
      * unfold ret at 1. cbv beta iota. rewrite bind_unfold.
        destruct (get_field i "name" w) as [[name|e] w1]; eauto.
      * rewrite bind_unfold. unfold lift. simpl in Hbad.
        destruct (py_len r_range) as [n|e]; [|eauto].
        unfold ret at 1. cbv beta iota. rewrite Hbad. rewrite bind_unfold.
        destruct (get_field i "name" w) as [[name|e] w1]; eauto.
    + rewrite bind_unfold. destruct (get_field i "name" w) as [[name|e] w1]; eauto.
Qed.

Lemma set_field_elsewhere i j key v :
  i <> j -> steps (fun w w' => knobs w' !! i = knobs w !! i) (set_field j key v).
Proof. intros Hne w. simpl. apply list_lookup_alter_ne. congruence. Qed.

Lemma knob_refl i (w : world) : (fun w1 w2 : world => knobs w2 !! i = knobs w1 !! i) w w.
Proof. reflexivity. Qed.

Lemma knob_trans i (w1 w2 w3 : world) :
  knobs w2 !! i = knobs w1 !! i -> knobs w3 !! i = knobs w2 !! i ->
  knobs w3 !! i = knobs w1 !! i.
Proof. congruence. Qed.

Lemma build_knob_elsewhere locals i j :
  i <> j -> steps (fun w w' => knobs w' !! i = knobs w !! i) (build_knob locals j).
Proof.
  intros Hne. destruct locals as [opl rv].
  unfold build_knob, continuous_dimension, coerce_bounds,
    handle_discrete_data, handle_discrete_int, handle_discrete_float,
    handle_discrete_string, candidate_items, extend_from_pair.
  steps_with (knob_refl i) (knob_trans i)
    ltac:(first [ apply set_field_elsewhere; exact Hne
                | solve [ intros ?; reflexivity ] ]).
Qed.

Lemma build_knobs_unacceptable i p : forall n s locals w,
  (s <= i < s + n)%nat ->
  knobs w !! i = Some p -> unacceptable p = true ->
  exists e w', for_each (seq s n) build_knob locals w = (Raise e, w').
Proof.
  induction n as [|n IH]; intros s locals w Hi Hk Hbad; [lia|].
  simpl. rewrite bind_unfold.
  destruct (decide (s = i)) as [->|Hne].
  - destruct (build_knob_unacceptable locals i w p Hk Hbad) as (e & w' & He).
    rewrite He. eauto.
  - pose proof (build_knob_elsewhere locals i s ltac:(congruence) w) as Hsame.
    destruct (build_knob locals s w) as [[locals'|e] w1]; simpl in Hsame; [|eauto].
    apply IH; [lia | rewrite Hsame; exact Hk | exact Hbad].
Qed.

(** X18.  One declaration of a shape [build_space] refuses, at whatever
    position among the knobs, makes the whole build fail, with the error
    of that knob or of one before it: no space is returned for the
    others.  [run] then sends that one error, no request before it, and
    returns [None]. *)
Theorem unacceptable_knob_fails_build env cfg w i p :
  knobs w !! i = Some p -> unacceptable p = true ->
  (exists e w', build_space w = (Raise e, w')) /\
  fst (run env cfg w) = Ok None /\
  exists e, trace (snd (run env cfg w)) = trace w ++ [Send (error_message e)].
Proof.
  intros Hk Hbad.
  assert (Hb : exists e w', build_space w = (Raise e, w')).
  { unfold build_space. rewrite get_world_bind, bind_unfold.
    destruct (build_knobs_unacceptable i p (length (knobs w)) 0 ([], None) w)
      as (e & w' & He); [apply lookup_lt_Some in Hk; lia | exact Hk | exact Hbad |].
    rewrite He. eauto. }
  split; [exact Hb|]. destruct Hb as (e & w' & He).
  pose proof (build_space_history (fun _ => False) w) as Hq.
  apply only_nothing in Hq. rewrite He in Hq. simpl in Hq.
  unfold run, search, prepare. rewrite bind_unfold, bind_unfold, He.
  rewrite handle_sends. simpl. rewrite Hq. eauto.
Qed.

Lemma unacceptable_knob_fails_build_witness :
  (exists e w', build_space (init_world [sample_x; sample_three_bounds] None) = (Raise e, w')) /\
  fst (run (sample_env "1" [VInt 3]) sample_random
         (init_world [sample_x; sample_three_bounds] None)) = Ok None /\
  exists e,
    trace (snd (run (sample_env "1" [VInt 3]) sample_random
                  (init_world [sample_x; sample_three_bounds] None))) =
    trace (init_world [sample_x; sample_three_bounds] None) ++ [Send (error_message e)].
Proof.
  apply (unacceptable_knob_fails_build (sample_env "1" [VInt 3]) sample_random
           (init_world [sample_x; sample_three_bounds] None) 1 sample_three_bounds);
    reflexivity.
Defined.

(** ** Coefficients of equal magnitude *)

Lemma insert_ranked_filter (m : Q) x l :
  List.filter (fun cl : coefficient * string => Qeq_bool (magnitude (fst cl)) m) (insert_ranked x l) =
  List.filter (fun cl : coefficient * string => Qeq_bool (magnitude (fst cl)) m) (x :: l).
Proof.
  induction l as [|y l IH]; [reflexivity|].
  simpl insert_ranked. destruct (Qle_bool (magnitude (fst y)) (magnitude (fst x))) eqn:Ele;
    [reflexivity|].
  change (List.filter ?f (y :: ?t)) with (if f y then y :: List.filter f t else List.filter f t).
  rewrite IH. simpl List.filter.
  destruct (Qeq_bool (magnitude (fst x)) m) eqn:Ex; [|reflexivity].
  destruct (Qeq_bool (magnitude (fst y)) m) eqn:Ey; [|reflexivity].
  exfalso. apply Qeq_bool_iff in Ex, Ey.
  assert (Hle : Qle_bool (magnitude (fst y)) (magnitude (fst x)) = true)
    by (apply Qle_bool_iff; rewrite Ex, Ey; apply Qle_refl).
  congruence.
Qed.

(** X19.  The ranking is stable: among the knobs whose coefficients have
    one and the same magnitude, the order of the report is the order of
    the knobs.  In particular knobs that tie are never swapped. *)
Theorem ties_keep_knob_order (coef : list coefficient) (labels : list string) (m : Q) :
  List.filter (fun cl : coefficient * string => Qeq_bool (magnitude (fst cl)) m)
    (sorted_by_magnitude (zip coef labels)) =
  List.filter (fun cl : coefficient * string => Qeq_bool (magnitude (fst cl)) m) (zip coef labels).
Proof.
  unfold sorted_by_magnitude. generalize (zip coef labels) as l.
  induction l as [|x l IH]; [reflexivity|].
  simpl fold_right. rewrite insert_ranked_filter. simpl. rewrite IH. reflexivity.
Qed.

(** ** The candidates of a discrete int knob declared by a range *)

Lemma grid_point (lo s : Z) (k : nat) :
  Qfloor (Qred (inject_Z lo + inject_Z (Z.of_nat k) * inject_Z s)) = lo + Z.of_nat k * s.
Proof.
  rewrite Qred_correct, <- inject_Z_mult, <- inject_Z_plus. apply Qfloor_Z.
Qed.

Lemma np_arange_ints (lo stop s : Z) :
  1 <= s ->
  fits_int64 (VInt lo) = true -> fits_int64 (VInt stop) = true ->
  fits_int64 (VInt s) = true ->
  np_arange (VInt lo) (VInt stop) (VInt s) =
  Ok (map (fun k => VInt (lo + Z.of_nat k * s))
        (seq 0 (Z.to_nat (Qceiling ((inject_Z stop - inject_Z lo) / inject_Z s))))).
Proof.
  intros Hs Hlo Hstop Hstep. unfold np_arange. cbn [is_none]. cbv iota beta.
  rewrite Hlo, Hstop, Hstep. unfold as_number, f_of_Z. cbn [rbind andb].
  replace (Qeq_bool (inject_Z s) 0) with false.
  - f_equal. apply map_ext. intros k. rewrite grid_point. reflexivity.
  - symmetry. destruct (Qeq_bool (inject_Z s) 0) eqn:E; [|reflexivity].
    apply Qeq_bool_iff in E. change 0%Q with (inject_Z 0) in E.
    apply (proj1 (inject_Z_injective s 0)) in E. lia.
Qed.

Lemma fits_int64_bounds (z : Z) : - 2 ^ 63 <= z < 2 ^ 63 -> fits_int64 (VInt z) = true.
Proof.
  intros [H1 H2]. unfold fits_int64.
  apply andb_true_iff. split; [apply Z.leb_le | apply Z.ltb_lt]; assumption.
Qed.

Lemma grid_count (lo hi s : Z) (k : nat) :
  1 <= s ->
  (k < Z.to_nat (Qceiling ((inject_Z (hi + 1) - inject_Z lo) / inject_Z s)))%nat <->
  lo + Z.of_nat k * s <= hi.
Proof.
  intros Hs.
  set (q := ((inject_Z (hi + 1) - inject_Z lo) / inject_Z s)%Q).
  assert (Hpos : (0 < inject_Z s)%Q) by (change 0%Q with (inject_Z 0); rewrite <- Zlt_Qlt; lia).
  assert (Hq : (q * inject_Z s == inject_Z (hi + 1 - lo))%Q).
  { unfold q. rewrite Qmult_comm, Qmult_div_r by lra.
    unfold Z.sub. rewrite (inject_Z_plus (hi + 1)), inject_Z_opp. reflexivity. }
  pose proof (Qle_ceiling q) as Hup. pose proof (Qceiling_lt q) as Hlow.
  split; intros H.
  - assert (Hk : Z.of_nat k <= Qceiling q - 1) by lia.
    rewrite Zle_Qle in Hk.
    assert (Hlt : (inject_Z (Z.of_nat k) < q)%Q)
      by (eapply Qle_lt_trans; [exact Hk | exact Hlow]).
    apply (proj2 (Qmult_lt_r _ _ _ Hpos)) in Hlt. rewrite Hq, <- inject_Z_mult in Hlt.
    rewrite <- Zlt_Qlt in Hlt. lia.
  - assert (Hlt : Z.of_nat k * s < hi + 1 - lo) by lia.
    rewrite Zlt_Qlt, inject_Z_mult, <- Hq in Hlt.
    apply (proj1 (Qmult_lt_r _ _ _ Hpos)) in Hlt.
    assert (Hc : (inject_Z (Z.of_nat k) < inject_Z (Qceiling q))%Q)
      by (eapply Qlt_le_trans; [exact Hlt | exact Hup]).
    rewrite <- Zlt_Qlt in Hc. lia.
Qed.

Lemma py_in_ints (l : list value) (x : Z) :
  Forall (fun v => is_int v = true) l ->
  py_in (VInt x) l = true <-> In (VInt x) l.
Proof.
  intros Hl. unfold py_in. rewrite existsb_exists. split.
  - intros [v [Hin Heq]]. rewrite List.Forall_forall in Hl. specialize (Hl v Hin).
    destruct v; try discriminate Hl. simpl in Heq. apply Z.eqb_eq in Heq. subst. exact Hin.
  - intros Hin. exists (VInt x). split; [exact Hin | apply Z.eqb_refl].
Qed.

Lemma dedup_ints (l : list value) :
  Forall (fun v => is_int v = true) l ->
  forall seen x,
    Forall (fun v => is_int v = true) (dedup l seen) /\
    (In (VInt x) (dedup l seen) <-> In (VInt x) l /\ py_in (VInt x) seen = false).
Proof.
  induction 1 as [|v l Hv Hl IH]; intros seen x; simpl.
  - split; [constructor | tauto].
  - destruct v as [|y| | |]; try discriminate Hv.
    destruct (py_in (VInt y) seen) eqn:Ey.
    + destruct (IH seen x) as [HF Hiff]. split; [exact HF|]. rewrite Hiff. split.
      * intros [Hin Hs]. auto.
      * intros [[Heq|Hin] Hs]; [|auto]. injection Heq as ->. congruence.
    + destruct (IH (VInt y :: seen) x) as [HF Hiff]. split; [constructor; assumption|].
      simpl. rewrite Hiff. simpl. split.
      * intros [Heq|[Hin Hs]].
        -- injection Heq as ->. auto.
        -- apply orb_false_iff in Hs as [_ Hs]. auto.
      * intros [[Heq|Hin] Hs]; [left; exact Heq|].
        destruct (Z.eqb_spec x y) as [->|Hne]; [left; reflexivity|].
        right. split; [exact Hin|]. simpl. exact Hs.
Qed.

Lemma has_field_Ok i key w p :
  knobs w !! i = Some p -> has_field i key w = (Ok (bool_decide (is_Some (p !! key))), w).
Proof. intros Hk. unfold has_field. rewrite Hk. reflexivity. Qed.

Lemma stride_positive step : 1 <= stride step.
Proof. unfold stride. destruct step as [s|]; [destruct (Z.ltb_spec s 1)|]; lia. Qed.

Lemma chosen_step i w p step :
  knobs w !! i = Some p -> p !! "step" = VInt <$> step ->
  (if bool_decide (is_Some (p !! "step")) then
     s ← get_field i "step";
     small ← lift (py_lt s (VInt 1));
     if small : bool then ret (VInt 1) else get_field i "step"
   else ret (VInt 1)) w = (Ok (VInt (stride step)), w).
Proof.
  intros Hk Hs. destruct step as [s|]; simpl in Hs.
  - rewrite bool_decide_eq_true_2 by (rewrite Hs; eauto).
    rewrite bind_unfold, (get_field_Ok _ _ _ _ _ Hk Hs). cbv beta iota.
    rewrite bind_unfold. unfold lift. cbn [py_lt]. cbv beta iota. unfold stride.
    destruct (s <? 1); [reflexivity|]. apply (get_field_Ok _ _ _ _ _ Hk Hs).
  - rewrite bool_decide_eq_false_2 by (rewrite Hs; intros [? ?]; discriminate).
    reflexivity.
Qed.

Lemma candidate_items_range i w p lo hi step :
  knobs w !! i = Some p ->
  p !! "items" = Some VNone ->
  p !! "range" = Some (VList [VInt lo; VInt hi]) ->
  p !! "step" = VInt <$> step ->
  - 2 ^ 52 <= lo < 2 ^ 52 -> - 2 ^ 52 <= hi < 2 ^ 52 -> stride step < 2 ^ 63 ->
  exists items,
    candidate_items i (VInt 1) (fun s => py_lt s (VInt 1)) true w = (Ok items, w) /\
    Forall (fun v => is_int v = true) items /\
    forall x, In (VInt x) items <->
              exists k : nat, x = lo + Z.of_nat k * stride step /\ x <= hi.
Proof.
  intros Hk Hi Hr Hs Hlo Hhi Hstep.
  pose proof (stride_positive step) as Hpos.
  assert (Hp : 2 ^ 52 < 2 ^ 63) by reflexivity.
  assert (Hf1 : fits_int64 (VInt lo) = true) by (apply fits_int64_bounds; lia).
  assert (Hf2 : fits_int64 (VInt (hi + 1)) = true) by (apply fits_int64_bounds; lia).
  assert (Hf3 : fits_int64 (VInt (stride step)) = true) by (apply fits_int64_bounds; lia).
  clear Hp.
  set (more := map (fun k => VInt (lo + Z.of_nat k * stride step))
                 (seq 0 (Z.to_nat (Qceiling ((inject_Z (hi + 1) - inject_Z lo)
                                             / inject_Z (stride step)))))).
  assert (Hints : Forall (fun v => is_int v = true) more).
  { apply List.Forall_forall. intros v Hin. apply in_map_iff in Hin as [k [<- _]].
    reflexivity. }
  exists (dedup more []). split; [|split].
  - unfold candidate_items.
    rewrite bind_unfold, (get_field_Ok _ _ _ _ _ Hk Hi). cbv beta iota. cbn [is_none negb].
    rewrite bind_unfold, (get_field_Ok _ _ _ _ _ Hk Hr). cbv beta iota.
    rewrite bind_unfold, (has_field_Ok _ "step" _ _ Hk). cbv beta iota.
    rewrite bind_unfold, (chosen_step i w p step Hk Hs). cbv beta iota. cbn [is_none].
    rewrite bind_unfold, bind_unfold. unfold lift at 1. cbn [py_len py_iter rbind length].
    cbv beta iota. change (2 mod 2 =? 0)%nat with true. cbv iota.
    change (even_indices 2) with [0%nat]. cbn [for_each].
    rewrite bind_unfold. unfold extend_from_pair.
    unfold mbind, M_bind, bind, lift, ret.
    cbn [py_extend py_getitem py_iter rbind lookup list_lookup Nat.add py_add app].
    rewrite (np_arange_ints lo (hi + 1) (stride step) Hpos Hf1 Hf2 Hf3). fold more.
    unfold list_of_set. cbn [py_iter rbind].
    replace (forallb hashable more) with true; [reflexivity|].
    symmetry. apply forallb_forall. intros v Hin. apply in_map_iff in Hin as [k [<- _]].
    reflexivity.
  - apply (dedup_ints more Hints [] 0).
  - intros x. rewrite (proj2 (dedup_ints more Hints [] x)). unfold more.
    rewrite in_map_iff. split.
    + intros [[k [Hx Hin]] _]. injection Hx as <-. apply in_seq in Hin.
      exists k. split; [reflexivity|]. apply grid_count; [exact Hpos | lia].
    + intros [k [-> Hle]]. split; [|reflexivity].
      exists k. split; [reflexivity|]. apply in_seq.
      apply (grid_count lo hi (stride step) k Hpos) in Hle. lia.
Qed.

(** X20.  A discrete knob of dtype [int] declared by no item list and
    one range [[lo, hi]] of two [int]s of magnitude below 2^52, whose
    step is an [int] below 2^63 or is not declared, offers the values
    [lo], [lo + step], [lo + 2 step], ... up to [hi], the upper bound
    included, and its reference value on top when that is off the grid;
    every candidate is an integer.  The step is the declared one, or 1
    when none is declared or the declared one is below 1.  The reference
    is appended to [self.ref] as an [int], and the knob's declaration is
    left as it was. *)
Theorem discrete_int_candidates w i p lo hi step rv r :
  knobs w !! i = Some p ->
  p !! "dtype" = Some (VStr "int") ->
  p !! "items" = Some VNone ->
  p !! "range" = Some (VList [VInt lo; VInt hi]) ->
  p !! "step" = VInt <$> step ->
  - 2 ^ 52 <= lo < 2 ^ 52 -> - 2 ^ 52 <= hi < 2 ^ 52 -> stride step < 2 ^ 63 ->
  p !! "ref" = Some rv -> py_int rv = Ok r ->
  exists items,
    handle_discrete_data i w = (Ok items, with_ref w (ref w ++ [VInt r])) /\
    Forall (fun v => is_int v = true) items /\
    forall x, In (VInt x) items <->
              (exists k : nat, x = lo + Z.of_nat k * stride step /\ x <= hi) \/ x = r.
Proof.
  intros Hk Hd Hi Hr Hs Hlo Hhi Hstep Href Hint.
  destruct (candidate_items_range i w p lo hi step Hk Hi Hr Hs Hlo Hhi Hstep)
    as (items & Hc & Hints & Hin).
  exists (if py_in (VInt r) items then items else items ++ [VInt r]).
  split; [|split].
  - unfold handle_discrete_data.
    rewrite bind_unfold, (get_field_Ok _ _ _ _ _ Hk Hd).
    change (py_eq (VStr "int") (VStr "int")) with true. cbv iota.
    unfold handle_discrete_int. rewrite bind_unfold, Hc. cbv beta iota.
    rewrite bind_unfold. unfold except_value_error.
    rewrite bind_unfold, (get_field_Ok _ _ _ _ _ Hk Href). cbv beta iota.
    unfold lift. rewrite Hint. reflexivity.
  - destruct (py_in (VInt r) items); [exact Hints|].
    apply Forall_app. split; [exact Hints | repeat constructor].
  - intros x. destruct (py_in (VInt r) items) eqn:Er.
    + rewrite Hin. split; [auto|]. intros [H| ->]; [exact H|].
      apply Hin, py_in_ints; assumption.
    + rewrite in_app_iff, Hin. simpl. split.
      * intros [H|[H|[]]]; [auto|]. injection H as ->. auto.
      * intros [H| ->]; auto.
Qed.

Lemma discrete_int_candidates_witness :
  exists items,
    handle_discrete_data 0 (init_world [sample_stepped] None) =
      (Ok items,
       with_ref (init_world [sample_stepped] None)
         (ref (init_world [sample_stepped] None) ++ [VInt 6])) /\
    Forall (fun v => is_int v = true) items /\
    forall x, In (VInt x) items <->
              (exists k : nat, x = 1 + Z.of_nat k * stride (Some 4) /\ x <= 9) \/ x = 6.
Proof.
  apply (discrete_int_candidates (init_world [sample_stepped] None) 0 sample_stepped
           1 9 (Some 4) (VStr "6") 6); try reflexivity; vm_compute; split; congruence.
Defined.

(** ** A reference that does not convert *)

Lemma int_error_value_error (s : string) : exists msg args, int_error s = ValueError msg args.
Proof. unfold int_error. repeat case_match; eauto. Qed.

(** X21.  A continuous knob with a two-element range whose reference is
    a text that the conversion of its dtype refuses is rejected before
    anything is written: the knob and [self.ref] are as before.  The
    error names the knob, and its text says ["is not an integer value"]
    under dtype [float] as well as under dtype [int]. *)
Theorem unparsable_reference_message i rv0 w p r_range dtype s name :
  knobs w !! i = Some p ->
  p !! "range" = Some r_range -> py_len r_range = Ok 2%nat ->
  p !! "dtype" = Some (VStr dtype) ->
  p !! "ref" = Some (VStr s) ->
  p !! "name" = Some name ->
  (dtype = "int" /\ int_of_string s = None) \/
  (dtype = "float" /\ float_of_string s = None) ->
  continuous_dimension i rv0 w =
  (Raise (ValueError "the ref value of {} is not an integer value" [name]), w).
Proof.
  intros Hk Hr Hlen Hd Href Hn Hbad.
  assert (Hnone : is_none r_range = false)
    by (destruct r_range; try reflexivity; discriminate Hlen).
  unfold continuous_dimension.
  rewrite bind_unfold, (get_field_Ok _ _ _ _ _ Hk Hr). cbv beta iota.
  rewrite Hnone, bind_unfold, bind_unfold. unfold lift at 1. rewrite Hlen.
  unfold ret at 1. cbv beta iota. cbn [Nat.eqb negb].
  rewrite bind_unfold, (get_field_Ok _ _ _ _ _ Hk Hd). cbv beta iota.
  rewrite bind_unfold.
  destruct Hbad as [[-> Hs]|[-> Hs]].
  - change (py_eq (VStr "int") (VStr "int")) with true. cbv iota.
    unfold except_value_error, coerce_bounds.
    rewrite bind_unfold, bind_unfold, (get_field_Ok _ _ _ _ _ Hk Href). cbv beta iota.
    rewrite bind_unfold. unfold lift at 1, conv_int, py_int. rewrite Hs. cbn [rbind].
    destruct (int_error_value_error s) as (msg & args & ->).
    cbv beta iota. rewrite bind_unfold, (get_field_Ok _ _ _ _ _ Hk Hn). reflexivity.
  - change (py_eq (VStr "float") (VStr "int")) with false.
    change (py_eq (VStr "float") (VStr "float")) with true. cbv iota.
    unfold except_value_error, coerce_bounds.
    rewrite bind_unfold, bind_unfold, (get_field_Ok _ _ _ _ _ Hk Href). cbv beta iota.
    rewrite bind_unfold. unfold lift at 1, conv_float, py_float. rewrite Hs. cbn [rbind].
    cbv beta iota. rewrite bind_unfold, (get_field_Ok _ _ _ _ _ Hk Hn). reflexivity.
Qed.

Lemma unparsable_reference_message_witness :
  continuous_dimension 0 None (init_world [sample_ratio_text] None) =
  (Raise (ValueError "the ref value of {} is not an integer value" [VStr "ratio"]),
   init_world [sample_ratio_text] None).
Proof.
  apply (unparsable_reference_message 0 None (init_world [sample_ratio_text] None)
           sample_ratio_text (VList [VInt 0; VInt 1]) "float" "half" (VStr "ratio"));
    try reflexivity.
  right. split; reflexivity.
Defined.

(** ** The declarations after the build *)

Lemma same_knobs_refl (w : world) : (fun w1 w2 : world => knobs w2 = knobs w1) w w.
Proof. reflexivity. Qed.

Lemma same_knobs_trans (w1 w2 w3 : world) :
  knobs w2 = knobs w1 -> knobs w3 = knobs w2 -> knobs w3 = knobs w1.
Proof. congruence. Qed.

Ltac same_knobs_tac :=
  steps_with same_knobs_refl same_knobs_trans
    ltac:(solve [ intros ?; reflexivity ]).

Lemma written_by_build_refl p : written_by_build p p.
Proof. split; [reflexivity | split; left; reflexivity]. Qed.

(** A computation that writes to no knob leaves every declaration. *)
Lemma quiet_written {A : Type} (c : M A) i w p :
  steps (fun w w' => knobs w' = knobs w) c ->
  knobs w !! i = Some p ->
  exists p', knobs (snd (c w)) !! i = Some p' /\ written_by_build p p'.
Proof.
  intros Hc Hk. exists p. rewrite (Hc w). split; [exact Hk | apply written_by_build_refl].
Qed.

Lemma quiet_at {A : Type} (c : M A) w :
  steps (fun w w' => knobs w' = knobs w) c -> knobs (snd (c w)) = knobs w.
Proof. intros Hc. apply Hc. Qed.

Lemma then_quiet {A B : Type} (c : M A) (f : A -> M B) w :
  (forall a, steps (fun w w' => knobs w' = knobs w) (f a)) ->
  knobs (snd ((c ≫= f) w)) = knobs (snd (c w)).
Proof.
  intros Hf. apply (continues (fun w w' => knobs w' = knobs w)); [reflexivity | exact Hf].
Qed.

Lemma except_quiet {A : Type} (c handler : M A) w :
  steps (fun w w' => knobs w' = knobs w) handler ->
  knobs (snd (except_value_error c handler w)) = knobs (snd (c w)).
Proof.
  intros Hh. unfold except_value_error.
  destruct (c w) as [[a|e] w1]; [reflexivity|]. destruct e; try reflexivity. apply Hh.
Qed.

Lemma still {A : Type} (c : M A) w :
  steps (fun w w' => w' = w) c -> c w = (fst (c w), w).
Proof. intros Hc. specialize (Hc w). destruct (c w) as [r w1]. simpl in *. congruence. Qed.

Lemma np_arange_numbers start stop step more :
  np_arange start stop step = Ok more -> Forall (fun v => is_number v = true) more.
Proof.
  unfold np_arange.
  destruct (if is_none stop then (VInt 0, start) else (start, stop)) as [a b].
  destruct (as_number a) as [[qa| |]|]; simpl; try discriminate;
    destruct (as_number b) as [[qb| |]|]; simpl; try discriminate;
    destruct (as_number (if is_none step then VInt 1 else step)) as [[qs| |]|]; simpl;
    try discriminate.
  destruct (Qeq_bool qs 0); [discriminate|].
  destruct (fits_int64 a && fits_int64 b && fits_int64 (if is_none step then VInt 1 else step));
    intros H; injection H as <-; apply List.Forall_forall; intros v Hin;
    apply in_map_iff in Hin as [k [<- _]]; reflexivity.
Qed.

(** The rounds of [items.extend] on the list the knob holds. *)
Lemma extend_rounds_own i plus_one r_range step : forall js l w p,
  knobs w !! i = Some p -> p !! "items" = Some (VList l) ->
  exists more,
    Forall (fun v => is_number v = true) more /\
    knobs (snd (for_each js (extend_from_pair i true plus_one r_range step) (VList l) w)) !! i
    = Some (<["items" := VList (l ++ more)]> p).
Proof.
  assert (Hsame : forall l w p, knobs w !! i = Some p -> p !! "items" = Some (VList l) ->
            exists more, Forall (fun v => is_number v = true) more /\
              knobs w !! i = Some (<["items" := VList (l ++ more)]> p)).
  { intros l w p Hk Hi. exists []. split; [constructor|].
    rewrite app_nil_r, insert_id by exact Hi. exact Hk. }
  induction js as [|j js IH]; intros l w p Hk Hi; [apply Hsame; assumption|].
  cbn [for_each]. rewrite bind_unfold. unfold extend_from_pair at 1.
  rewrite bind_unfold. unfold lift at 1. cbn [py_extend]. cbv beta iota.
  rewrite bind_unfold. unfold lift at 1.
  destruct (py_getitem r_range j) as [low|e]; [|apply Hsame; assumption].
  cbv beta iota. rewrite bind_unfold. unfold lift at 1.
  destruct (py_getitem r_range (j + 1)) as [high|e]; [|apply Hsame; assumption].
  cbv beta iota. rewrite bind_unfold. unfold lift at 1.
  destruct (if plus_one then py_add high (VInt 1) else Ok high) as [stop|e];
    [|apply Hsame; assumption].
  cbv beta iota. rewrite bind_unfold. unfold lift at 1.
  destruct (np_arange low stop step) as [more|e] eqn:Em; [|apply Hsame; assumption].
  cbv beta iota. rewrite bind_unfold. unfold lift at 1. cbv beta iota.
  rewrite bind_unfold, set_field_unfold. cbv beta iota. unfold mret, M_ret, ret at 1.
  cbv beta iota.
  set (w1 := World _ _ _ _ _ _ _).
  assert (Hk1 : knobs w1 !! i = Some (<["items" := VList (l ++ more)]> p)).
  { unfold w1. cbn [knobs]. rewrite list_lookup_alter_eq, Hk. reflexivity. }
  destruct (IH (l ++ more) w1 _ Hk1 (lookup_insert_eq _ _ _)) as (more' & Hn & Hk').
  exists (more ++ more'). split.
  - apply Forall_app. split; [eapply np_arange_numbers; exact Em | exact Hn].
  - rewrite Hk', insert_insert_eq, app_assoc. reflexivity.
Qed.

Lemma extend_rounds_quiet i plus_one r_range step items js :
  steps (fun w w' => knobs w' = knobs w)
    (for_each js (extend_from_pair i false plus_one r_range step) items).
Proof.
  revert items. apply (steps_for_each _ same_knobs_refl same_knobs_trans).
  intros s a. unfold extend_from_pair. same_knobs_tac.
Qed.

Lemma extend_rounds_refused i aliased plus_one r_range step items js w :
  (forall l, items <> VList l) ->
  knobs (snd (for_each js (extend_from_pair i aliased plus_one r_range step) items w))
  = knobs w.
Proof.
  intros Hl. destruct js as [|j js]; [reflexivity|].
  cbn [for_each]. rewrite bind_unfold. unfold extend_from_pair at 1.
  rewrite bind_unfold. unfold lift at 1.
  destruct items; try reflexivity. exfalso. eapply Hl. reflexivity.
Qed.

Lemma candidate_items_own i default_step too_small plus_one w p :
  knobs w !! i = Some p ->
  exists p',
    knobs (snd (candidate_items i default_step too_small plus_one w)) !! i = Some p' /\
    items_grown p p'.
Proof.
  intros Hk.
  assert (Hsame : forall w', knobs w' = knobs w ->
            exists p', knobs w' !! i = Some p' /\ items_grown p p').
  { intros w' E. exists p. rewrite E. split; [exact Hk | left; reflexivity]. }
  unfold candidate_items.
  destruct (p !! "items") as [items0|] eqn:Ei;
    [| rewrite bind_unfold, (get_field_missing _ _ _ _ Hk Ei); apply Hsame; reflexivity].
  rewrite bind_unfold, (get_field_Ok _ _ _ _ _ Hk Ei). cbv beta iota.
  destruct (p !! "range") as [r_range|] eqn:Er;
    [| rewrite bind_unfold, (get_field_missing _ _ _ _ Hk Er); apply Hsame; reflexivity].
  rewrite bind_unfold, (get_field_Ok _ _ _ _ _ Hk Er). cbv beta iota.
  rewrite bind_unfold, (has_field_Ok _ "step" _ _ Hk). cbv beta iota.
  rewrite bind_unfold.
  match goal with
  | |- context [match ?c w with _ => _ end] =>
      assert (Hc : c w = (fst (c w), w))
        by (apply still; unchanged_tac);
      rewrite Hc; destruct (fst (c w)) as [step|e]; [|apply Hsame; reflexivity]
  end.
  rewrite then_quiet by (intros; same_knobs_tac).
  destruct (is_none r_range) eqn:En; [apply Hsame; reflexivity|].
  rewrite bind_unfold. unfold lift at 1.
  destruct (py_len r_range) as [n|e]; [|apply Hsame; reflexivity].
  cbv beta iota.
  destruct items0 as [|z|f|s|l]; cbn [is_none negb].
  - apply Hsame. apply extend_rounds_quiet.
  - apply Hsame. apply extend_rounds_refused. discriminate.
  - apply Hsame. apply extend_rounds_refused. discriminate.
  - apply Hsame. apply extend_rounds_refused. discriminate.
  - destruct (extend_rounds_own i plus_one r_range step
                (even_indices (if (n mod 2 =? 0)%nat then n else (n - 1)%nat)) l w p Hk Ei)
      as (more & Hn & Hk').
    eexists. split; [exact Hk'|]. right. exists l, more, r_range. auto.
Qed.

Lemma items_grown_written p p' :
  field_is p "type" "discrete" ->
  field_is p "dtype" "int" \/ field_is p "dtype" "float" ->
  items_grown p p' -> written_by_build p p'.
Proof.
  intros Ht Hd [->|(l & more & r & Hi & Hr & Hn & Hm & ->)]; [apply written_by_build_refl|].
  split; [|split].
  - intros key _ Hne. apply lookup_insert_ne. congruence.
  - left. apply lookup_insert_ne. discriminate.
  - right. split; [exact Ht|]. split; [exact Hd|].
    exists l, more, r. repeat split; try assumption. apply lookup_insert_eq.
Qed.

Lemma handle_discrete_data_own i w p :
  knobs w !! i = Some p -> field_is p "type" "discrete" ->
  exists p', knobs (snd (handle_discrete_data i w)) !! i = Some p' /\ written_by_build p p'.
Proof.
  intros Hk Ht. unfold handle_discrete_data.
  destruct (p !! "dtype") as [dtype|] eqn:Ed;
    [| rewrite bind_unfold, (get_field_missing _ _ _ _ Hk Ed);
       exists p; split; [exact Hk | apply written_by_build_refl]].
  rewrite bind_unfold, (get_field_Ok _ _ _ _ _ Hk Ed).
  destruct (py_eq dtype (VStr "int")) eqn:Eint.
  { apply py_eq_str in Eint. subst dtype. unfold handle_discrete_int.
    rewrite then_quiet by (intros; same_knobs_tac).
    destruct (candidate_items_own i (VInt 1) (fun s => py_lt s (VInt 1)) true w p Hk)
      as (p' & Hk' & Hg).
    exists p'. split; [exact Hk'|]. apply items_grown_written; auto. }
  destruct (py_eq dtype (VStr "float")) eqn:Efloat.
  { apply py_eq_str in Efloat. subst dtype. unfold handle_discrete_float.
    rewrite then_quiet by (intros; same_knobs_tac).
    destruct (candidate_items_own i (VFloat (FFin (1 # 10))) (fun s => py_le s (VInt 0))
                false w p Hk) as (p' & Hk' & Hg).
    exists p'. split; [exact Hk'|]. apply items_grown_written; auto. }
  apply quiet_written; [|exact Hk].
  unfold handle_discrete_string. same_knobs_tac.
Qed.

Lemma coerce_bounds_own i conv r w p :
  knobs w !! i = Some p -> p !! "range" = Some r -> py_len r = Ok 2%nat ->
  exists p',
    knobs (snd (coerce_bounds i conv r w)) !! i = Some p' /\
    (p' = p \/ exists r', coerced conv r r' /\ p' = <["range" := r']> p).
Proof.
  intros Hk Hr Hlen.
  assert (Hsame : exists p', knobs w !! i = Some p' /\
                    (p' = p \/ exists r', coerced conv r r' /\ p' = <["range" := r']> p))
    by (exists p; auto).
  unfold coerce_bounds.
  destruct (p !! "ref") as [rv|] eqn:Eref;
    [| rewrite bind_unfold, (get_field_missing _ _ _ _ Hk Eref); exact Hsame].
  rewrite bind_unfold, (get_field_Ok _ _ _ _ _ Hk Eref). cbv beta iota.
  rewrite bind_unfold. unfold lift at 1.
  destruct (conv rv) as [ref_value|e]; [|exact Hsame]. cbv beta iota.
  rewrite bind_unfold. unfold lift at 1.
  destruct (py_getitem r 0) as [x0|e] eqn:E0; [|exact Hsame]. cbv beta iota.
  rewrite bind_unfold. unfold lift at 1.
  destruct (conv x0) as [c0|e] eqn:Ec0; [|exact Hsame]. cbv beta iota.
  rewrite bind_unfold. unfold lift at 1.
  destruct r as [| | | |l]; try exact Hsame.
  destruct l as [|y0 [|y1 [|y2 l]]]; try discriminate Hlen.
  cbn in E0. injection E0 as ->.
  cbn [py_setitem length Nat.ltb Nat.leb]. cbv beta iota.
  rewrite bind_unfold, set_field_unfold. cbv beta iota.
  set (w1 := World _ _ _ _ _ _ _).
  assert (Hk1 : knobs w1 !! i = Some (<["range" := VList [c0; y1]]> p)).
  { unfold w1. cbn [knobs]. rewrite list_lookup_alter_eq, Hk. reflexivity. }
  rewrite bind_unfold. unfold lift at 1.
  cbn [insert list_insert py_getitem py_iter rbind lookup list_lookup]. cbv beta iota.
  rewrite bind_unfold. unfold lift at 1.
  destruct (conv y1) as [c1|e] eqn:Ec1.
  - cbv beta iota. rewrite bind_unfold. unfold lift at 1.
    cbn [py_setitem length Nat.ltb Nat.leb]. cbv beta iota.
    rewrite bind_unfold, set_field_unfold. cbv beta iota.
    eexists. split.
    + cbn [snd knobs mret M_ret ret]. rewrite list_lookup_alter_eq, Hk1. reflexivity.
    + right. exists (VList [c0; c1]). split.
      * exists x0, y1, c0. rewrite Ec1. auto.
      * cbn [insert list_insert]. apply insert_insert_eq.
  - eexists. split; [exact Hk1|]. right. exists (VList [c0; y1]). split; [|reflexivity].
    exists x0, y1, c0. rewrite Ec1. auto.
Qed.

Lemma continuous_dimension_own i rv w p :
  knobs w !! i = Some p -> field_is p "type" "continuous" ->
  exists p', knobs (snd (continuous_dimension i rv w)) !! i = Some p' /\ written_by_build p p'.
Proof.
  intros Hk Ht.
  assert (Hsame : forall w', knobs w' = knobs w ->
            exists p', knobs w' !! i = Some p' /\ written_by_build p p').
  { intros w' E. exists p. rewrite E. split; [exact Hk | apply written_by_build_refl]. }
  assert (Hwritten : forall conv r p',
            field_is p "dtype" "int" /\ conv = conv_int \/
            field_is p "dtype" "float" /\ conv = conv_float ->
            p !! "range" = Some r ->
            p' = p \/ (exists r', coerced conv r r' /\ p' = <["range" := r']> p) ->
            written_by_build p p').
  { intros conv r p' Hd Hr [->|(r' & Hc & ->)]; [apply written_by_build_refl|].
    split; [|split].
    - intros key Hne _. apply lookup_insert_ne. congruence.
    - right. split; [exact Ht|]. exists conv, r, r'.
      split; [exact Hd|]. split; [exact Hr|]. split; [apply lookup_insert_eq | exact Hc].
    - left. apply lookup_insert_ne. discriminate. }
  unfold continuous_dimension.
  destruct (p !! "range") as [r_range|] eqn:Er;
    [| rewrite bind_unfold, (get_field_missing _ _ _ _ Hk Er); apply Hsame; reflexivity].
  rewrite bind_unfold, (get_field_Ok _ _ _ _ _ Hk Er). cbv beta iota.
  rewrite bind_unfold.
  destruct (is_none r_range).
  { unfold ret at 1. cbv beta iota. apply Hsame, quiet_at. same_knobs_tac. }
  rewrite bind_unfold. unfold lift at 1.
  destruct (py_len r_range) as [n|e] eqn:Elen; [|apply Hsame; reflexivity].
  unfold ret at 1. cbv beta iota.
  destruct (n =? 2)%nat eqn:En; cbn [negb].
  2:{ apply Hsame, quiet_at. same_knobs_tac. }
  apply Nat.eqb_eq in En. subst n.
  destruct (p !! "dtype") as [dtype|] eqn:Ed;
    [| rewrite bind_unfold, (get_field_missing _ _ _ _ Hk Ed); apply Hsame; reflexivity].
  rewrite bind_unfold, (get_field_Ok _ _ _ _ _ Hk Ed). cbv beta iota.
  rewrite then_quiet by (intros; same_knobs_tac).
  destruct (py_eq dtype (VStr "int")) eqn:Eint.
  { apply py_eq_str in Eint. subst dtype.
    rewrite except_quiet by same_knobs_tac.
    rewrite then_quiet by (intros; same_knobs_tac).
    destruct (coerce_bounds_own i conv_int r_range w p Hk Er Elen) as (p' & Hk' & Hc).
    exists p'. split; [exact Hk'|]. apply (Hwritten conv_int r_range); auto. }
  destruct (py_eq dtype (VStr "float")) eqn:Efloat.
  { apply py_eq_str in Efloat. subst dtype.
    rewrite except_quiet by same_knobs_tac.
    rewrite then_quiet by (intros; same_knobs_tac).
    destruct (coerce_bounds_own i conv_float r_range w p Hk Er Elen) as (p' & Hk' & Hc).
    exists p'. split; [exact Hk'|]. apply (Hwritten conv_float r_range); auto. }
  apply Hsame. reflexivity.
Qed.

Lemma build_knob_own locals i w p :
  knobs w !! i = Some p ->
  exists p', knobs (snd (build_knob locals i w)) !! i = Some p' /\ written_by_build p p'.
Proof.
  intros Hk. destruct locals as [opl rv]. unfold build_knob.
  destruct (p !! "type") as [type|] eqn:Et;
    [| rewrite bind_unfold, (get_field_missing _ _ _ _ Hk Et);
       exists p; split; [exact Hk | apply written_by_build_refl]].
  rewrite bind_unfold, (get_field_Ok _ _ _ _ _ Hk Et).
  destruct (py_eq type (VStr "discrete")) eqn:Ed.
  { apply py_eq_str in Ed. subst type.
    rewrite then_quiet by (intros; same_knobs_tac).
    apply handle_discrete_data_own; assumption. }
  destruct (py_eq type (VStr "continuous")) eqn:Ec.
  { apply py_eq_str in Ec. subst type.
    rewrite then_quiet by (intros [? ?]; same_knobs_tac).
    apply continuous_dimension_own; assumption. }
  apply quiet_written; [|exact Hk]. same_knobs_tac.
Qed.

Lemma build_knobs_elsewhere j : forall n s locals w,
  (j < s)%nat ->
  knobs (snd (for_each (seq s n) build_knob locals w)) !! j = knobs w !! j.
Proof.
  induction n as [|n IH]; intros s locals w Hj; [reflexivity|].
  simpl. rewrite bind_unfold.
  pose proof (build_knob_elsewhere locals j s ltac:(lia) w) as Hs.
  destruct (build_knob locals s w) as [[locals'|e] w1]; simpl in Hs; [|exact Hs].
  rewrite IH by lia. exact Hs.
Qed.

Lemma build_knobs_own j p : forall n s locals w,
  knobs w !! j = Some p ->
  exists p',
    knobs (snd (for_each (seq s n) build_knob locals w)) !! j = Some p' /\
    written_by_build p p'.
Proof.
  induction n as [|n IH]; intros s locals w Hk.
  { exists p. split; [exact Hk | apply written_by_build_refl]. }
  simpl. rewrite bind_unfold.
  destruct (decide (j = s)) as [->|Hne].
  - destruct (build_knob_own locals s w p Hk) as (p' & Hk' & Hw).
    destruct (build_knob locals s w) as [[locals'|e] w1]; simpl in Hk'; [|eauto].
    exists p'. split; [|exact Hw]. rewrite build_knobs_elsewhere by lia. exact Hk'.
  - pose proof (build_knob_elsewhere locals j s Hne w) as Hs.
    destruct (build_knob locals s w) as [[locals'|e] w1]; simpl in Hs.
    + apply IH. rewrite Hs. exact Hk.
    + exists p. simpl. rewrite Hs. split; [exact Hk | apply written_by_build_refl].
Qed.

Lemma build_space_written w :
  Forall2 written_by_build (knobs w) (knobs (snd (build_space w))).
Proof.
  apply Forall2_same_length_lookup. split.
  - symmetry. apply (build_space_descriptors w).
  - intros i p p' Hk Hk'.
    assert (E : knobs (snd (build_space w)) =
                knobs (snd (for_each (seq 0 (length (knobs w))) build_knob ([], None) w))).
    { unfold build_space. rewrite get_world_bind.
      apply then_quiet. intros [? ?]. same_knobs_tac. }
    rewrite E in Hk'.
    destruct (build_knobs_own i p (length (knobs w)) 0%nat ([], None) w Hk) as (q & Hq & Hw).
    congruence.
Qed.


